(** * pttrns-backend: wallet-proof sessions, listen ledger and abuse detector

    A shallow embedding of the TypeScript backend:
    - [SignData]: services/signDataService.ts ([checkSignData] and its
      hashing helpers);
    - [Sessions]: the in-memory session registry of middleware/middleware.ts
      ([addSession], [getSession], [getUserSession], [removeSession], the
      cleanup interval and [checkSession]);
    - [Store]: the relational tables of database/database.ts;
    - [Detector]: [checkUserBlock], [logSuspiciousActivity] and
      [detectSuspiciousActivity] of middleware/middleware.ts;
    - [Ledger]: the listen transaction of /api/session-listens in
      routes/sessionRoutes.ts;
    - [ApiKeys]: services/apiKeyService.ts ([saveApiKey], [validateApiKey])
      and the handler that issues a key;
    - [SessionRoutes]: the handlers of /api/session/create and
      /api/session-listens;
    - [SessionApi], [KeyRoutes], [Admin], [Legacy], [WalletKey]: the routes
      mounted behind [checkSession], the key validation route, the block and
      unblock handlers with the block sweep of the database, the legacy
      listen endpoint and the key bytes made by [getWalletPublicKey].

    Conventions.  A JavaScript [Date] and every SQL timestamp is the number of
    milliseconds since the epoch, a [Z]; the database clock [NOW()] and the
    process clock [Date.now()] are the same clock, read once per call, and a
    TIMESTAMP column gives back the instant that was written to it.  A
    [Buffer] is a list of byte values.  A call that can throw (or a promise
    that can reject) returns a [result]; [try_catch] is the
    [try { } catch { }] block.  Calls into external packages (@ton/core,
    @ton/crypto, tweetnacl, jsonwebtoken, the TON API client) are parameters,
    so every theorem holds for any behaviour of theirs.  Requests are handled
    one at a time: a handler runs from its first statement to its answer
    before the next one starts. *)

From stdpp Require Import gmap strings list fin_maps pretty.
From Stdlib Require Import ZArith Lia Ascii.

Local Open Scope Z_scope.

(** ** Exceptions *)

Module Js.

Inductive result (A : Type) : Type :=
| Return (a : A)
| Throw (e : string).
Arguments Return {A} a.
Arguments Throw {A} e.

Definition bind {A B} (m : result A) (k : A -> result B) : result B :=
  match m with
  | Return a => k a
  | Throw e => Throw e
  end.

Definition try_catch {A} (body : result A) (handler : string -> result A) : result A :=
  match body with
  | Return a => Return a
  | Throw e => handler e
  end.

(** [s.split(sep)] for a one-character separator. *)
Fixpoint split_acc (sep : ascii) (cur : string) (s : string) : list string :=
  match s with
  | EmptyString => [String.rev cur]
  | String c rest =>
      if Ascii.eqb c sep then String.rev cur :: split_acc sep EmptyString rest
      else split_acc sep (String c cur) rest
  end.

Definition split (sep : ascii) (s : string) : list string :=
  split_acc sep EmptyString s.

(** A string is held as its UTF-8 bytes: [Buffer.from(s, "utf8")], and
    [charCodeAt] on ASCII text, are its byte values. *)
Fixpoint char_codes (s : string) : list Z :=
  match s with
  | EmptyString => []
  | String c rest => Z.of_N (Ascii.N_of_ascii c) :: char_codes rest
  end.

Definition byte_of (c : ascii) : Z := Z.of_N (Ascii.N_of_ascii c).

(** A continuation byte of UTF-8, 10xxxxxx. *)
Definition continuation (c : ascii) : bool :=
  (128 <=? byte_of c) && (byte_of c <? 192).

(** The UTF-16 code units of a string, which is what [s.charCodeAt(i)]
    returns for [i] from 0 to [s.length - 1]: the UTF-8 sequences of one,
    two and three bytes give one code unit each, a sequence of four bytes
    gives a surrogate pair.  A byte that starts no well-formed sequence
    stands for no JavaScript character; it is taken as a code unit of its
    own. *)
Fixpoint code_units (s : string) : list Z :=
  match s with
  | EmptyString => []
  | String c1 rest1 =>
      let b1 := byte_of c1 in
      match rest1 with
      | String c2 rest2 =>
          if (192 <=? b1) && (b1 <? 224) && continuation c2 then
            (b1 mod 32 * 64 + byte_of c2 mod 64) :: code_units rest2
          else
            match rest2 with
            | String c3 rest3 =>
                if (224 <=? b1) && (b1 <? 240) && continuation c2 && continuation c3 then
                  (b1 mod 16 * 4096 + byte_of c2 mod 64 * 64 + byte_of c3 mod 64)
                  :: code_units rest3
                else
                  match rest3 with
                  | String c4 rest4 =>
                      if (240 <=? b1) && (b1 <? 248) && continuation c2 &&
                         continuation c3 && continuation c4
                      then
                        let codePoint :=
                          b1 mod 8 * 262144 + byte_of c2 mod 64 * 4096 +
                          byte_of c3 mod 64 * 64 + byte_of c4 mod 64 in
                        (55296 + (codePoint - 65536) / 1024)
                        :: (56320 + (codePoint - 65536) mod 1024)
                        :: code_units rest4
                      else b1 :: code_units rest1
                  | EmptyString => b1 :: code_units rest1
                  end
            | EmptyString => b1 :: code_units rest1
            end
      | EmptyString => [b1]
      end
  end.

End Js.

Notation "x <- m ;; k" := (Js.bind m (fun x => k))
  (at level 100, m at next level, right associativity, only parsing).

(** ** services/signDataService.ts *)

Module SignData.
Import Js.

Definition Buffer := list Z.

(** The parsed address of @ton/core: workchain and 32-byte account hash. *)
Record Address := { workChain : Z; hash : Buffer }.

Inductive SignDataPayload :=
| PayloadText (text : string)
| PayloadBinary (bytes : string)
| PayloadCell (cell : string) (schema : string).

Record CheckSignDataRequestDto := {
  signature : string;
  address : string;
  timestamp : Z;
  domain : string;
  payload : SignDataPayload;
  public_key : string;
  walletStateInit : string
}.

Definition allowedDomains : list string :=
  ["pikromachess-tma-patterns-47ab.twc1.net"; "localhost:5173"; "localhost:3000"]%string.

Definition validAuthTime : Z := 15 * 60.

(** [allowedDomains.includes(domain)] *)
Definition includes (l : list string) (s : string) : bool :=
  existsb (String.eqb s) l.

(** Big-endian encoding on [width] bytes (two's complement for negatives). *)
Fixpoint be_bytes (width : nat) (v : Z) : Buffer :=
  match width with
  | O => []
  | S w => be_bytes w (v / 256) ++ [v mod 256]
  end.

(** The range checks of Node's Buffer writers. *)
Definition writeInt32BE (v : Z) : result Buffer :=
  if (-2147483648 <=? v) && (v <=? 2147483647) then Return (be_bytes 4 v)
  else Throw "ERR_OUT_OF_RANGE".

Definition writeUInt32BE (v : Z) : result Buffer :=
  if (0 <=? v) && (v <=? 4294967295) then Return (be_bytes 4 v)
  else Throw "ERR_OUT_OF_RANGE".

Definition writeBigUInt64BE (v : Z) : result Buffer :=
  if (0 <=? v) && (v <? 2 ^ 64) then Return (be_bytes 8 v)
  else Throw "ERR_OUT_OF_RANGE".

(** [Buffer.from(array)]: every entry is truncated to a byte. *)
Definition Buffer_from (array : list Z) : Buffer :=
  map (fun entry => Z.land entry 255) array.

(** [encodeDomainDnsLike]: labels reversed, the code units of each pushed one
    by one and followed by a zero; the array is then made a buffer. *)
Definition encodeDomainDnsLike (domain : string) : Buffer :=
  let parts := rev (split "."%char domain) in
  let encoded :=
    fold_left (fun encoded part => encoded ++ code_units part ++ [0]) parts [] in
  Buffer_from encoded.

(** The external packages [checkSignData] calls into: @ton/crypto's sha256,
    base64 decoding, crc-32, [Cell.fromBase64] and the builder chain
    [beginCell().storeUint(..).storeRef(cell).endCell().hash()] of @ton/core,
    and the Ed25519 check inside [nacl.sign.detached.verify]. *)
Record Crypto := {
  sha256 : Buffer -> Buffer;
  base64_decode : string -> Buffer;
  crc32_buf : Buffer -> Z;
  Cell : Type;
  Cell_fromBase64 : string -> result Cell;
  build_and_hash : Z -> Z -> Z -> Address -> Buffer -> Cell -> result Buffer;
  ed25519_verify : Buffer -> Buffer -> Buffer -> bool
}.

Section CheckSignData.
(** [Date.now()] *)
Variable now_ms : Z.
(** [Address.parse]: throws on a malformed address. *)
Variable Address_parse : string -> result Address.
Variable crypto : Crypto.

Definition createTextBinaryHash (p : SignDataPayload) (parsedAddr : Address)
    (domain : string) (timestamp : Z) : result Buffer :=
  wcBuffer <- writeInt32BE (workChain parsedAddr) ;;
  let domainBuffer := char_codes domain in
  domainLenBuffer <- writeUInt32BE (Z.of_nat (length domainBuffer)) ;;
  tsBuffer <- writeBigUInt64BE timestamp ;;
  let typePrefix := match p with PayloadText _ => "txt" | _ => "bin" end%string in
  let payloadBuffer :=
    match p with
    | PayloadText text => char_codes text
    | PayloadBinary bytes => base64_decode crypto bytes
    | PayloadCell _ _ => []
    end in
  payloadLenBuffer <- writeUInt32BE (Z.of_nat (length payloadBuffer)) ;;
  let message :=
    [255; 255] ++ char_codes "ton-connect/sign-data/" ++ wcBuffer ++
    hash parsedAddr ++ domainLenBuffer ++ domainBuffer ++ tsBuffer ++
    char_codes typePrefix ++ payloadLenBuffer ++ payloadBuffer in
  Return (sha256 crypto message).

Definition createCellHash (cell schema : string) (parsedAddr : Address)
    (domain : string) (timestamp : Z) : result Buffer :=
  c <- Cell_fromBase64 crypto cell ;;
  let schemaHash := crc32_buf crypto (char_codes schema) mod 2 ^ 32 in
  let encodedDomain := encodeDomainDnsLike domain in
  build_and_hash crypto 0x75569022 schemaHash timestamp parsedAddr encodedDomain c.

(** [nacl.sign.detached.verify]: throws on a wrong signature or key size. *)
Definition nacl_sign_detached_verify (msg sig pk : Buffer) : result bool :=
  if negb (length sig =? 64)%nat then Throw "bad signature size"
  else if negb (length pk =? 32)%nat then Throw "bad public key size"
  else Return (ed25519_verify crypto msg sig pk).

(** The body of the [try] block of [checkSignData]. *)
Definition checkSignData_try (req : CheckSignDataRequestDto)
    (getWalletPublicKey : string -> result (option Buffer)) : result bool :=
  if negb (includes allowedDomains (domain req)) then Return false
  else
    let now := now_ms / 1000 in
    if now - validAuthTime >? timestamp req then Return false
    else
      parsedAddr <- Address_parse (address req) ;;
      publicKey <- getWalletPublicKey (address req) ;;
      match publicKey with
      | None => Return false
      | Some pk =>
          finalHash <-
            match payload req with
            | PayloadCell cell schema =>
                createCellHash cell schema parsedAddr (domain req) (timestamp req)
            | p => createTextBinaryHash p parsedAddr (domain req) (timestamp req)
            end ;;
          nacl_sign_detached_verify finalHash (base64_decode crypto (signature req)) pk
      end.

Definition checkSignData (req : CheckSignDataRequestDto)
    (getWalletPublicKey : string -> result (option Buffer)) : result bool :=
  try_catch (checkSignData_try req getWalletPublicKey) (fun _ => Return false).

End CheckSignData.

End SignData.

(** ** middleware/middleware.ts: the in-memory session registry *)

Module Sessions.
Import Js.

Record SessionData := {
  sessionId : string;
  userAddress : string;
  createdAt : Z;
  expiresAt : Z;
  signatureVerified : bool
}.

(** The two process-wide maps [activeSessions] (session id -> record) and
    [userSessions] (address -> session id). *)
Record Registry := {
  activeSessions : gmap string SessionData;
  userSessions : gmap string string
}.

Definition empty : Registry :=
  {| activeSessions := ∅; userSessions := ∅ |}.

Definition addSession (sid : string) (sessionData : SessionData) (r : Registry) : Registry :=
  {| activeSessions := <[sid := sessionData]> (activeSessions r);
     userSessions := <[userAddress sessionData := sid]> (userSessions r) |}.

Definition getSession (sid : string) (r : Registry) : option SessionData :=
  activeSessions r !! sid.

Definition getUserSession (addr : string) (r : Registry) : option string :=
  userSessions r !! addr.

(** [activeSessions.delete(sessionId); userSessions.delete(session.userAddress)] *)
Definition dropSession (sid : string) (session : SessionData) (r : Registry) : Registry :=
  {| activeSessions := delete sid (activeSessions r);
     userSessions := delete (userAddress session) (userSessions r) |}.

Definition removeSession (sid : string) (r : Registry) : Registry :=
  match activeSessions r !! sid with
  | Some session => dropSession sid session r
  | None => r
  end.

(** One iteration of the cleanup loop. *)
Definition cleanupStep (now : Z) (r : Registry) (entry : string * SessionData) : Registry :=
  if now >? expiresAt entry.2 then dropSession entry.1 entry.2 r else r.

(** The [setInterval] callback, run every 5 minutes: a loop over the entries
    of [activeSessions].  Deleting the entry being visited does not disturb
    the iteration of a JavaScript [Map], so the loop visits the entries
    present when it starts. *)
Definition sessionCleanup (now : Z) (r : Registry) : Registry :=
  fold_left (cleanupStep now) (map_to_list (activeSessions r)) r.

Definition cleanupIntervalMs : Z := 5 * 60 * 1000.

Inductive Checked :=
| Next (session : SessionData)
| Status401 (error : string).

(** [checkSession]: the middleware in front of the session routes. *)
Definition checkSession (authorization : option string) (now : Z) (r : Registry)
    : Registry * Checked :=
  match authorization with
  | None => (r, Status401 "Отсутствует токен сессии")
  | Some authHeader =>
      if negb (String.prefix "Bearer " authHeader)
      then (r, Status401 "Отсутствует токен сессии")
      else
        match split " "%char authHeader !! 1%nat with
        | None => (r, Status401 "Недействительная сессия")
        | Some sid =>
            match activeSessions r !! sid with
            | None => (r, Status401 "Недействительная сессия")
            | Some session =>
                if now >? expiresAt session
                then (dropSession sid session r, Status401 "Сессия истекла")
                else (r, Next session)
            end
        end
  end.

End Sessions.

(** ** database/database.ts: the relational tables *)

Module Store.
Import Js.

Inductive Severity := low | medium | high | critical.

(** session_listens, UNIQUE(user_address, nft_address) *)
Record SessionListenRow := {
  sl_user_address : string;
  sl_nft_address : string;
  sl_collection_address : string;
  sl_session_id : string;
  sl_count : Z;
  sl_first_recorded : Z;
  sl_last_recorded : Z
}.

(** listens, UNIQUE(nft_address) *)
Record ListenRow := {
  l_nft_address : string;
  l_collection_address : string;
  l_count : Z;
  l_last_updated : Z;
  l_created_at : Z
}.

(** nfts, PRIMARY KEY(address) *)
Record NftRow := {
  n_address : string;
  n_collection_address : string;
  n_first_listen : Z;
  n_updated_at : Z
}.

(** user_blocks; [ub_blocked_until = None] is SQL NULL *)
Record UserBlockRow := {
  ub_user_address : string;
  ub_reason : string;
  ub_blocked_until : option Z;
  ub_is_active : bool
}.

(** suspicious_activities *)
Record SuspiciousActivityRow := {
  sa_user_address : string;
  sa_activity_type : string;
  sa_description : string;
  sa_severity : Severity;
  sa_metadata : list (string * string);
  sa_detected_at : Z
}.

(** api_keys, PRIMARY KEY(key) *)
Record ApiKeyRow := {
  ak_key : string;
  ak_address : string;
  ak_created_at : Z;
  ak_expires_at : Z
}.

(** listening_sessions, PRIMARY KEY(session_id); [signature_data], which no
    statement reads, is left out *)
Record ListeningSessionRow := {
  ls_session_id : string;
  ls_user_address : string;
  ls_created_at : Z;
  ls_expires_at : Z;
  ls_last_activity : Z;
  ls_is_active : bool
}.

Record Database := {
  session_listens : list SessionListenRow;
  listens : list ListenRow;
  nfts : list NftRow;
  user_blocks : list UserBlockRow;
  suspicious_activities : list SuspiciousActivityRow;
  api_keys : list ApiKeyRow;
  listening_sessions : list ListeningSessionRow
}.

Definition emptyDb : Database :=
  {| session_listens := []; listens := []; nfts := []; user_blocks := [];
     suspicious_activities := []; api_keys := []; listening_sessions := [] |}.

Definition set_suspicious_activities (v : list SuspiciousActivityRow) (db : Database) : Database :=
  {| session_listens := session_listens db; listens := listens db; nfts := nfts db;
     user_blocks := user_blocks db; suspicious_activities := v;
     api_keys := api_keys db; listening_sessions := listening_sessions db |}.

Definition set_user_blocks (v : list UserBlockRow) (db : Database) : Database :=
  {| session_listens := session_listens db; listens := listens db; nfts := nfts db;
     user_blocks := v; suspicious_activities := suspicious_activities db;
     api_keys := api_keys db; listening_sessions := listening_sessions db |}.

Definition set_api_keys (v : list ApiKeyRow) (db : Database) : Database :=
  {| session_listens := session_listens db; listens := listens db; nfts := nfts db;
     user_blocks := user_blocks db; suspicious_activities := suspicious_activities db;
     api_keys := v; listening_sessions := listening_sessions db |}.

Definition set_listening_sessions (v : list ListeningSessionRow) (db : Database) : Database :=
  {| session_listens := session_listens db; listens := listens db; nfts := nfts db;
     user_blocks := user_blocks db; suspicious_activities := suspicious_activities db;
     api_keys := api_keys db; listening_sessions := v |}.

(** The three tables written by the listen transaction. *)
Definition set_ledger (sl : list SessionListenRow) (n : list NftRow) (l : list ListenRow)
    (db : Database) : Database :=
  {| session_listens := sl; listens := l; nfts := n;
     user_blocks := user_blocks db; suspicious_activities := suspicious_activities db;
     api_keys := api_keys db; listening_sessions := listening_sessions db |}.

(** Every statement the code sends to the store.  A statement can fail for
    reasons outside the modelled tables (lost connection, a foreign key into
    the collections table, which is not modelled, a timeout);
    [faulty q = true] says that [q] raises. *)
Inductive Stmt :=
| SelectUserBlock | InsertSuspicious
| DetectConnect | SelectHourly | SelectDaily | SelectSameNft
| LedgerConnect | LedgerBegin | SelectLastListen | UpsertSessionListen
| UpsertNft | UpsertListens | LedgerCommit | LedgerRollback
| KeysConnect | KeysBegin | DeleteKeys | InsertKey | KeysCommit | KeysRollback
| SelectKey | DeleteKey
| InsertListeningSession.

Definition Faults := Stmt -> bool.

Definition noFaults : Faults := fun _ => false.

(** [await client.query(q)]: raises when [q] is faulty, else yields [rows]. *)
Definition query {A} (faulty : Faults) (q : Stmt) (rows : A) : result A :=
  if faulty q then Throw "query failed" else Return rows.

(** PostgreSQL INTEGER: an out-of-range result raises, it does not wrap. *)
Definition int4 (v : Z) : result Z :=
  if (-2147483648 <=? v) && (v <=? 2147483647) then Return v
  else Throw "integer out of range".

End Store.

(** ** middleware/middleware.ts: block check and suspicious-activity detector *)

Module Detector.
Import Js Store.

Record BlockCheck := { isBlocked : bool; blockReason : option string }.

Record Verdict := { isSuspicious : bool; reason : option string }.

(** [WHERE user_address = $1 AND is_active = TRUE
     AND (blocked_until IS NULL OR blocked_until > NOW())] *)
Definition blockApplies (now : Z) (user : string) (b : UserBlockRow) : bool :=
  String.eqb (ub_user_address b) user && ub_is_active b &&
  match ub_blocked_until b with
  | None => true
  | Some t => t >? now
  end.

Definition checkUserBlock (faulty : Faults) (now : Z) (db : Database) (user : string)
    : result BlockCheck :=
  try_catch
    (rows <- query faulty SelectUserBlock (List.filter (blockApplies now user) (user_blocks db)) ;;
     match rows with
     | row :: _ => Return {| isBlocked := true; blockReason := Some (ub_reason row) |}
     | [] => Return {| isBlocked := false; blockReason := None |}
     end)
    (fun _ => Return {| isBlocked := false; blockReason := None |}).

(** [logSuspiciousActivity]: the insert is wrapped in its own try/catch. *)
Definition logSuspiciousActivity (faulty : Faults) (now : Z) (db : Database)
    (user activityType description : string) (severity : Severity)
    (metadata : list (string * string)) : Database :=
  match query faulty InsertSuspicious tt with
  | Return _ =>
      set_suspicious_activities
        (suspicious_activities db ++
         [{| sa_user_address := user; sa_activity_type := activityType;
             sa_description := description; sa_severity := severity;
             sa_metadata := metadata; sa_detected_at := now |}]) db
  | Throw _ => db
  end.

(** [SELECT COUNT( * ) FROM session_listens
     WHERE user_address = $1 AND last_recorded > to_timestamp($2 / 1000.0)] *)
Definition countUserSince (db : Database) (user : string) (since : Z) : Z :=
  Z.of_nat (length (List.filter
    (fun r => String.eqb (sl_user_address r) user && (sl_last_recorded r >? since))
    (session_listens db))).

(** [... AND nft_address = $2 AND last_recorded > to_timestamp($3 / 1000.0)] *)
Definition countSameNftSince (db : Database) (user nft : string) (since : Z) : Z :=
  Z.of_nat (length (List.filter
    (fun r => String.eqb (sl_user_address r) user && String.eqb (sl_nft_address r) nft
              && (sl_last_recorded r >? since))
    (session_listens db))).

(** The body of the outer [try] of [detectSuspiciousActivity]; the third
    argument of the source, [timestamp], is not read by it. *)
Definition detect_try (faulty : Faults) (now : Z) (db : Database)
    (user nft : string) (timestamp : Z) : result (Database * Verdict) :=
  blockCheck <- checkUserBlock faulty now db user ;;
  if isBlocked blockCheck then
    Return (db, {| isSuspicious := true;
                   reason := Some ("Пользователь заблокирован: " +:+
                                   default "undefined" (blockReason blockCheck)) |})
  else
    _ <- query faulty DetectConnect tt ;;
    let oneHourAgo := now - 60 * 60 * 1000 in
    let oneDayAgo := now - 24 * 60 * 60 * 1000 in
    hourlyListens <- query faulty SelectHourly (countUserSince db user oneHourAgo) ;;
    if hourlyListens >? 50 then
      Return (logSuspiciousActivity faulty now db user "excessive_hourly_listens"
                (pretty hourlyListens +:+ " прослушиваний за час") high
                [("hourlyListens", pretty hourlyListens); ("limit", "50")]%string,
              {| isSuspicious := true;
                 reason := Some "Превышено количество прослушиваний в час"%string |})
    else
      dailyListens <- query faulty SelectDaily (countUserSince db user oneDayAgo) ;;
      if dailyListens >? 500 then
        Return (logSuspiciousActivity faulty now db user "excessive_daily_listens"
                  (pretty dailyListens +:+ " прослушиваний за день") critical
                  [("dailyListens", pretty dailyListens); ("limit", "500")]%string,
                {| isSuspicious := true;
                   reason := Some "Превышено количество прослушиваний в день"%string |})
      else
        recentSameNftListens <-
          query faulty SelectSameNft (countSameNftSince db user nft oneHourAgo) ;;
        if recentSameNftListens >? 10 then
          Return (logSuspiciousActivity faulty now db user "excessive_same_nft_listens"
                    (pretty recentSameNftListens +:+ " прослушиваний одного NFT за час")
                    medium
                    [("nftAddress", nft); ("recentListens", pretty recentSameNftListens);
                     ("limit", "10")]%string,
                  {| isSuspicious := true;
                     reason := Some "Слишком много прослушиваний одного NFT"%string |})
        else Return (db, {| isSuspicious := false; reason := None |}).

Definition detectSuspiciousActivity (faulty : Faults) (now : Z) (db : Database)
    (user nft : string) (timestamp : Z) : Database * Verdict :=
  match detect_try faulty now db user nft timestamp with
  | Return out => out
  | Throw _ => (db, {| isSuspicious := false; reason := None |})
  end.

End Detector.

(** ** routes/sessionRoutes.ts: the listen transaction of /api/session-listens *)

Module Ledger.
Import Js Store.

Definition sameListen (user nft : string) (r : SessionListenRow) : bool :=
  String.eqb (sl_user_address r) user && String.eqb (sl_nft_address r) nft.

(** [SELECT last_recorded, count FROM session_listens
     WHERE user_address = $1 AND nft_address = $2
     ORDER BY last_recorded DESC LIMIT 1] *)
Definition laterOf (best : option SessionListenRow) (r : SessionListenRow)
    : option SessionListenRow :=
  match best with
  | None => Some r
  | Some b => if sl_last_recorded b <? sl_last_recorded r then Some r else Some b
  end.

Definition lastListenOf (rows : list SessionListenRow) (user nft : string)
    : option SessionListenRow :=
  fold_left laterOf (List.filter (sameListen user nft) rows) None.

(** The row of a (user, nft) pair, its count (0 when there is none) and its
    last-recorded time. *)
Definition listenRow (db : Database) (user nft : string) : option SessionListenRow :=
  find (sameListen user nft) (session_listens db).

Definition userCount (db : Database) (user nft : string) : Z :=
  from_option sl_count 0 (listenRow db user nft).

Definition lastRecorded (db : Database) (user nft : string) : option Z :=
  sl_last_recorded <$> listenRow db user nft.

Definition sameNft (nft : string) (r : ListenRow) : bool :=
  String.eqb (l_nft_address r) nft.

(** The aggregate count of an NFT (0 when it has no row). *)
Definition aggregateCount (db : Database) (nft : string) : Z :=
  from_option l_count 0 (find (sameNft nft) (listens db)).

Definition bumpListen (sid : string) (c ts : Z) (r : SessionListenRow) : SessionListenRow :=
  {| sl_user_address := sl_user_address r; sl_nft_address := sl_nft_address r;
     sl_collection_address := sl_collection_address r; sl_session_id := sid;
     sl_count := c; sl_first_recorded := sl_first_recorded r; sl_last_recorded := ts |}.

(** The [DO UPDATE] applied to the rows of the pair. *)
Definition bumpMatching (user nft sid : string) (c ts : Z) (r : SessionListenRow)
    : SessionListenRow :=
  if sameListen user nft r then bumpListen sid c ts r else r.

(** [INSERT INTO session_listens (...) VALUES ($1, $2, $3, $4, 1, to_timestamp($5 / 1000.0))
     ON CONFLICT (user_address, nft_address) DO UPDATE SET
       count = session_listens.count + 1, last_recorded = to_timestamp($5 / 1000.0),
       session_id = $4
     RETURNING count] *)
Definition upsertSessionListen (now : Z) (rows : list SessionListenRow)
    (user nft collection sid : string) (ts : Z) : result (list SessionListenRow * Z) :=
  match find (sameListen user nft) rows with
  | Some old =>
      c <- int4 (sl_count old + 1) ;;
      Return (map (bumpMatching user nft sid c ts) rows, c)
  | None =>
      Return (rows ++ [{| sl_user_address := user; sl_nft_address := nft;
                          sl_collection_address := collection; sl_session_id := sid;
                          sl_count := 1; sl_first_recorded := now;
                          sl_last_recorded := ts |}], 1)
  end.

(** [INSERT INTO nfts (...) VALUES ($1, $2, '{}', NOW(), NOW())
     ON CONFLICT (address) DO UPDATE SET collection_address = $2, updated_at = NOW()] *)
Definition upsertNft (now : Z) (rows : list NftRow) (nft collection : string) : list NftRow :=
  if existsb (fun r => String.eqb (n_address r) nft) rows then
    map (fun r => if String.eqb (n_address r) nft
                  then {| n_address := n_address r; n_collection_address := collection;
                          n_first_listen := n_first_listen r; n_updated_at := now |}
                  else r) rows
  else rows ++ [{| n_address := nft; n_collection_address := collection;
                   n_first_listen := now; n_updated_at := now |}].

(** [INSERT INTO listens (nft_address, collection_address, count, last_updated)
     VALUES ($1, $2, 1, NOW())
     ON CONFLICT (nft_address) DO UPDATE SET count = listens.count + 1, last_updated = NOW()] *)
Definition upsertListens (now : Z) (rows : list ListenRow) (nft collection : string)
    : result (list ListenRow) :=
  match find (sameNft nft) rows with
  | Some old =>
      c <- int4 (l_count old + 1) ;;
      Return (map (fun r => if sameNft nft r
                            then {| l_nft_address := l_nft_address r;
                                    l_collection_address := l_collection_address r;
                                    l_count := c; l_last_updated := now;
                                    l_created_at := l_created_at r |}
                            else r) rows)
  | None =>
      Return (rows ++ [{| l_nft_address := nft; l_collection_address := collection;
                          l_count := 1; l_last_updated := now; l_created_at := now |}])
  end.

(** [trigger_update_session_activity], AFTER INSERT ON session_listens FOR
    EACH ROW: [UPDATE listening_sessions SET last_activity = NOW()
    WHERE session_id = NEW.session_id]. *)
Definition update_session_activity (now : Z) (sid : string)
    (rows : list ListeningSessionRow) : list ListeningSessionRow :=
  map (fun r => if String.eqb (ls_session_id r) sid
                then {| ls_session_id := ls_session_id r;
                        ls_user_address := ls_user_address r;
                        ls_created_at := ls_created_at r;
                        ls_expires_at := ls_expires_at r;
                        ls_last_activity := now;
                        ls_is_active := ls_is_active r |}
                else r) rows.

(** [session_id VARCHAR(500) NOT NULL REFERENCES listening_sessions(session_id)] *)
Definition referencesSession (rows : list ListeningSessionRow) (sid : string) : bool :=
  existsb (fun r => String.eqb (ls_session_id r) sid) rows.

(** What the upsert of session_listens does to and asks of
    listening_sessions.  A row that is inserted must reference a session and
    fires the trigger; a row that is updated must reference a session when
    its session_id changes, and fires no AFTER INSERT trigger. *)
Definition sessionsAfterUpsert (now : Z) (db : Database) (user nft sid : string)
    : result (list ListeningSessionRow) :=
  match find (sameListen user nft) (session_listens db) with
  | Some old =>
      if String.eqb (sl_session_id old) sid || referencesSession (listening_sessions db) sid
      then Return (listening_sessions db)
      else Throw "violates foreign key constraint"
  | None =>
      if referencesSession (listening_sessions db) sid
      then Return (update_session_activity now sid (listening_sessions db))
      else Throw "violates foreign key constraint"
  end.

Inductive TxOutcome :=
| Recorded (userListenCount : Z)
| TooFrequent.

Definition floodFloorMs : Z := 30000.

(** From [BEGIN] to [COMMIT].  Writes are made on the transaction's copy of
    the tables and reach the database only when [COMMIT] succeeds. *)
Definition listenTransaction (faulty : Faults) (now : Z) (db : Database)
    (user sid nft collection : string) (timestamp : Z) : result (Database * TxOutcome) :=
  _ <- query faulty LedgerBegin tt ;;
  lastListen <- query faulty SelectLastListen (lastListenOf (session_listens db) user nft) ;;
  if match lastListen with
     | Some row => timestamp - sl_last_recorded row <? floodFloorMs
     | None => false
     end
  then
    _ <- query faulty LedgerRollback tt ;;
    Return (db, TooFrequent)
  else
    _ <- query faulty UpsertSessionListen tt ;;
    sl <- upsertSessionListen now (session_listens db) user nft collection sid timestamp ;;
    sessions <- sessionsAfterUpsert now db user nft sid ;;
    n <- query faulty UpsertNft (upsertNft now (nfts db) nft collection) ;;
    _ <- query faulty UpsertListens tt ;;
    l <- upsertListens now (listens db) nft collection ;;
    _ <- query faulty LedgerCommit tt ;;
    Return (set_listening_sessions sessions (set_ledger sl.1 n l db),
            Recorded (if sl.2 =? 0 then 1 else sl.2)).

(** [recordSessionListen]: connect, run the transaction; on any error
    [ROLLBACK] and rethrow.  The database is left as it was unless the
    transaction committed. *)
Definition recordSessionListen (faulty : Faults) (now : Z) (db : Database)
    (user sid nft collection : string) (timestamp : Z) : Database * result TxOutcome :=
  match query faulty LedgerConnect tt with
  | Throw e => (db, Throw e)
  | Return _ =>
      match listenTransaction faulty now db user sid nft collection timestamp with
      | Return (db', outcome) => (db', Return outcome)
      | Throw e => (db, _ <- query faulty LedgerRollback tt ;; Throw e)
      end
  end.

(** A listen request as the ledger sees it. *)
Record ListenCall := {
  c_faults : Faults;
  c_now : Z;
  c_user : string;
  c_session : string;
  c_nft : string;
  c_collection : string;
  c_timestamp : Z
}.

Definition runCall (db : Database) (c : ListenCall) : Database * result TxOutcome :=
  recordSessionListen (c_faults c) (c_now c) db (c_user c) (c_session c) (c_nft c)
    (c_collection c) (c_timestamp c).

(** A sequence of calls all of which record: [None] as soon as one does not. *)
Fixpoint recordAll (db : Database) (calls : list ListenCall) : option Database :=
  match calls with
  | [] => Some db
  | c :: rest =>
      match runCall db c with
      | (db', Return (Recorded _)) => recordAll db' rest
      | _ => None
      end
  end.

(** How many calls of a sequence are for the pair (user, nft), and for nft. *)
Definition touches (c : ListenCall) (user nft : string) : bool :=
  String.eqb (c_user c) user && String.eqb (c_nft c) nft.

Definition callsFor (user nft : string) (calls : list ListenCall) : Z :=
  Z.of_nat (length (List.filter (fun c => touches c user nft) calls)).


(** UNIQUE(user_address, nft_address) on session_listens. *)
Definition uniqueListens (db : Database) : Prop :=
  NoDup (map (fun r => (sl_user_address r, sl_nft_address r)) (session_listens db)).

End Ledger.

(** ** services/apiKeyService.ts and /dapp/generateMusicApiKey *)

Module ApiKeys.
Import Js Store.

Section ApiKeyService.
(** [Address.parse(address).toString()] *)
Variable Address_normalize : string -> result string.

(** Rows that survive
    [DELETE FROM api_keys WHERE address = $1 OR expires_at < NOW()]. *)
Definition keyStays (now : Z) (normalizedAddress : string) (r : ApiKeyRow) : bool :=
  negb (String.eqb (ak_address r) normalizedAddress || (ak_expires_at r <? now)).

(** From [BEGIN] to [COMMIT]; the insert raises on a duplicate primary key. *)
Definition saveTransaction (faulty : Faults) (now : Z) (db : Database)
    (apiKey normalizedAddress : string) (created expires : Z) : result Database :=
  _ <- query faulty KeysBegin tt ;;
  kept <- query faulty DeleteKeys (List.filter (keyStays now normalizedAddress) (api_keys db)) ;;
  _ <- query faulty InsertKey tt ;;
  if existsb (fun r => String.eqb (ak_key r) apiKey) kept
  then Throw "duplicate key value violates unique constraint"
  else
    _ <- query faulty KeysCommit tt ;;
    Return (set_api_keys
              (kept ++ [{| ak_key := apiKey; ak_address := normalizedAddress;
                           ak_created_at := created; ak_expires_at := expires |}]) db).

Definition saveApiKey (faulty : Faults) (now : Z) (db : Database)
    (apiKey address : string) (created expires : Z) : Database * result unit :=
  match query faulty KeysConnect tt with
  | Throw e => (db, Throw e)
  | Return _ =>
      match Address_normalize address with
      | Throw e => (db, Throw e)
      | Return normalizedAddress =>
          match saveTransaction faulty now db apiKey normalizedAddress created expires with
          | Return db' => (db', Return tt)
          | Throw e => (db, _ <- query faulty KeysRollback tt ;; Throw e)
          end
      end
  end.

Definition validateApiKey (faulty : Faults) (now : Z) (db : Database) (apiKey : string)
    : Database * result (option (string * Z)) :=
  match query faulty SelectKey (find (fun r => String.eqb (ak_key r) apiKey) (api_keys db)) with
  | Throw e => (db, Throw e)
  | Return None => (db, Return None)
  | Return (Some keyData) =>
      if now >? ak_expires_at keyData then
        match query faulty DeleteKey tt with
        | Throw e => (db, Throw e)
        | Return _ =>
            (set_api_keys
               (List.filter (fun r => negb (String.eqb (ak_key r) apiKey)) (api_keys db)) db,
             Return None)
        end
      else (db, Return (Some (ak_address keyData, ak_expires_at keyData)))
  end.

Inductive KeyResponse :=
| KeyJson (apiKey : string) (expiresAt : Z)
| KeyStatus (code : Z) (error : string).

Definition keyLifetimeMs : Z := 60 * 60 * 1000.

(** The handler of /dapp/generateMusicApiKey; [randomHex] is
    [crypto.randomBytes(32).toString('hex')]. *)
Definition generateMusicApiKey (faulty : Faults) (now : Z) (db : Database)
    (randomHex userAddress : string) : Database * KeyResponse :=
  let apiKey := randomHex in
  let expiresAt := now + keyLifetimeMs in
  match saveApiKey faulty now db apiKey userAddress now expiresAt with
  | (db', Return _) => (db', KeyJson apiKey expiresAt)
  | (db', Throw _) => (db', KeyStatus 500 "Ошибка генерации API ключа")
  end.

End ApiKeyService.

(** The keys stored for an address. *)
Definition keysOf (db : Database) (addr : string) : list ApiKeyRow :=
  List.filter (fun r => String.eqb (ak_address r) addr) (api_keys db).

End ApiKeys.

(** ** routes/sessionRoutes.ts: the route handlers *)

Module SessionRoutes.
Import Js Store.

Record SignDataRequest := {
  signature : string;
  address : string;
  timestamp : Z;
  domain : string;
  payload : option SignData.SignDataPayload;
  public_key : string;
  walletStateInit : string
}.

Inductive Response :=
| SessionJson (sessionId : string) (expiresAt : Z)
| ListenJson (userListenCount : Z)
| Status (code : Z) (error : string).

Definition expectedText : string :=
  "Подтвердите начало сессии прослушивания. Подписывая это сообщение, вы соглашаетесь с условиями честного использования NFT-аудио в рамках децентрализованной платформы. 
Ваша подпись верифицируется в блокчейне и подтверждает легальное прослушивание токенизированного контента. 
Сессия длится 1 час.

PatternsNft".

Definition sessionLifetimeMs : Z := 60 * 60 * 1000.

(** The unexpired session the registry holds for an address, as the handler
    looks it up: [getUserSession], then [getSession], then the expiry test. *)
Definition liveSessionOf (now : Z) (reg : Sessions.Registry) (addr : string)
    : option (string * Sessions.SessionData) :=
  match Sessions.getUserSession addr reg with
  | Some existingSessionId =>
      if String.eqb existingSessionId "" then None
      else
        match Sessions.getSession existingSessionId reg with
        | Some existingSession =>
            if now <? Sessions.expiresAt existingSession
            then Some (existingSessionId, existingSession)
            else None
        | None => None
        end
  | None => None
  end.

(** The checks of the /api/session/create handler that precede the lookup of
    an existing session: all fields present, a text payload carrying the
    expected message, a timestamp at most five minutes old. *)
Definition passesChecks (now : Z) (r : SignDataRequest) : Prop :=
  signature r <> ""%string /\ address r <> ""%string /\ timestamp r <> 0 /\
  domain r <> ""%string /\
  payload r = Some (SignData.PayloadText expectedText) /\
  now / 1000 - timestamp r <= 5 * 60.

(** The same request carrying another signature. *)
Definition withSignature (sig : string) (r : SignDataRequest) : SignDataRequest :=
  {| signature := sig; address := address r; timestamp := timestamp r;
     domain := domain r; payload := payload r; public_key := public_key r;
     walletStateInit := walletStateInit r |}.

Section Handlers.
Variable Address_parse : string -> result SignData.Address.
Variable Address_toString : SignData.Address -> string.
Variable crypto : SignData.Crypto.
(** [getWalletPublicKey]: the get_public_key call to the TON API. *)
Variable getWalletPublicKey : string -> result (option SignData.Buffer).
(** [jwt.sign({address, domain, timestamp, type}, backendSecret)] with its
    issued-at claim. *)
Variable jwt_sign : string -> string -> Z -> Z -> result string.
(** [tonapi.nft.getNftItemByAddress(..).collection?.address] *)
Variable getNftCollection : string -> result (option string).
Variable whitelist : list string.

Definition Address_normalize (s : string) : result string :=
  a <- Address_parse s ;; Return (Address_toString a).

(** The part of the /api/session/create handler that follows the lookup of
    an existing session: verify the signature, create and store the session. *)
Definition createNewSession (faulty : Faults) (now : Z)
    (reg : Sessions.Registry) (db : Database) (signData : SignDataRequest)
    (text normalizedAddress : string)
    : result (Sessions.Registry * Database * Response) :=
  isValidSignature <-
    SignData.checkSignData now Address_parse crypto
      {| SignData.signature := signature signData;
         SignData.address := normalizedAddress;
         SignData.timestamp := timestamp signData;
         SignData.domain := domain signData;
         SignData.payload := SignData.PayloadText text;
         SignData.public_key := public_key signData;
         SignData.walletStateInit := walletStateInit signData |}
      getWalletPublicKey ;;
  if negb isValidSignature then
    Return (reg, db, Status 400 "Неверная подпись сообщения")
  else
    sessionId <- jwt_sign normalizedAddress (domain signData) (timestamp signData) (now / 1000) ;;
    let currentTime := now in
    let expiresAt := currentTime + sessionLifetimeMs in
    let sessionData :=
      {| Sessions.sessionId := sessionId; Sessions.userAddress := normalizedAddress;
         Sessions.createdAt := currentTime; Sessions.expiresAt := expiresAt;
         Sessions.signatureVerified := true |} in
    let reg' := Sessions.addSession sessionId sessionData reg in
    let db' :=
      match (_ <- query faulty InsertListeningSession tt ;;
             if existsb (fun r => String.eqb (ls_session_id r) sessionId) (listening_sessions db)
             then Throw "duplicate key value violates unique constraint"
             else Return (listening_sessions db ++
                          [{| ls_session_id := sessionId; ls_user_address := normalizedAddress;
                              ls_created_at := currentTime; ls_expires_at := expiresAt;
                              ls_last_activity := now; ls_is_active := true |}]))
      with
      | Return rows => set_listening_sessions rows db
      | Throw _ => db
      end in
    Return (reg', db', SessionJson sessionId expiresAt).

(** The body of the [try] block of the /api/session/create handler. *)
Definition createSession_try (faulty : Faults) (now : Z)
    (reg : Sessions.Registry) (db : Database) (signData : SignDataRequest)
    : result (Sessions.Registry * Database * Response) :=
  if String.eqb (signature signData) "" || String.eqb (address signData) "" ||
     (timestamp signData =? 0) || String.eqb (domain signData) "" ||
     negb (bool_decide (is_Some (payload signData)))
  then Return (reg, db, Status 400 "Неполные данные подписи")
  else
    match payload signData with
    | Some (SignData.PayloadText text) =>
        if String.eqb text "" then Return (reg, db, Status 400 "Неверный тип данных подписи")
        else
          let nowTimestamp := now / 1000 in
          if nowTimestamp - timestamp signData >? 5 * 60
          then Return (reg, db, Status 400 "Подпись устарела")
          else if negb (String.eqb text expectedText)
          then Return (reg, db, Status 400 "Неверное содержимое сообщения")
          else
            match Address_normalize (address signData) with
            | Throw _ => Return (reg, db, Status 400 "Неверный формат адреса")
            | Return normalizedAddress =>
                match liveSessionOf now reg normalizedAddress with
                | Some (existingSessionId, existingSession) =>
                    Return (reg, db,
                            SessionJson existingSessionId (Sessions.expiresAt existingSession))
                | None => createNewSession faulty now reg db signData text normalizedAddress
                end
            end
    | _ => Return (reg, db, Status 400 "Неверный тип данных подписи")
    end.

Definition createSession (faulty : Faults) (now : Z)
    (reg : Sessions.Registry) (db : Database) (signData : SignDataRequest)
    : Sessions.Registry * Database * Response :=
  match createSession_try faulty now reg db signData with
  | Return out => out
  | Throw _ => (reg, db, Status 500 "Ошибка сервера при создании сессии")
  end.

(** The /api/session-listens handler, entered with the session that
    [checkSession] attached to the request. *)
Definition sessionListens (faulty : Faults) (now : Z) (db : Database)
    (session : Sessions.SessionData) (nftAddress : string) (timestamp : Z)
    : Database * Response :=
  if String.eqb nftAddress "" || (timestamp =? 0)
  then (db, Status 400 "Необходимы nftAddress и timestamp")
  else if Z.abs (now - timestamp) >? 10 * 60 * 1000
  then (db, Status 400 "Неверная временная метка")
  else
    match Address_normalize nftAddress with
    | Throw _ => (db, Status 400 "Неверный формат адреса NFT")
    | Return normalizedNftAddress =>
        match
          (collection <- getNftCollection normalizedNftAddress ;;
           match collection with
           | None => Return (inl (Status 400 "NFT не принадлежит к коллекции"))
           | Some c =>
               collectionAddress <- Address_normalize c ;;
               if negb (SignData.includes whitelist collectionAddress)
               then Return (inl (Status 403 "Коллекция не разрешена для прослушивания"))
               else Return (inr collectionAddress)
           end)
        with
        | Throw _ => (db, Status 400 "Не удалось получить информацию о NFT")
        | Return (inl response) => (db, response)
        | Return (inr collectionAddress) =>
            let '(db1, suspiciousActivity) :=
              Detector.detectSuspiciousActivity faulty now db
                (Sessions.userAddress session) normalizedNftAddress timestamp in
            if Detector.isSuspicious suspiciousActivity
            then (db1, Status 429 "Обнаружена подозрительная активность")
            else
              match Ledger.recordSessionListen faulty now db1
                      (Sessions.userAddress session) (Sessions.sessionId session)
                      normalizedNftAddress collectionAddress timestamp with
              | (db2, Return (Ledger.Recorded userListenCount)) =>
                  (db2, ListenJson userListenCount)
              | (db2, Return Ledger.TooFrequent) =>
                  (db2, Status 429 "Слишком частые запросы прослушивания")
              | (db2, Throw _) =>
                  (db2, Status 500 "Ошибка сервера при записи прослушивания")
              end
        end
    end.

End Handlers.

End SessionRoutes.

(** ** routes/sessionRoutes.ts: the routes behind [checkSession] *)

Module SessionApi.
Import Js Store.

Inductive ValidateResponse :=
| ValidJson (address : string) (expiresAt : Z)
| Invalid401 (error : string).

(** POST /api/session/validate: [checkSession], then the session's owner and
    expiry. *)
Definition sessionValidate (authorization : option string) (now : Z)
    (reg : Sessions.Registry) : Sessions.Registry * ValidateResponse :=
  match Sessions.checkSession authorization now reg with
  | (reg', Sessions.Next session) =>
      (reg', ValidJson (Sessions.userAddress session) (Sessions.expiresAt session))
  | (reg', Sessions.Status401 e) => (reg', Invalid401 e)
  end.

(** POST /api/session-listens as mounted: [checkSession], then the handler
    with the session the middleware attached. *)
Definition sessionListensRoute
    (Address_parse : string -> result SignData.Address)
    (Address_toString : SignData.Address -> string)
    (getNftCollection : string -> result (option string)) (whitelist : list string)
    (authorization : option string) (faulty : Faults) (now : Z)
    (reg : Sessions.Registry) (db : Database) (nftAddress : string) (timestamp : Z)
    : Sessions.Registry * Database * SessionRoutes.Response :=
  match Sessions.checkSession authorization now reg with
  | (reg', Sessions.Next session) =>
      let '(db', response) :=
        SessionRoutes.sessionListens Address_parse Address_toString getNftCollection
          whitelist faulty now db session nftAddress timestamp in
      (reg', db', response)
  | (reg', Sessions.Status401 e) => (reg', db, SessionRoutes.Status 401 e)
  end.

Record UserStats := {
  uniqueNftsListened : Z;
  uniqueCollections : Z;
  totalListens : Z;
  lastActivity : option Z
}.

(** [FROM session_listens WHERE user_address = $1] *)
Definition rowsOfUser (db : Database) (user : string) : list SessionListenRow :=
  List.filter (fun r => String.eqb (sl_user_address r) user) (session_listens db).

(** [MAX(last_recorded)]: NULL on no row. *)
Definition maxLastRecorded (rows : list SessionListenRow) : option Z :=
  fold_left (fun best r =>
               match best with
               | None => Some (sl_last_recorded r)
               | Some b => Some (Z.max b (sl_last_recorded r))
               end) rows None.

(** [SELECT COUNT(DISTINCT nft_address), COUNT(DISTINCT collection_address),
     SUM(count), MAX(last_recorded) FROM session_listens WHERE user_address = $1];
    [parseInt(..) || 0] turns the NULL sum of no row into 0. *)
Definition userStatsOf (db : Database) (user : string) : UserStats :=
  let rows := rowsOfUser db user in
  {| uniqueNftsListened := Z.of_nat (length (remove_dups (map sl_nft_address rows)));
     uniqueCollections := Z.of_nat (length (remove_dups (map sl_collection_address rows)));
     totalListens := foldr Z.add 0 (map sl_count rows);
     lastActivity := maxLastRecorded rows |}.

Inductive StatsResponse :=
| StatsJson (userAddress : string) (stats : UserStats) (sessionExpiresAt : Z)
| StatsStatus (code : Z) (error : string).

(** GET /api/session/user-stats as mounted; [queryFails] says that the
    statistics query raises. *)
Definition userStatsRoute (authorization : option string) (queryFails : bool) (now : Z)
    (reg : Sessions.Registry) (db : Database) : Sessions.Registry * StatsResponse :=
  match Sessions.checkSession authorization now reg with
  | (reg', Sessions.Next session) =>
      if queryFails then (reg', StatsStatus 500 "Ошибка сервера")
      else (reg', StatsJson (Sessions.userAddress session)
                    (userStatsOf db (Sessions.userAddress session))
                    (Sessions.expiresAt session))
  | (reg', Sessions.Status401 e) => (reg', StatsStatus 401 e)
  end.

End SessionApi.

(** ** routes/dappRoutes.ts: POST /api/validateMusicApiKey *)

Module KeyRoutes.
Import Js Store.

Inductive ValidateKeyResponse :=
| KeyValid (address : string) (expiresAt : Z)
| KeyInvalid (code : Z) (error : string).

Definition validateMusicApiKey (faulty : Faults) (now : Z) (db : Database)
    (apiKey : string) : Database * ValidateKeyResponse :=
  if String.eqb apiKey "" then (db, KeyInvalid 400 "API ключ не предоставлен")
  else
    match ApiKeys.validateApiKey faulty now db apiKey with
    | (db', Return None) => (db', KeyInvalid 401 "Недействительный или истекший API ключ")
    | (db', Return (Some keyData)) => (db', KeyValid keyData.1 keyData.2)
    | (db', Throw _) => (db', KeyInvalid 500 "Ошибка сервера при проверке API ключа")
    end.

End KeyRoutes.

(** ** routes/adminRoutes.ts and the cleanup function of database/database.ts *)

Module Admin.
Import Js Store.

(** The statements of POST /admin/block-user. *)
Inductive AdminStmt :=
| BlockConnect | BlockBegin | SelectActiveBlock | InsertBlock
| DeactivateSessions | BlockCommit | BlockRollback.

Definition adminQuery {A} (faulty : AdminStmt -> bool) (q : AdminStmt) (rows : A)
    : result A :=
  if faulty q then Throw "query failed" else Return rows.

Definition noAdminFaults : AdminStmt -> bool := fun _ => false.

Inductive BlockResponse :=
| BlockedJson (userAddress reason : string) (blockedUntil : option Z)
| BlockStatus (code : Z) (error : string).

(** [adminKey !== process.env.ADMIN_KEY]; [None] is [undefined]. *)
Definition wrongAdminKey (adminKey envKey : option string) : bool :=
  negb (bool_decide (adminKey = envKey)).

Section BlockUser.
Variable Address_normalize : string -> result string.
Variable envAdminKey : option string.

(** [UPDATE listening_sessions SET is_active = FALSE
     WHERE user_address = $1 AND is_active = TRUE] *)
Definition deactivateSessionsOf (normalizedAddress : string)
    (rows : list ListeningSessionRow) : list ListeningSessionRow :=
  map (fun r => if String.eqb (ls_user_address r) normalizedAddress && ls_is_active r
                then {| ls_session_id := ls_session_id r;
                        ls_user_address := ls_user_address r;
                        ls_created_at := ls_created_at r;
                        ls_expires_at := ls_expires_at r;
                        ls_last_activity := ls_last_activity r;
                        ls_is_active := false |}
                else r) rows.

(** From [BEGIN] to [COMMIT].  The test for an active row comes before the
    insert, so the unique index on active blocks is never violated.  The
    in-memory registry is not touched: the user's sessions stay registered
    there. *)
Definition blockTransaction (faulty : AdminStmt -> bool) (now : Z) (db : Database)
    (normalizedAddress reason : string) (durationHours : Z)
    : result (Database * BlockResponse) :=
  _ <- adminQuery faulty BlockBegin tt ;;
  existingBlock <-
    adminQuery faulty SelectActiveBlock
      (List.filter (fun b => String.eqb (ub_user_address b) normalizedAddress
                             && ub_is_active b) (user_blocks db)) ;;
  match existingBlock with
  | _ :: _ =>
      _ <- adminQuery faulty BlockRollback tt ;;
      Return (db, BlockStatus 400 "Пользователь уже заблокирован")
  | [] =>
      let blockedUntil :=
        if 0 <? durationHours then Some (now + durationHours * 60 * 60 * 1000) else None in
      _ <- adminQuery faulty InsertBlock tt ;;
      _ <- adminQuery faulty DeactivateSessions tt ;;
      _ <- adminQuery faulty BlockCommit tt ;;
      Return (set_listening_sessions
                (deactivateSessionsOf normalizedAddress (listening_sessions db))
                (set_user_blocks
                   (user_blocks db ++
                    [{| ub_user_address := normalizedAddress; ub_reason := reason;
                        ub_blocked_until := blockedUntil; ub_is_active := true |}]) db),
              BlockedJson normalizedAddress reason blockedUntil)
  end.

(** The handler of POST /admin/block-user. *)
Definition blockUser (faulty : AdminStmt -> bool) (now : Z) (db : Database)
    (adminKey : option string) (userAddress reason : string) (durationHours : Z)
    : Database * BlockResponse :=
  if wrongAdminKey adminKey envAdminKey then (db, BlockStatus 403 "Неверный админ ключ")
  else if String.eqb userAddress "" || String.eqb reason ""
  then (db, BlockStatus 400 "Необходимы userAddress и reason")
  else
    match Address_normalize userAddress with
    | Throw _ => (db, BlockStatus 400 "Неверный формат адреса")
    | Return normalizedAddress =>
        match adminQuery faulty BlockConnect tt with
        | Throw _ => (db, BlockStatus 500 "Ошибка сервера")
        | Return _ =>
            match blockTransaction faulty now db normalizedAddress reason durationHours with
            | Return out => out
            | Throw _ => (db, BlockStatus 500 "Ошибка сервера")
            end
        end
    end.

End BlockUser.

(** The last statement of [cleanup_expired_sessions()]:
    [UPDATE user_blocks SET is_active = FALSE
     WHERE blocked_until < NOW() AND is_active = TRUE]. *)
Definition deactivateExpiredBlocks (now : Z) (db : Database) : Database :=
  set_user_blocks
    (map (fun b =>
            if match ub_blocked_until b with
               | Some t => (t <? now) && ub_is_active b
               | None => false
               end
            then {| ub_user_address := ub_user_address b; ub_reason := ub_reason b;
                    ub_blocked_until := ub_blocked_until b; ub_is_active := false |}
            else b) (user_blocks db)) db.

(** The columns of user_blocks as [createMonitoringTables] creates it. *)
Definition userBlocksColumns : list string :=
  ["id"; "user_address"; "reason"; "blocked_until"; "created_at"; "created_by";
   "is_active"]%string.

Inductive UnblockResponse :=
| UnblockedJson (userAddress : string)
| UnblockStatus (code : Z) (error : string).

(** [UPDATE user_blocks SET is_active = FALSE, resolved_at = NOW()
     WHERE user_address = $1 AND is_active = TRUE RETURNING id]
    on a table with the given columns: the statement raises when a column it
    assigns is not a column of the table; otherwise it yields the table and
    the number of rows it returned. *)
Definition unblockUpdate (columns : list string) (queryFails : bool) (db : Database)
    (normalizedAddress : string) : result (Database * nat) :=
  if queryFails then Throw "query failed"
  else if negb (forallb (SignData.includes columns) ["is_active"; "resolved_at"]%string)
  then Throw "column does not exist"
  else
    Return (set_user_blocks
              (map (fun b =>
                      if String.eqb (ub_user_address b) normalizedAddress && ub_is_active b
                      then {| ub_user_address := ub_user_address b;
                              ub_reason := ub_reason b;
                              ub_blocked_until := ub_blocked_until b;
                              ub_is_active := false |}
                      else b) (user_blocks db)) db,
            length (List.filter
                      (fun b => String.eqb (ub_user_address b) normalizedAddress
                                && ub_is_active b) (user_blocks db))).

(** The handler of POST /admin/unblock-user. *)
Definition unblockUser (Address_normalize : string -> result string)
    (envAdminKey : option string) (columns : list string) (queryFails : bool)
    (db : Database) (adminKey : option string) (userAddress : string)
    : Database * UnblockResponse :=
  if wrongAdminKey adminKey envAdminKey then (db, UnblockStatus 403 "Неверный админ ключ")
  else if String.eqb userAddress "" then (db, UnblockStatus 400 "Необходим userAddress")
  else
    match Address_normalize userAddress with
    | Throw _ => (db, UnblockStatus 400 "Неверный формат адреса")
    | Return normalizedAddress =>
        match unblockUpdate columns queryFails db normalizedAddress with
        | Throw _ => (db, UnblockStatus 500 "Ошибка сервера")
        | Return (db', rows) =>
            if Nat.eqb rows 0
            then (db', UnblockStatus 404 "Активная блокировка не найдена")
            else (db', UnblockedJson normalizedAddress)
        end
    end.

End Admin.

(** ** routes/publicApiRoutes.ts: POST /api/listens, the legacy endpoint *)

Module Legacy.
Import Js Store.

Inductive LegacyStmt :=
| LegacyConnect | LegacyBegin | SelectNft | InsertNft | UpdateNft
| LegacyUpsertListens | LegacyCommit | LegacyRollback.

Definition legacyQuery {A} (faulty : LegacyStmt -> bool) (q : LegacyStmt) (rows : A)
    : result A :=
  if faulty q then Throw "query failed" else Return rows.

Definition noLegacyFaults : LegacyStmt -> bool := fun _ => false.

Inductive LegacyResponse :=
| LegacyJson (count : Z)
| LegacyStatus (code : Z) (error : string).

Section LegacyListens.
Variable Address_normalize : string -> result string.
Variable whitelist : list string.

(** From [BEGIN] to [COMMIT]: the nfts row is inserted or updated, the
    listens row is upserted and its count returned ([count || 1]).  The
    metadata fetched from the TON API is not part of the modelled row, and a
    failure of that call is caught. *)
Definition legacyTransaction (faulty : LegacyStmt -> bool) (now : Z) (db : Database)
    (normalizedNftAddress normalizedCollectionAddress : string)
    : result (Database * LegacyResponse) :=
  _ <- legacyQuery faulty LegacyBegin tt ;;
  existingNft <-
    legacyQuery faulty SelectNft
      (List.filter (fun r => String.eqb (n_address r) normalizedNftAddress) (nfts db)) ;;
  n <- match existingNft with
       | [] =>
           legacyQuery faulty InsertNft
             (nfts db ++ [{| n_address := normalizedNftAddress;
                             n_collection_address := normalizedCollectionAddress;
                             n_first_listen := now; n_updated_at := now |}])
       | _ :: _ =>
           legacyQuery faulty UpdateNft
             (map (fun r => if String.eqb (n_address r) normalizedNftAddress
                            then {| n_address := n_address r;
                                    n_collection_address := normalizedCollectionAddress;
                                    n_first_listen := n_first_listen r;
                                    n_updated_at := now |}
                            else r) (nfts db))
       end ;;
  _ <- legacyQuery faulty LegacyUpsertListens tt ;;
  l <- Ledger.upsertListens now (listens db) normalizedNftAddress
         normalizedCollectionAddress ;;
  let count := from_option l_count 0 (find (Ledger.sameNft normalizedNftAddress) l) in
  let newCount := if count =? 0 then 1 else count in
  _ <- legacyQuery faulty LegacyCommit tt ;;
  Return (set_ledger (session_listens db) n l db, LegacyJson newCount).

(** The handler of POST /api/listens. *)
Definition legacyListen (faulty : LegacyStmt -> bool) (now : Z) (db : Database)
    (nftAddress collectionAddress : string) : Database * LegacyResponse :=
  if String.eqb nftAddress "" || String.eqb collectionAddress ""
  then (db, LegacyStatus 400 "Необходимы nftAddress и collectionAddress")
  else
    match (normalizedNftAddress <- Address_normalize nftAddress ;;
           normalizedCollectionAddress <- Address_normalize collectionAddress ;;
           Return (normalizedNftAddress, normalizedCollectionAddress)) with
    | Throw _ => (db, LegacyStatus 400 "Некорректный формат адреса NFT или коллекции")
    | Return (normalizedNftAddress, normalizedCollectionAddress) =>
        if negb (SignData.includes whitelist normalizedCollectionAddress)
        then (db, LegacyStatus 404 "Коллекция не найдена в whitelist")
        else
          match legacyQuery faulty LegacyConnect tt with
          | Throw _ => (db, LegacyStatus 500 "Ошибка сервера при записи прослушивания")
          | Return _ =>
              match legacyTransaction faulty now db normalizedNftAddress
                      normalizedCollectionAddress with
              | Return out => out
              | Throw _ => (db, LegacyStatus 500 "Ошибка сервера при записи прослушивания")
              end
          end
    end.

End LegacyListens.

End Legacy.

(** ** routes/sessionRoutes.ts: the key bytes that [getWalletPublicKey]
    makes of the number returned by get_public_key *)

Module WalletKey.
Import Js.

Definition hexDigit (d : Z) : ascii :=
  nth (Z.to_nat d) (String.list_ascii_of_string "0123456789abcdef") "0"%char.

(** The digits of a non-negative value, most significant first, in front of
    [acc]; [fuel] bounds the number of digits. *)
Fixpoint toHex (fuel : nat) (v : Z) (acc : string) : string :=
  match fuel with
  | O => acc
  | S f =>
      let acc' := String (hexDigit (v mod 16)) acc in
      if v <? 16 then acc' else toHex f (v / 16) acc'
  end.

(** [BigInt.prototype.toString(16)] *)
Definition toString16 (v : Z) : string :=
  if v <? 0 then String "-" (toHex (S (Z.to_nat (Z.log2 (- v)))) (- v) "")
  else toHex (S (Z.to_nat (Z.log2 v))) v "".

(** [String.prototype.padStart(n, c)] *)
Definition padStart (n : nat) (c : ascii) (s : string) : string :=
  String.string_of_list_ascii (repeat c (n - String.length s)) +:+ s.

Definition hexValue (c : ascii) : option Z :=
  let n := Z.of_N (N_of_ascii c) in
  if (48 <=? n) && (n <=? 57) then Some (n - 48)
  else if (97 <=? n) && (n <=? 102) then Some (n - 87)
  else if (65 <=? n) && (n <=? 70) then Some (n - 55)
  else None.

(** [Buffer.from(s, 'hex')]: one byte per pair of hex digits, up to the
    first pair that is incomplete or not hexadecimal. *)
Fixpoint fromHex (s : string) : SignData.Buffer :=
  match s with
  | String a (String b rest) =>
      match hexValue a, hexValue b with
      | Some x, Some y => (16 * x + y) :: fromHex rest
      | _, _ => []
      end
  | _ => []
  end.

(** [Buffer.from(BigInt(num).toString(16).padStart(64, '0'), 'hex')] *)
Definition publicKeyOfNum (publicKeyBigInt : Z) : SignData.Buffer :=
  let publicKeyHex := padStart 64 "0" (toString16 publicKeyBigInt) in
  fromHex publicKeyHex.

End WalletKey.

(** ** The message of [createTextBinaryHash] before it is hashed *)

Module Layout.
Import Js SignData.


End Layout.

(** ** Constraints of the schema and of the registry, as predicates *)

Module Constraints.
Import Store.

(** listens: UNIQUE(nft_address); nfts: PRIMARY KEY(address);
    api_keys: PRIMARY KEY(key); user_blocks: the unique index on
    user_address over the rows with is_active = TRUE. *)
Definition uniqueAggregates (db : Database) : Prop :=
  NoDup (map l_nft_address (listens db)).

Definition uniqueNfts (db : Database) : Prop :=
  NoDup (map n_address (nfts db)).

Definition uniqueKeys (db : Database) : Prop :=
  NoDup (map ak_key (api_keys db)).

Definition oneActiveBlock (db : Database) : Prop :=
  NoDup (map ub_user_address (List.filter ub_is_active (user_blocks db))).

(** Every by-address entry of the registry points to a registered session
    of that address. *)
Definition indexed (r : Sessions.Registry) : Prop :=
  forall a sid, Sessions.userSessions r !! a = Some sid ->
    exists s, Sessions.activeSessions r !! sid = Some s /\ Sessions.userAddress s = a.

(** Whether a character occurs in a string. *)
Fixpoint contains (c : ascii) (s : string) : bool :=
  match s with
  | EmptyString => false
  | String c' rest => Ascii.eqb c' c || contains c rest
  end.

(** Whether every character of a string is ASCII. *)
Fixpoint isAscii (s : string) : bool :=
  match s with
  | EmptyString => true
  | String c rest => (Js.byte_of c <? 128) && isAscii rest
  end.

(** The value of a big-endian byte string, as [Buffer.readUIntBE] reads it. *)
Definition be_value (bytes : list Z) : Z :=
  fold_left (fun acc b => acc * 256 + b) bytes 0.

(** The [width] least significant hexadecimal digits of a value, most
    significant first. *)
Fixpoint hex_digits (width : nat) (v : Z) : list Z :=
  match width with
  | O => []
  | S w => hex_digits w (v / 16) ++ [v mod 16]
  end.

(** Digits joined two by two into bytes. *)
Fixpoint pairs (l : list Z) : list Z :=
  match l with
  | a :: b :: rest => (16 * a + b) :: pairs rest
  | _ => []
  end.

End Constraints.

(** ** Concrete inputs for the examples *)

Module Fixtures.
Import Js Store.

(** Stand-ins for the external packages.  [acceptAll] accepts every
    signature (the strongest adversary for a check that comes before the
    signature), [rejectAll] accepts none. *)
Definition acceptAll : SignData.Crypto :=
  {| SignData.sha256 := fun m => m;
     SignData.base64_decode := fun s => repeat 0 64;
     SignData.crc32_buf := fun _ => 0;
     SignData.Cell := unit;
     SignData.Cell_fromBase64 := fun _ => Return tt;
     SignData.build_and_hash := fun _ _ _ _ _ _ => Return [];
     SignData.ed25519_verify := fun _ _ _ => true |}.

Definition rejectAll : SignData.Crypto :=
  {| SignData.sha256 := fun m => m;
     SignData.base64_decode := fun s => repeat 0 64;
     SignData.crc32_buf := fun _ => 0;
     SignData.Cell := unit;
     SignData.Cell_fromBase64 := fun _ => Return tt;
     SignData.build_and_hash := fun _ _ _ _ _ _ => Return [];
     SignData.ed25519_verify := fun _ _ _ => false |}.


(** A stand-in whose base64 decoding yields 10 bytes: too short for an
    Ed25519 signature, so that [nacl.sign.detached.verify] throws. *)
Definition shortSignature : SignData.Crypto :=
  {| SignData.sha256 := fun m => m;
     SignData.base64_decode := fun s => repeat 0 10;
     SignData.crc32_buf := fun _ => 0;
     SignData.Cell := unit;
     SignData.Cell_fromBase64 := fun _ => Return tt;
     SignData.build_and_hash := fun _ _ _ _ _ _ => Return [];
     SignData.ed25519_verify := fun _ _ _ => true |}.

(** A key resolver whose call to the TON API fails. *)
Definition failingResolver : string -> result (option SignData.Buffer) :=
  fun _ => Throw "network error".

Definition anyAddress : string -> result SignData.Address :=
  fun _ => Return {| SignData.workChain := 0; SignData.hash := repeat 0 32 |}.

Definition anyKey : string -> result (option SignData.Buffer) :=
  fun _ => Return (Some (repeat 0 32)).

Definition demoParse (s : string) : result SignData.Address :=
  if String.prefix "EQ" s
  then Return {| SignData.workChain := 0; SignData.hash := char_codes s |}
  else Throw "Invalid address".

Definition demoToString (a : SignData.Address) : string :=
  String.string_of_list_ascii (map (fun z => ascii_of_N (Z.to_N z)) (SignData.hash a)).

Definition demoJwt (a d : string) (t i : Z) : result string :=
  Return ("jwt:" +:+ a +:+ ":" +:+ pretty i).

Definition identity : string -> result string := fun s => Return s.

Definition demoCollection : string -> result (option string) :=
  fun _ => Return (Some "EQcoll"%string).

Definition demoWhitelist : list string := ["EQcoll"%string].

Definition onlyBlockLookupFails : Faults :=
  fun q => match q with SelectUserBlock => true | _ => false end.

Definition commitFails : Faults :=
  fun q => match q with KeysCommit => true | _ => false end.

(** Sign-data envelopes. *)
Definition envelope (d : string) : SignData.CheckSignDataRequestDto :=
  {| SignData.signature := "c2ln"; SignData.address := "0:00";
     SignData.timestamp := 1700000000; SignData.domain := d;
     SignData.payload := SignData.PayloadText "hello";
     SignData.public_key := ""; SignData.walletStateInit := "" |}.

(** A registry holding one session that expires one hour after time 0. *)
Definition aliceSession : Sessions.SessionData :=
  {| Sessions.sessionId := "s1"; Sessions.userAddress := "EQalice";
     Sessions.createdAt := 0; Sessions.expiresAt := 3600000;
     Sessions.signatureVerified := true |}.

Definition aliceRegistry : Sessions.Registry :=
  Sessions.addSession "s1" aliceSession Sessions.empty.


(** Alice's next session, created half a second after [aliceSession]
    expired and before any sweep. *)
Definition aliceRenewed : Sessions.SessionData :=
  {| Sessions.sessionId := "s2"; Sessions.userAddress := "EQalice";
     Sessions.createdAt := 3600500; Sessions.expiresAt := 7200500;
     Sessions.signatureVerified := true |}.

Definition aliceRenewedRegistry : Sessions.Registry :=
  Sessions.addSession "s2" aliceRenewed aliceRegistry.

(** A database in which Mallory is blocked without limit of time. *)
Definition malloryBlocked : Database :=
  set_user_blocks
    [{| ub_user_address := "EQmallory"; ub_reason := "abuse";
        ub_blocked_until := None; ub_is_active := true |}] emptyDb.

(** Listens of one NFT by Alice, 30 seconds apart. *)
Definition listenAt (ts : Z) : Ledger.ListenCall :=
  {| Ledger.c_faults := noFaults; Ledger.c_now := ts; Ledger.c_user := "EQalice";
     Ledger.c_session := "s1"; Ledger.c_nft := "EQnft";
     Ledger.c_collection := "EQcoll"; Ledger.c_timestamp := ts |}.

Definition t0 : Z := 1700000000000.

Definition twoListens : list Ledger.ListenCall := [listenAt t0; listenAt (t0 + 30000)].

(** The store when Alice's session "s1" has just been created: its row in
    listening_sessions and nothing else. *)
Definition ledgerStart : Database :=
  set_listening_sessions
    [{| ls_session_id := "s1"; ls_user_address := "EQalice";
        ls_created_at := t0 - 1000; ls_expires_at := t0 - 1000 + 60 * 60 * 1000;
        ls_last_activity := t0 - 1000; ls_is_active := true |}] emptyDb.

Definition afterTwoListens : Database :=
  Eval vm_compute in default emptyDb (Ledger.recordAll ledgerStart twoListens).

Definition elevenListens : list Ledger.ListenCall :=
  map (fun k => listenAt (t0 + k * 30000)) [0; 1; 2; 3; 4; 5; 6; 7; 8; 9; 10].

Definition afterElevenListens : Database :=
  Eval vm_compute in default emptyDb (Ledger.recordAll ledgerStart elevenListens).

(** Three API keys: Alice's earlier key, an expired key of Bob, a live key of
    Carol (at time 1000). *)
Definition threeKeys : Database :=
  set_api_keys
    [{| ak_key := "k-alice-old"; ak_address := "EQalice"; ak_created_at := 0;
        ak_expires_at := 9000 |};
     {| ak_key := "k-bob-expired"; ak_address := "EQbob"; ak_created_at := 0;
        ak_expires_at := 500 |};
     {| ak_key := "k-carol"; ak_address := "EQcarol"; ak_created_at := 0;
        ak_expires_at := 9000 |}] emptyDb.

(** Alice's session request, and the state after her first, correctly
    signed, call at [firstCallAt]. *)
Definition demoCreate (crypto : SignData.Crypto) :=
  SessionRoutes.createSession demoParse demoToString crypto anyKey demoJwt noFaults.

Definition aliceRequest : SessionRoutes.SignDataRequest :=
  {| SessionRoutes.signature := "c2ln"; SessionRoutes.address := "EQalice";
     SessionRoutes.timestamp := 1700000000;
     SessionRoutes.domain := "localhost:3000";
     SessionRoutes.payload := Some (SignData.PayloadText SessionRoutes.expectedText);
     SessionRoutes.public_key := ""; SessionRoutes.walletStateInit := "" |}.

Definition firstCallAt : Z := 1700000100000.

(** The same request signed at second [ts]. *)
Definition aliceRequestAt (ts : Z) : SessionRoutes.SignDataRequest :=
  {| SessionRoutes.signature := "c2ln"; SessionRoutes.address := "EQalice";
     SessionRoutes.timestamp := ts;
     SessionRoutes.domain := "localhost:3000";
     SessionRoutes.payload := Some (SignData.PayloadText SessionRoutes.expectedText);
     SessionRoutes.public_key := ""; SessionRoutes.walletStateInit := "" |}.

Definition aliceSessionId : string := "jwt:EQalice:1700000100".

Definition aliceRecord : Sessions.SessionData :=
  {| Sessions.sessionId := aliceSessionId; Sessions.userAddress := "EQalice";
     Sessions.createdAt := firstCallAt;
     Sessions.expiresAt := firstCallAt + SessionRoutes.sessionLifetimeMs;
     Sessions.signatureVerified := true |}.

Definition registryAfterFirst : Sessions.Registry :=
  Sessions.addSession aliceSessionId aliceRecord Sessions.empty.

Definition dbAfterFirst : Database :=
  set_listening_sessions
    [{| ls_session_id := aliceSessionId; ls_user_address := "EQalice";
        ls_created_at := firstCallAt;
        ls_expires_at := firstCallAt + SessionRoutes.sessionLifetimeMs;
        ls_last_activity := firstCallAt; ls_is_active := true |}] emptyDb.

(** Alice renews: half a second after her first session ran out, and before
    any sweep, she asks for a session again and gets a new one.  The sweep
    runs 100 seconds later; 100 seconds after that she asks once more. *)
Definition renewalAt : Z := firstCallAt + SessionRoutes.sessionLifetimeMs + 500.

Definition afterRenewal : Sessions.Registry * Database * SessionRoutes.Response :=
  demoCreate acceptAll renewalAt registryAfterFirst dbAfterFirst
    (aliceRequestAt (renewalAt / 1000)).

Definition renewedSessionId : string := "jwt:EQalice:1700003700".

Definition renewedRecord : Sessions.SessionData :=
  {| Sessions.sessionId := renewedSessionId; Sessions.userAddress := "EQalice";
     Sessions.createdAt := renewalAt;
     Sessions.expiresAt := renewalAt + SessionRoutes.sessionLifetimeMs;
     Sessions.signatureVerified := true |}.

Definition sweepAt : Z := renewalAt + 100000.

Definition registryAfterSweep : Sessions.Registry :=
  Sessions.sessionCleanup sweepAt afterRenewal.1.1.

Definition dbAfterRenewal : Database := afterRenewal.1.2.

Definition thirdCallAt : Z := renewalAt + 200000.

(** Bob has listened to 51 different NFTs within the last hour (time 4000000). *)
Definition bobRow (k : Z) : SessionListenRow :=
  {| sl_user_address := "EQbob"; sl_nft_address := "EQnft" +:+ pretty k;
     sl_collection_address := "EQcoll"; sl_session_id := "s3"; sl_count := 1;
     sl_first_recorded := 3000000 + k; sl_last_recorded := 3000000 + k |}.

Definition busyBob : Database :=
  {| session_listens := map bobRow (seqZ 0 51); listens := []; nfts := [];
     user_blocks := []; suspicious_activities := []; api_keys := [];
     listening_sessions := [] |}.

Definition connectFails : Faults :=
  fun q => match q with DetectConnect => true | _ => false end.

(** Carol's block ran out at time 500 and has not been swept. *)
Definition carolLapsed : Database :=
  set_user_blocks
    [{| ub_user_address := "EQcarol"; ub_reason := "spam";
        ub_blocked_until := Some 500; ub_is_active := true |}] emptyDb.

End Fixtures.

(** * Properties *)

(** ** Sign-data verification *)

Module SignDataProps.
Import Js SignData Fixtures.

Lemma includes_elem_of (l : list string) (s : string) :
  includes l s = true <-> s ∈ l.
Proof.
  unfold includes. rewrite existsb_exists. split.
  - intros (x & Hin & Heq). apply String.eqb_eq in Heq. subst x.
    by apply list_elem_of_In.
  - intros Hin. exists s. split; [by apply list_elem_of_In | apply String.eqb_refl].
Qed.

Lemma try_catch_total {A} (body : result A) (a : A) :
  exists r, try_catch body (fun _ => Return a) = Return r.
Proof. destruct body as [r|e]; simpl; eauto. Qed.

(** With an allowed domain the accepting stand-in verifies the envelope. *)
Example envelope_allowed_domain_verifies :
  checkSignData 1700000100000 anyAddress acceptAll (envelope "localhost:3000") anyKey
  = Return true.
Proof. vm_compute. reflexivity. Qed.

(** An exception raised inside the [try] block, here by the key resolver,
    ends as [false]. *)
Example failing_resolver_is_false :
  checkSignData 1700000100000 anyAddress acceptAll (envelope "localhost:3000") failingResolver
  = Return false.
Proof. vm_compute. reflexivity. Qed.

(** C8: [checkSignData] never throws past its boundary: for every envelope,
    every resolver and every behaviour of the external packages (each of
    which may throw), the caller receives a boolean, and that boolean is
    [false] whenever something inside the [try] block threw. *)
Theorem checkSignData_never_throws
    (now_ms : Z) (Address_parse : string -> result Address) (crypto : Crypto)
    (req : CheckSignDataRequestDto)
    (getWalletPublicKey : string -> result (option Buffer)) :
  (exists b : bool,
     checkSignData now_ms Address_parse crypto req getWalletPublicKey = Return b) /\
  (forall e,
     checkSignData_try now_ms Address_parse crypto req getWalletPublicKey = Throw e ->
     checkSignData now_ms Address_parse crypto req getWalletPublicKey = Return false).
Proof.
  unfold checkSignData. split; [apply try_catch_total|].
  intros e He. by rewrite He.
Qed.

Lemma checkSignData_never_throws_witness :
  checkSignData_try 1700000100000 anyAddress shortSignature (envelope "localhost:3000") anyKey
  = Throw "bad signature size" /\
  checkSignData 1700000100000 anyAddress shortSignature (envelope "localhost:3000") anyKey
  = Return false.
Proof.
  assert (H : checkSignData_try 1700000100000 anyAddress shortSignature
                (envelope "localhost:3000") anyKey = Throw "bad signature size")
    by (vm_compute; reflexivity).
  split; [exact H|].
  exact (proj2 (checkSignData_never_throws 1700000100000 anyAddress shortSignature
                  (envelope "localhost:3000") anyKey) _ H).
Defined.

(** C9: an envelope whose domain is not in the allow-list is rejected,
    whatever the signature check would have answered. *)
Theorem checkSignData_rejects_foreign_domain
    (now_ms : Z) (Address_parse : string -> result Address) (crypto : Crypto)
    (req : CheckSignDataRequestDto)
    (getWalletPublicKey : string -> result (option Buffer)) :
  domain req ∉ allowedDomains ->
  checkSignData now_ms Address_parse crypto req getWalletPublicKey = Return false.
Proof.
  intros Hdom. unfold checkSignData, checkSignData_try.
  destruct (includes allowedDomains (domain req)) eqn:Hinc.
  - exfalso. apply Hdom. by apply includes_elem_of.
  - reflexivity.
Qed.

Lemma checkSignData_rejects_foreign_domain_witness :
  (domain (envelope "evil.example") ∉ allowedDomains) /\
  checkSignData 1700000100000 anyAddress acceptAll (envelope "evil.example") anyKey
  = Return false.
Proof.
  assert (H : domain (envelope "evil.example") ∉ allowedDomains).
  { intros Hin. apply includes_elem_of in Hin. vm_compute in Hin. discriminate. }
  split; [exact H | exact (checkSignData_rejects_foreign_domain _ _ _ _ _ H)].
Defined.

End SignDataProps.

(** ** The session registry *)

Module SessionsProps.
Import Js Sessions Fixtures.

Section Cleanup.
Variable now : Z.

Lemma cleanupStep_active_None (r : Registry) (e : string * SessionData) (k : string) :
  activeSessions r !! k = None -> activeSessions (cleanupStep now r e) !! k = None.
Proof.
  intros H. unfold cleanupStep. destruct (now >? expiresAt e.2); [|done].
  simpl. destruct (decide (e.1 = k)) as [->|Hne].
  - apply lookup_delete_eq.
  - by rewrite lookup_delete_ne.
Qed.

Lemma cleanupStep_user_None (r : Registry) (e : string * SessionData) (a : string) :
  userSessions r !! a = None -> userSessions (cleanupStep now r e) !! a = None.
Proof.
  intros H. unfold cleanupStep. destruct (now >? expiresAt e.2); [|done].
  simpl. destruct (decide (userAddress e.2 = a)) as [->|Hne].
  - apply lookup_delete_eq.
  - by rewrite lookup_delete_ne.
Qed.

Lemma cleanup_fold_None (l : list (string * SessionData)) (r : Registry) :
  (forall k, activeSessions r !! k = None ->
             activeSessions (fold_left (cleanupStep now) l r) !! k = None) /\
  (forall a, userSessions r !! a = None ->
             userSessions (fold_left (cleanupStep now) l r) !! a = None).
Proof.
  revert r. induction l as [|e l IH]; intros r; simpl; [done|].
  destruct (IH (cleanupStep now r e)) as [IHa IHu]. split.
  - intros k H. by apply IHa, cleanupStep_active_None.
  - intros a H. by apply IHu, cleanupStep_user_None.
Qed.

(** An expired entry visited by the loop is gone from both maps afterwards. *)
Lemma cleanup_fold_expired (l : list (string * SessionData)) (r : Registry)
    (sid : string) (s : SessionData) :
  (sid, s) ∈ l -> expiresAt s < now ->
  activeSessions (fold_left (cleanupStep now) l r) !! sid = None /\
  userSessions (fold_left (cleanupStep now) l r) !! userAddress s = None.
Proof.
  revert r. induction l as [|e l IH]; intros r Hin Hexp.
  - by apply elem_of_nil in Hin.
  - apply elem_of_cons in Hin as [<-|Hin]; [|by apply IH].
    simpl. destruct (cleanup_fold_None l (cleanupStep now r (sid, s))) as [Ha Hu].
    assert (Hgt : (now >? expiresAt s) = true) by (apply Z.gtb_lt; lia).
    split; [apply Ha | apply Hu]; unfold cleanupStep; simpl; rewrite Hgt; simpl;
      apply lookup_delete_eq.
Qed.

(** The loop leaves the by-id entry of an unexpired record alone. *)
Lemma cleanup_fold_live (l : list (string * SessionData)) (r : Registry) (sid : string) :
  (forall s, (sid, s) ∈ l -> expiresAt s >= now) ->
  activeSessions (fold_left (cleanupStep now) l r) !! sid = activeSessions r !! sid.
Proof.
  revert r. induction l as [|e l IH]; intros r Hlive; simpl; [done|].
  rewrite IH; [|intros s Hs; apply Hlive; by right].
  unfold cleanupStep. destruct (now >? expiresAt e.2) eqn:Hgt; [|done].
  simpl. apply lookup_delete_ne. intros Heq.
  assert (expiresAt e.2 >= now).
  { apply Hlive. destruct e as [k v]. simpl in Heq. subst k. by left. }
  apply Z.gtb_lt in Hgt. lia.
Qed.

(** The loop leaves the by-address entry of an address alone unless it
    visits an expired record of that address. *)
Lemma cleanup_fold_user_kept (l : list (string * SessionData)) (r : Registry) (a : string) :
  (forall k s, (k, s) ∈ l -> expiresAt s < now -> userAddress s <> a) ->
  userSessions (fold_left (cleanupStep now) l r) !! a = userSessions r !! a.
Proof.
  revert r. induction l as [|e l IH]; intros r Hother; simpl; [done|].
  rewrite IH; [|intros k s Hs; apply (Hother k s); by right].
  unfold cleanupStep. destruct (now >? expiresAt e.2) eqn:Hgt; [|done].
  simpl. apply lookup_delete_ne. destruct e as [k s]. simpl in *.
  apply (Hother k s); [by left|]. apply Z.gtb_lt in Hgt. lia.
Qed.

(** The outcome of the sweep, entry by entry; in particular it does not
    depend on the order in which the loop visits the map. *)
Lemma sessionCleanup_lookup (r : Registry) :
  (forall sid,
     getSession sid (sessionCleanup now r)
     = match getSession sid r with
       | Some s => if now >? expiresAt s then None else Some s
       | None => None
       end) /\
  (forall a,
     (forall sid s, getSession sid r = Some s -> expiresAt s < now -> userAddress s <> a) ->
     getUserSession a (sessionCleanup now r) = getUserSession a r).
Proof.
  unfold getSession, getUserSession, sessionCleanup. split.
  - intros sid. destruct (activeSessions r !! sid) as [s|] eqn:Hs.
    + destruct (now >? expiresAt s) eqn:Hgt.
      * apply Z.gtb_lt in Hgt.
        apply (cleanup_fold_expired _ _ sid s); [by apply elem_of_map_to_list|lia].
      * rewrite cleanup_fold_live; [done|].
        intros s' Hin. apply elem_of_map_to_list in Hin.
        assert (s' = s) as -> by congruence.
        rewrite Z.gtb_ltb in Hgt. apply Z.ltb_ge in Hgt. lia.
    + by apply cleanup_fold_None.
  - intros a Hother. apply cleanup_fold_user_kept.
    intros k s Hin. apply elem_of_map_to_list in Hin. by apply (Hother k s).
Qed.

Lemma sessionCleanup_keeps_live (r : Registry) (sid : string) (s : SessionData) :
  activeSessions r !! sid = Some s -> expiresAt s >= now ->
  getSession sid (sessionCleanup now r) = Some s.
Proof.
  intros Hs Hlive. unfold getSession, sessionCleanup.
  rewrite cleanup_fold_live; [done|].
  intros s' Hin. apply elem_of_map_to_list in Hin. congruence.
Qed.

End Cleanup.

(** The sweep deletes the by-address entry of the expired record's owner
    whatever session it points to: when the owner has renewed in the
    meantime, the live session stays reachable by id only. *)
Example cleanup_forgets_owner_of_live_session :
  getUserSession "EQalice" aliceRenewedRegistry = Some "s2"%string /\
  getSession "s2" (sessionCleanup 3601000 aliceRenewedRegistry) = Some aliceRenewed /\
  getUserSession "EQalice" (sessionCleanup 3601000 aliceRenewedRegistry) = None.
Proof. repeat split; vm_compute; reflexivity. Qed.

(** C2, as stated, fails: one hour and one second after it was created the
    session has expired, no sweep has run since, and both lookups still
    return it. *)
Lemma expired_session_still_returned :
  expiresAt aliceSession < 3601000 /\
  getSession "s1" aliceRegistry = Some aliceSession /\
  getUserSession "EQalice" aliceRegistry = Some "s1"%string.
Proof. split; [reflexivity|]. split; reflexivity. Qed.

End SessionsProps.

(** ** The detector *)

Module DetectorProps.
Import Js Store Detector Fixtures.

(** With a working store the blocked user is refused. *)
Example blocked_user_is_suspicious :
  isSuspicious (detectSuspiciousActivity noFaults 1000 malloryBlocked "EQmallory" "EQnft" 1000).2
  = true.
Proof. vm_compute. reflexivity. Qed.

Lemma checkUserBlock_total (faulty : Faults) (now : Z) (db : Database) (user : string) :
  exists b, checkUserBlock faulty now db user = Return b.
Proof.
  unfold checkUserBlock, query. destruct (faulty SelectUserBlock); simpl; [eauto|].
  destruct (List.filter _ _); simpl; eauto.
Qed.

(** The evaluation writes to the audit table only. *)
Lemma detect_keeps_ledger (faulty : Faults) (now : Z) (db : Database)
    (user nft : string) (timestamp : Z) :
  session_listens (detectSuspiciousActivity faulty now db user nft timestamp).1
  = session_listens db /\
  listens (detectSuspiciousActivity faulty now db user nft timestamp).1 = listens db.
Proof.
  assert (Hlog : forall ty descr sev meta,
            session_listens (logSuspiciousActivity faulty now db user ty descr sev meta)
            = session_listens db /\
            listens (logSuspiciousActivity faulty now db user ty descr sev meta)
            = listens db).
  { intros. unfold logSuspiciousActivity, query. by destruct (faulty InsertSuspicious). }
  unfold detectSuspiciousActivity, detect_try.
  destruct (checkUserBlock faulty now db user) as [[blocked why]|e]; simpl; [|done].
  destruct blocked; simpl; [done|]. unfold query.
  destruct (faulty DetectConnect); simpl; [done|].
  destruct (faulty SelectHourly); simpl; [done|].
  destruct (_ >? 50); simpl; [apply Hlog|].
  destruct (faulty SelectDaily); simpl; [done|].
  destruct (_ >? 500); simpl; [apply Hlog|].
  destruct (faulty SelectSameNft); simpl; [done|].
  destruct (_ >? 10); simpl; [apply Hlog|done].
Qed.

(** C7: when the block lookup raises, [checkUserBlock] answers "not
    blocked"; the error is not propagated and the verdict of the evaluation
    is the one the same user would get with no block row at all. *)
Theorem block_lookup_failure_fails_open
    (faulty : Faults) (now : Z) (db : Database) (user : string) :
  faulty SelectUserBlock = true ->
  checkUserBlock faulty now db user
  = Return {| isBlocked := false; blockReason := None |} /\
  forall nft timestamp,
    (detectSuspiciousActivity faulty now db user nft timestamp).2
    = (detectSuspiciousActivity faulty now (set_user_blocks [] db) user nft timestamp).2.
Proof.
  intros Hfail.
  assert (Hblock : forall d, checkUserBlock faulty now d user
                             = Return {| isBlocked := false; blockReason := None |}).
  { intros d. unfold checkUserBlock, query. by rewrite Hfail. }
  split; [apply Hblock|].
  intros nft timestamp. unfold detectSuspiciousActivity, detect_try.
  rewrite !Hblock. simpl. unfold query, countUserSince, countSameNftSince. simpl.
  destruct (faulty DetectConnect); simpl; [done|].
  destruct (faulty SelectHourly); simpl; [done|].
  destruct (_ >? 50); simpl; [done|].
  destruct (faulty SelectDaily); simpl; [done|].
  destruct (_ >? 500); simpl; [done|].
  destruct (faulty SelectSameNft); simpl; [done|].
  by destruct (_ >? 10).
Qed.

Lemma block_lookup_failure_fails_open_witness :
  checkUserBlock onlyBlockLookupFails 1000 malloryBlocked "EQmallory"
  = Return {| isBlocked := false; blockReason := None |} /\
  detectSuspiciousActivity onlyBlockLookupFails 1000 malloryBlocked "EQmallory" "EQnft" 1000
  = (malloryBlocked, {| isSuspicious := false; reason := None |}).
Proof.
  destruct (block_lookup_failure_fails_open onlyBlockLookupFails 1000 malloryBlocked "EQmallory")
    as [Hcheck Hverdict]; [reflexivity|].
  split; [exact Hcheck|]. vm_compute. reflexivity.
Defined.

End DetectorProps.

(** ** The listen ledger *)

Module LedgerProps.
Import Js Store Ledger Fixtures.

Lemma sameListen_true (u n : string) (r : SessionListenRow) :
  sameListen u n r = true <-> sl_user_address r = u /\ sl_nft_address r = n.
Proof.
  unfold sameListen. rewrite andb_true_iff, !String.eqb_eq. tauto.
Qed.

Lemma sameListen_bump (u n sid : string) (c ts : Z) (r : SessionListenRow) :
  sameListen u n (bumpListen sid c ts r) = sameListen u n r.
Proof. reflexivity. Qed.

Section Upsert.
Variables (u n sid : string) (c ts : Z).

Lemma bump_hit (r : SessionListenRow) :
  sameListen u n r = true -> bumpMatching u n sid c ts r = bumpListen sid c ts r.
Proof. intros H. unfold bumpMatching. by rewrite H. Qed.

Lemma bump_miss (r : SessionListenRow) :
  sameListen u n r = false -> bumpMatching u n sid c ts r = r.
Proof. intros H. unfold bumpMatching. by rewrite H. Qed.

Lemma find_bump_same (rows : list SessionListenRow) (old : SessionListenRow) :
  find (sameListen u n) rows = Some old ->
  find (sameListen u n) (map (bumpMatching u n sid c ts) rows)
  = Some (bumpListen sid c ts old).
Proof.
  induction rows as [|r rows IH]; simpl; [done|].
  destruct (sameListen u n r) eqn:Hr.
  - intros [= <-]. by rewrite (bump_hit _ Hr), sameListen_bump, Hr.
  - rewrite (bump_miss _ Hr), Hr. exact IH.
Qed.


Lemma map_bump_keys (rows : list SessionListenRow) :
  map (fun r => (sl_user_address r, sl_nft_address r)) (map (bumpMatching u n sid c ts) rows)
  = map (fun r => (sl_user_address r, sl_nft_address r)) rows.
Proof.
  induction rows as [|r rows IH]; simpl; [done|]. rewrite IH. f_equal.
  unfold bumpMatching. by destruct (sameListen u n r).
Qed.

End Upsert.

Lemma find_snoc {A} (p : A -> bool) (rows : list A) (x : A) :
  find p (rows ++ [x])
  = match find p rows with Some r => Some r | None => if p x then Some x else None end.
Proof.
  induction rows as [|r rows IH]; simpl; [done|]. by destruct (p r).
Qed.

Lemma find_None_key (rows : list SessionListenRow) (u n : string) :
  find (sameListen u n) rows = None ->
  (u, n) ∉ map (fun r => (sl_user_address r, sl_nft_address r)) rows.
Proof.
  induction rows as [|r rows IH]; simpl; intros Hfind Hin.
  - by apply elem_of_nil in Hin.
  - destruct (sameListen u n r) eqn:Hr; [done|].
    apply elem_of_cons in Hin as [Heq|Hin]; [|by apply IH].
    injection Heq as -> ->. unfold sameListen in Hr. by rewrite !String.eqb_refl in Hr.
Qed.




Lemma find_listen_same (nft : string) (c now : Z) (rows : list ListenRow) (old : ListenRow) :
  find (sameNft nft) rows = Some old ->
  from_option l_count 0
    (find (sameNft nft)
       (map (fun r => if sameNft nft r
                      then {| l_nft_address := l_nft_address r;
                              l_collection_address := l_collection_address r;
                              l_count := c; l_last_updated := now;
                              l_created_at := l_created_at r |}
                      else r) rows)) = c.
Proof.
  induction rows as [|r rows IH]; simpl; [done|].
  destruct (sameNft nft r) eqn:Hr.
  - intros _. unfold sameNft in *. simpl. by rewrite Hr.
  - rewrite Hr. exact IH.
Qed.


(** What a recorded call did: the flood floor was respected, the three
    tables of the ledger are the upserted ones, and the session the row
    references passed the foreign key. *)
Lemma recorded_inv (faulty : Faults) (now : Z) (db db' : Database)
    (u sid n coll : string) (ts k : Z) :
  recordSessionListen faulty now db u sid n coll ts = (db', Return (Recorded k)) ->
  exists sl c l sessions,
    (forall row, lastListenOf (session_listens db) u n = Some row ->
                 sl_last_recorded row + floodFloorMs <= ts) /\
    upsertSessionListen now (session_listens db) u n coll sid ts = Return (sl, c) /\
    upsertListens now (listens db) n coll = Return l /\
    sessionsAfterUpsert now db u n sid = Return sessions /\
    db' = set_listening_sessions sessions
            (set_ledger sl (upsertNft now (nfts db) n coll) l db).
Proof.
  unfold recordSessionListen, listenTransaction, query.
  destruct (faulty LedgerConnect); [done|].
  destruct (faulty LedgerBegin); simpl; [by destruct (faulty LedgerRollback)|].
  destruct (faulty SelectLastListen); simpl; [by destruct (faulty LedgerRollback)|].
  destruct (match lastListenOf (session_listens db) u n with
            | Some row => ts - sl_last_recorded row <? floodFloorMs
            | None => false
            end) eqn:Hflood.
  { by destruct (faulty LedgerRollback). }
  destruct (faulty UpsertSessionListen); simpl; [by destruct (faulty LedgerRollback)|].
  destruct (upsertSessionListen now (session_listens db) u n coll sid ts)
    as [[sl c]|e] eqn:Hsl; simpl; [|by destruct (faulty LedgerRollback)].
  destruct (sessionsAfterUpsert now db u n sid) as [sessions|e] eqn:Hsess; simpl;
    [|by destruct (faulty LedgerRollback)].
  destruct (faulty UpsertNft); simpl; [by destruct (faulty LedgerRollback)|].
  destruct (faulty UpsertListens); simpl; [by destruct (faulty LedgerRollback)|].
  destruct (upsertListens now (listens db) n coll) as [l|e] eqn:Hl; simpl;
    [|by destruct (faulty LedgerRollback)].
  destruct (faulty LedgerCommit); simpl; [by destruct (faulty LedgerRollback)|].
  intros [= <- _]. exists sl, c, l, sessions. split; [|done].
  intros row Hrow. rewrite Hrow in Hflood. apply Z.ltb_ge in Hflood. lia.
Qed.

Lemma upsertSessionListen_same (now : Z) (rows sl : list SessionListenRow)
    (u n coll sid : string) (ts c : Z) :
  upsertSessionListen now rows u n coll sid ts = Return (sl, c) ->
  exists row, find (sameListen u n) sl = Some row /\
    sl_count row = from_option sl_count 0 (find (sameListen u n) rows) + 1 /\
    sl_last_recorded row = ts.
Proof.
  unfold upsertSessionListen.
  destruct (find (sameListen u n) rows) as [old|] eqn:Hfind; simpl.
  - unfold int4. destruct (_ && _); [|done]. simpl. intros [= <- <-].
    eexists. split; [by apply find_bump_same|done].
  - intros [= <- <-]. rewrite find_snoc, Hfind. unfold sameListen at 1. simpl.
    rewrite !String.eqb_refl. simpl. eauto.
Qed.


Lemma upsertSessionListen_keys (now : Z) (rows sl : list SessionListenRow)
    (u n coll sid : string) (ts c : Z) :
  upsertSessionListen now rows u n coll sid ts = Return (sl, c) ->
  NoDup (map (fun r => (sl_user_address r, sl_nft_address r)) rows) ->
  NoDup (map (fun r => (sl_user_address r, sl_nft_address r)) sl).
Proof.
  unfold upsertSessionListen. intros Hup Hnd.
  destruct (find (sameListen u n) rows) as [old|] eqn:Hfind; simpl in Hup.
  - unfold int4 in Hup. destruct (_ && _); [|done]. simpl in Hup.
    injection Hup as <- <-. by rewrite map_bump_keys.
  - injection Hup as <- <-. rewrite map_app. simpl.
    apply NoDup_app. split; [done|]. split; [|apply NoDup_singleton].
    intros k Hk Hk'. apply list_elem_of_singleton in Hk'. subst k.
    by apply find_None_key in Hfind.
Qed.

Lemma upsertListens_same (now : Z) (rows l : list ListenRow) (n coll : string) :
  upsertListens now rows n coll = Return l ->
  from_option l_count 0 (find (sameNft n) l)
  = from_option l_count 0 (find (sameNft n) rows) + 1.
Proof.
  unfold upsertListens.
  destruct (find (sameNft n) rows) as [old|] eqn:Hfind; simpl.
  - unfold int4. destruct (_ && _); [|done]. simpl. intros [= <-].
    by erewrite find_listen_same.
  - intros [= <-]. rewrite find_snoc, Hfind. unfold sameNft. simpl.
    by rewrite String.eqb_refl.
Qed.




Lemma recordSessionListen_unique (faulty : Faults) (now : Z) (db : Database)
    (u sid n coll : string) (ts : Z) :
  uniqueListens db ->
  uniqueListens (recordSessionListen faulty now db u sid n coll ts).1.
Proof.
  intros Huniq.
  destruct (recordSessionListen faulty now db u sid n coll ts) as [db' out] eqn:Hrun.
  simpl. destruct out as [[k|]|e].
  - apply recorded_inv in Hrun as (sl & cnt & l & sessions & _ & Hsl & _ & _ & ->).
    unfold uniqueListens. simpl. by eapply upsertSessionListen_keys.
  - revert Hrun. unfold recordSessionListen, listenTransaction, query.
    repeat (match goal with
            | |- context [if ?b then _ else _] => destruct b
            | |- context [upsertSessionListen ?a ?b ?c ?d ?e ?f ?g] =>
                destruct (upsertSessionListen a b c d e f g) as [[? ?]|?]
            | |- context [sessionsAfterUpsert ?a ?b ?c ?d ?e] =>
                destruct (sessionsAfterUpsert a b c d e)
            | |- context [upsertListens ?a ?b ?c ?d] =>
                destruct (upsertListens a b c d)
            end; simpl); try done; by intros [= <-].
  - revert Hrun. unfold recordSessionListen, listenTransaction, query.
    repeat (match goal with
            | |- context [if ?b then _ else _] => destruct b
            | |- context [upsertSessionListen ?a ?b ?c ?d ?e ?f ?g] =>
                destruct (upsertSessionListen a b c d e f g) as [[? ?]|?]
            | |- context [sessionsAfterUpsert ?a ?b ?c ?d ?e] =>
                destruct (sessionsAfterUpsert a b c d e)
            | |- context [upsertListens ?a ?b ?c ?d] =>
                destruct (upsertListens a b c d)
            end; simpl); try done; by intros [= <-].
Qed.



Lemma callsFor_nonneg (u n : string) (calls : list ListenCall) : 0 <= callsFor u n calls.
Proof. unfold callsFor. lia. Qed.



(** Under the flood floor the transaction is rolled back whatever the store
    does. *)
Lemma recordSessionListen_too_soon
    (faulty : Faults) (now : Z) (db : Database) (u sid n coll : string) (ts : Z)
    (row : SessionListenRow) :
  lastListenOf (session_listens db) u n = Some row ->
  ts - sl_last_recorded row < floodFloorMs ->
  (recordSessionListen faulty now db u sid n coll ts).1 = db /\
  (forall k, (recordSessionListen faulty now db u sid n coll ts).2 <> Return (Recorded k)) /\
  (faulty LedgerConnect = false -> faulty LedgerBegin = false ->
   faulty SelectLastListen = false -> faulty LedgerRollback = false ->
   (recordSessionListen faulty now db u sid n coll ts).2 = Return TooFrequent).
Proof.
  intros Hrow Hsoon.
  assert (Hflood : (ts - sl_last_recorded row <? floodFloorMs) = true)
    by (apply Z.ltb_lt; lia).
  unfold recordSessionListen, listenTransaction, query.
  destruct (faulty LedgerConnect); simpl; [done|].
  destruct (faulty LedgerBegin); simpl; [by destruct (faulty LedgerRollback)|].
  destruct (faulty SelectLastListen); simpl; [by destruct (faulty LedgerRollback)|].
  rewrite Hrow, Hflood. by destruct (faulty LedgerRollback).
Qed.



End LedgerProps.

(** ** The per-NFT repetition rule against the ledger *)

Module RepetitionProps.
Import Js Store Detector Ledger Fixtures.

(** Under UNIQUE(user_address, nft_address) the per-NFT query counts rows of
    one pair, of which there is at most one. *)
Lemma same_pair_rows_le_1 (rows : list SessionListenRow) (u n : string)
    (p : SessionListenRow -> bool) :
  NoDup (map (fun r => (sl_user_address r, sl_nft_address r)) rows) ->
  (length (List.filter
     (fun r => String.eqb (sl_user_address r) u && String.eqb (sl_nft_address r) n && p r)
     rows) <= 1)%nat.
Proof.
  induction rows as [|r rows IH]; simpl; intros Hnd; [lia|].
  apply NoDup_cons in Hnd as [Hnotin Hnd]. specialize (IH Hnd).
  destruct (String.eqb (sl_user_address r) u && String.eqb (sl_nft_address r) n) eqn:Hkey;
    simpl; [|done].
  apply andb_true_iff in Hkey as [Hu Hn]. apply String.eqb_eq in Hu, Hn. subst u n.
  assert (Hnone : List.filter
            (fun r0 => String.eqb (sl_user_address r0) (sl_user_address r)
                       && String.eqb (sl_nft_address r0) (sl_nft_address r) && p r0) rows = []).
  { clear IH Hnd. induction rows as [|r' rows IH']; simpl; [done|].
    simpl in Hnotin. apply not_elem_of_cons in Hnotin as [Hne Hnotin].
    destruct (String.eqb (sl_user_address r') (sl_user_address r)
              && String.eqb (sl_nft_address r') (sl_nft_address r)) eqn:Hk; simpl.
    - apply andb_true_iff in Hk as [Hu Hn]. apply String.eqb_eq in Hu, Hn.
      contradict Hne. by rewrite Hu, Hn.
    - by apply IH'. }
  rewrite Hnone. destruct (p r); simpl; lia.
Qed.

Lemma countSameNftSince_le_1 (db : Database) (u n : string) (since : Z) :
  uniqueListens db -> countSameNftSince db u n since <= 1.
Proof.
  intros Huniq. unfold countSameNftSince.
  pose proof (same_pair_rows_le_1 (session_listens db) u n
                (fun r => sl_last_recorded r >? since) Huniq). lia.
Qed.

(** In a database that satisfies the constraint the evaluation never writes
    a medium-severity record: the repetition rule cannot fire. *)
Lemma repetition_rule_never_fires (faulty : Faults) (now : Z) (db : Database)
    (u n : string) (ts : Z) (row : SuspiciousActivityRow) :
  uniqueListens db ->
  row ∈ suspicious_activities (detectSuspiciousActivity faulty now db u n ts).1 ->
  row ∈ suspicious_activities db \/ sa_severity row <> medium.
Proof.
  intros Huniq. unfold detectSuspiciousActivity, detect_try.
  destruct (checkUserBlock faulty now db u) as [[blocked why]|e]; simpl; [|by left].
  destruct blocked; simpl; [by left|].
  unfold query.
  destruct (faulty DetectConnect); simpl; [by left|].
  destruct (faulty SelectHourly); simpl; [by left|].
  assert (Hlog : forall ty descr sev meta,
            sev <> medium ->
            row ∈ suspicious_activities (logSuspiciousActivity faulty now db u ty descr sev meta) ->
            row ∈ suspicious_activities db \/ sa_severity row <> medium).
  { intros ty descr sev meta Hsev. unfold logSuspiciousActivity, query.
    destruct (faulty InsertSuspicious); simpl; [by left|].
    intros [Hin|Hin]%elem_of_app; [by left|].
    apply list_elem_of_singleton in Hin. subst row. by right. }
  destruct (_ >? 50); simpl; [by apply Hlog|].
  destruct (faulty SelectDaily); simpl; [by left|].
  destruct (_ >? 500); simpl; [by apply Hlog|].
  destruct (faulty SelectSameNft); simpl; [by left|].
  pose proof (countSameNftSince_le_1 db u n (now - 60 * 60 * 1000) Huniq) as Hle.
  destruct (_ >? 10) eqn:Hgt; simpl; [|by left].
  apply Z.gtb_lt in Hgt. lia.
Qed.

(** C1 on the code: eleven listens of one NFT by one user, 30 seconds apart,
    are all recorded; five minutes after the first one the pair's count is 11,
    the per-NFT query counts 1 (the pair's single row) and the evaluation
    answers "not suspicious" and logs nothing. *)
Theorem eleven_listens_in_an_hour_not_flagged :
  recordAll ledgerStart elevenListens = Some afterElevenListens /\
  userCount afterElevenListens "EQalice" "EQnft" = 11 /\
  countSameNftSince afterElevenListens "EQalice" "EQnft"
    (t0 + 300000 - 60 * 60 * 1000) = 1 /\
  detectSuspiciousActivity noFaults (t0 + 300000) afterElevenListens
    "EQalice" "EQnft" (t0 + 300000)
  = (afterElevenListens, {| isSuspicious := false; reason := None |}).
Proof. repeat split; vm_compute; reflexivity. Qed.

End RepetitionProps.

(** ** API keys *)

Module ApiKeysProps.
Import Js Store ApiKeys Fixtures.

Lemma keyStays_true (now : Z) (addr : string) (r : ApiKeyRow) :
  keyStays now addr r = true <-> ak_address r <> addr /\ ~ ak_expires_at r < now.
Proof.
  unfold keyStays. rewrite negb_true_iff, orb_false_iff, String.eqb_neq, Z.ltb_ge.
  split; intros [? ?]; (split; [done|lia]).
Qed.

Lemma kept_has_no_key_of (now : Z) (addr : string) (rows : list ApiKeyRow) :
  List.filter (fun r => String.eqb (ak_address r) addr)
    (List.filter (keyStays now addr) rows) = [].
Proof.
  induction rows as [|r rows IH]; simpl; [done|].
  destruct (keyStays now addr r) eqn:Hk; simpl; [|done].
  apply keyStays_true in Hk as [Hne _]. apply String.eqb_neq in Hne. by rewrite Hne.
Qed.

(** Alice's old key and Bob's expired key go, Carol's live key stays. *)
Example issue_replaces_and_purges :
  api_keys (saveApiKey identity noFaults 1000 threeKeys "k-alice-new" "EQalice" 1000 4600).1
  = [{| ak_key := "k-carol"; ak_address := "EQcarol"; ak_created_at := 0;
        ak_expires_at := 9000 |};
     {| ak_key := "k-alice-new"; ak_address := "EQalice"; ak_created_at := 1000;
        ak_expires_at := 4600 |}].
Proof. vm_compute. reflexivity. Qed.

(** A failing COMMIT leaves every key, Alice's old one included. *)
Example failed_commit_changes_nothing :
  (saveApiKey identity commitFails 1000 threeKeys "k-alice-new" "EQalice" 1000 4600).1
  = threeKeys.
Proof. vm_compute. reflexivity. Qed.

(** What a committed transaction leaves in the table. *)
Lemma saveTransaction_commits (faulty : Faults) (now : Z) (db db' : Database)
    (apiKey addr : string) (created expires : Z) :
  saveTransaction faulty now db apiKey addr created expires = Return db' ->
  let new := {| ak_key := apiKey; ak_address := addr;
                ak_created_at := created; ak_expires_at := expires |} in
  keysOf db' addr = [new] /\
  (forall r, r ∈ api_keys db' <->
             r = new \/
             (r ∈ api_keys db /\ ak_address r <> addr /\ ~ ak_expires_at r < now)).
Proof.
  unfold saveTransaction, query.
  destruct (faulty KeysBegin); simpl; [done|].
  destruct (faulty DeleteKeys); simpl; [done|].
  destruct (faulty InsertKey); simpl; [done|].
  destruct (existsb _ _); simpl; [done|].
  destruct (faulty KeysCommit); simpl; [done|].
  intros [= <-]. split.
  - unfold keysOf. simpl. rewrite List.filter_app, kept_has_no_key_of. simpl.
    by rewrite String.eqb_refl.
  - intros r. simpl.
    rewrite elem_of_app, list_elem_of_singleton, !list_elem_of_In, filter_In,
      keyStays_true. tauto.
Qed.

(** C6: [saveApiKey] is all or nothing, and it does complete.  When the
    address parses, no statement fails and the new key is not the key of a
    row that stays, the call completes and leaves exactly this table: the
    earlier rows without those of the address and without the expired ones,
    followed by the new key.  Whenever it completes, the address has exactly
    one key, the new one, and the table holds the new key together with the
    earlier keys of other addresses that have not expired; whenever it
    throws, the table is as before. *)
Theorem saveApiKey_one_key_or_nothing
    (Address_normalize : string -> result string)
    (faulty : Faults) (now : Z) (db : Database)
    (apiKey address : string) (created expires : Z) :
  (forall addr,
     Address_normalize address = Return addr ->
     faulty KeysConnect = false -> faulty KeysBegin = false ->
     faulty DeleteKeys = false -> faulty InsertKey = false ->
     faulty KeysCommit = false ->
     (forall r, r ∈ api_keys db -> ak_key r = apiKey ->
                ak_address r = addr \/ ak_expires_at r < now) ->
     saveApiKey Address_normalize faulty now db apiKey address created expires
     = (set_api_keys
          (List.filter (fun r => negb (String.eqb (ak_address r) addr
                                       || (ak_expires_at r <? now))) (api_keys db) ++
           [{| ak_key := apiKey; ak_address := addr;
               ak_created_at := created; ak_expires_at := expires |}]) db,
        Return tt)) /\
  match saveApiKey Address_normalize faulty now db apiKey address created expires with
  | (db', Return _) =>
      exists addr,
        let new := {| ak_key := apiKey; ak_address := addr;
                      ak_created_at := created; ak_expires_at := expires |} in
        Address_normalize address = Return addr /\
        keysOf db' addr = [new] /\
        (length (keysOf db' addr) <= 1)%nat /\
        (forall r, r ∈ api_keys db' <->
                   r = new \/
                   (r ∈ api_keys db /\ ak_address r <> addr /\ ~ ak_expires_at r < now))
  | (db', Throw _) => db' = db
  end.
Proof.
  split.
  - intros addr Hnorm Hconnect Hbegin Hdelete Hinsert Hcommit Hfresh.
    unfold saveApiKey, saveTransaction, query.
    rewrite Hconnect, Hnorm, Hbegin, Hdelete, Hinsert, Hcommit. simpl.
    assert (Hnone : existsb (fun r => String.eqb (ak_key r) apiKey)
                      (List.filter (keyStays now addr) (api_keys db)) = false).
    { destruct (existsb _ _) eqn:Hex; [|done]. exfalso.
      apply existsb_exists in Hex as (r & Hin & Hkey).
      apply filter_In in Hin as [Hin Hstays].
      apply String.eqb_eq in Hkey. apply keyStays_true in Hstays as [Hother Hlive].
      apply list_elem_of_In in Hin.
      destruct (Hfresh r Hin Hkey); [done|lia]. }
    by rewrite Hnone.
  - unfold saveApiKey, query.
    destruct (faulty KeysConnect); [done|].
    destruct (Address_normalize address) as [addr|e]; [|done].
    destruct (saveTransaction faulty now db apiKey addr created expires)
      as [db'|e] eqn:Htx.
    + apply saveTransaction_commits in Htx as [Hkeys Hrows].
      exists addr. cbn zeta. split; [done|]. split; [exact Hkeys|].
      split; [by rewrite Hkeys|exact Hrows].
    + by destruct (faulty KeysRollback).
Qed.

(** Alice is issued a new key at time 1000: her old key and Bob's expired
    key are deleted, Carol's live key stays, the new key is inserted. *)
Lemma saveApiKey_one_key_or_nothing_witness :
  saveApiKey identity noFaults 1000 threeKeys "k-alice-new" "EQalice" 1000 4600
  = (set_api_keys
       [{| ak_key := "k-carol"; ak_address := "EQcarol"; ak_created_at := 0;
           ak_expires_at := 9000 |};
        {| ak_key := "k-alice-new"; ak_address := "EQalice"; ak_created_at := 1000;
           ak_expires_at := 4600 |}] threeKeys,
     Return tt).
Proof.
  refine (proj1 (saveApiKey_one_key_or_nothing identity noFaults 1000 threeKeys
                   "k-alice-new" "EQalice" 1000 4600)
            "EQalice"%string eq_refl eq_refl eq_refl eq_refl eq_refl eq_refl _).
  intros r Hr Hkey. exfalso.
  apply list_elem_of_In in Hr. simpl in Hr.
  destruct Hr as [<-|[<-|[<-|[]]]]; discriminate Hkey.
Defined.

(** The handler that issues a key: when it answers with a key, that key,
    valid for one hour, is the only key of the caller's address; when it
    answers 500 no key was changed. *)
Lemma generateMusicApiKey_issues_single_key
    (Address_normalize : string -> result string)
    (faulty : Faults) (now : Z) (db : Database) (randomHex userAddress : string) :
  match generateMusicApiKey Address_normalize faulty now db randomHex userAddress with
  | (db', KeyJson apiKey expiresAt) =>
      apiKey = randomHex /\ expiresAt = now + keyLifetimeMs /\
      exists addr,
        Address_normalize userAddress = Return addr /\
        keysOf db' addr = [{| ak_key := apiKey; ak_address := addr;
                              ak_created_at := now; ak_expires_at := expiresAt |}]
  | (db', KeyStatus _ _) => db' = db
  end.
Proof.
  unfold generateMusicApiKey, saveApiKey, query.
  destruct (faulty KeysConnect); [done|].
  destruct (Address_normalize userAddress) as [addr|e]; [|done].
  destruct (saveTransaction faulty now db randomHex addr now (now + keyLifetimeMs))
    as [db'|e] eqn:Htx.
  - apply saveTransaction_commits in Htx as [Hkeys _].
    split; [done|]. split; [done|]. by exists addr.
  - by destruct (faulty KeysRollback).
Qed.

End ApiKeysProps.

(** ** Session creation *)

Module SessionRoutesProps.
Import Js Store SessionRoutes Fixtures.

Lemma liveSessionOf_Some (now : Z) (reg : Sessions.Registry) (addr sid : string)
    (s : Sessions.SessionData) :
  liveSessionOf now reg addr = Some (sid, s) <->
  Sessions.getUserSession addr reg = Some sid /\ sid <> ""%string /\
  Sessions.getSession sid reg = Some s /\ now < Sessions.expiresAt s.
Proof.
  unfold liveSessionOf. split.
  - destruct (Sessions.getUserSession addr reg) as [sid'|]; [|done].
    destruct (String.eqb sid' "") eqn:Hempty; [done|].
    destruct (Sessions.getSession sid' reg) as [s'|] eqn:Hget; [|done].
    destruct (now <? Sessions.expiresAt s') eqn:Hlive; [|done].
    intros [= -> ->]. apply String.eqb_neq in Hempty. apply Z.ltb_lt in Hlive. done.
  - intros (-> & Hne & -> & Hlive).
    apply String.eqb_neq in Hne. apply Z.ltb_lt in Hlive. by rewrite Hne, Hlive.
Qed.

Section Create.
Variable Address_parse : string -> result SignData.Address.
Variable Address_toString : SignData.Address -> string.
Variable jwt_sign : string -> string -> Z -> Z -> result string.

(** A request that passes the checks, for an address with a live session,
    gets that session back and changes nothing. *)
Lemma createSession_existing (crypto : SignData.Crypto)
    (resolver : string -> result (option SignData.Buffer))
    (faulty : Faults) (now : Z) (reg : Sessions.Registry) (db : Database)
    (req : SignDataRequest) (addr sid : string) (s : Sessions.SessionData) :
  passesChecks now req ->
  Address_normalize Address_parse Address_toString (address req) = Return addr ->
  liveSessionOf now reg addr = Some (sid, s) ->
  createSession Address_parse Address_toString crypto resolver jwt_sign faulty now reg db req
  = (reg, db, SessionJson sid (Sessions.expiresAt s)).
Proof.
  intros (Hsig & Haddr & Hts & Hdom & Hpay & Hfresh) Hnorm Hlive.
  unfold createSession, createSession_try.
  apply String.eqb_neq in Hsig, Haddr, Hdom. apply Z.eqb_neq in Hts.
  rewrite Hsig, Haddr, Hts, Hdom, Hpay. simpl.
  assert (Hgt : (now / 1000 - timestamp req >? 5 * 60) = false)
    by (rewrite Z.gtb_ltb; apply Z.ltb_ge; lia).
  rewrite Hgt. by rewrite Hnorm, Hlive.
Qed.

(** A JSON Web Token is never the empty string. *)
Hypothesis jwt_nonempty :
  forall a d t i sid, jwt_sign a d t i = Return sid -> sid <> ""%string.

(** After a call that answered with a session, the registry holds that
    session for the address, live until the expiry that was answered. *)
Lemma createSession_json_live (crypto : SignData.Crypto)
    (resolver : string -> result (option SignData.Buffer))
    (faulty : Faults) (now : Z) (reg reg1 : Sessions.Registry) (db db1 : Database)
    (req : SignDataRequest) (sid : string) (exp : Z) :
  createSession Address_parse Address_toString crypto resolver jwt_sign faulty now reg db req
  = (reg1, db1, SessionJson sid exp) ->
  exists addr s,
    Address_normalize Address_parse Address_toString (address req) = Return addr /\
    Sessions.expiresAt s = exp /\
    forall now2, now2 < exp -> liveSessionOf now2 reg1 addr = Some (sid, s).
Proof.
  unfold createSession, createSession_try.
  destruct (_ || _); [done|].
  destruct (payload req) as [[text| |]|]; try done.
  destruct (String.eqb text ""); [done|].
  destruct (_ >? 5 * 60); [done|].
  destruct (negb (String.eqb text expectedText)); [done|].
  destruct (Address_normalize _ _ (address req)) as [addr|e]; [|done].
  destruct (liveSessionOf now reg addr) as [[sid0 s0]|] eqn:Hlive.
  - intros [= <- <- <- <-]. exists addr, s0. split; [done|]. split; [done|].
    intros now2 Hlt. apply liveSessionOf_Some in Hlive as (Hu & Hne & Hs & _).
    by apply liveSessionOf_Some.
  - unfold createNewSession.
    destruct (SignData.checkSignData _ _ _ _ _) as [[|]|e]; cbn [bind negb]; try done.
    destruct (jwt_sign _ _ _ _) as [sid0|e] eqn:Hjwt; cbn [bind]; [|done].
    intros [= <- <- <- <-].
    exists addr, {| Sessions.sessionId := sid0; Sessions.userAddress := addr;
                    Sessions.createdAt := now;
                    Sessions.expiresAt := now + sessionLifetimeMs;
                    Sessions.signatureVerified := true |}.
    split; [done|]. split; [reflexivity|].
    intros now2 Hlt. apply liveSessionOf_Some.
    unfold Sessions.getUserSession, Sessions.getSession, Sessions.addSession.
    cbn [Sessions.activeSessions Sessions.userSessions Sessions.userAddress].
    rewrite !lookup_insert_eq. split; [done|]. split; [by eapply jwt_nonempty|]. done.
Qed.

End Create.

Example first_call_creates_session :
  demoCreate acceptAll firstCallAt Sessions.empty emptyDb aliceRequest
  = (registryAfterFirst, dbAfterFirst,
     SessionJson aliceSessionId (firstCallAt + sessionLifetimeMs)).
Proof. vm_compute. reflexivity. Qed.

(** Without a live session a signature that does not verify is refused. *)
Example bad_signature_refused_without_session :
  demoCreate rejectAll firstCallAt Sessions.empty emptyDb aliceRequest
  = (Sessions.empty, emptyDb, Status 400 "Неверная подпись сообщения").
Proof. vm_compute. reflexivity. Qed.

Lemma demoJwt_nonempty (a d : string) (t i : Z) (sid : string) :
  demoJwt a d t i = Return sid -> sid <> ""%string.
Proof. intros [= <-]. discriminate. Qed.

Lemma aliceRequest_passes (now : Z) :
  now / 1000 - 1700000000 <= 5 * 60 -> passesChecks now aliceRequest.
Proof. intros H. unfold passesChecks. simpl. repeat split; try discriminate; done. Qed.

(** C3, as stated, fails, in two ways.  By the order of the handler's
    checks: Alice has an unexpired session that the by-address map points
    to, and her original, validly signed request sent again twenty minutes
    later is answered 400, not with her session.  And where the by-address
    map has lost its entry: after her renewal and the sweep of her first
    session, Alice's second session is registered and unexpired, yet a call
    with a forged signature is answered 400 by the signature check, which
    was thus evaluated. *)
Lemma unindexed_live_session_is_verified :
  (liveSessionOf (firstCallAt + 1200000) registryAfterFirst "EQalice"
   = Some (aliceSessionId, aliceRecord) /\
   demoCreate acceptAll (firstCallAt + 1200000) registryAfterFirst dbAfterFirst aliceRequest
   = (registryAfterFirst, dbAfterFirst, Status 400 "Подпись устарела")) /\
  (afterRenewal.2 = SessionJson renewedSessionId (renewalAt + sessionLifetimeMs) /\
   Sessions.getSession renewedSessionId registryAfterSweep = Some renewedRecord /\
   Sessions.userAddress renewedRecord = "EQalice"%string /\
   thirdCallAt < Sessions.expiresAt renewedRecord /\
   demoCreate rejectAll thirdCallAt registryAfterSweep dbAfterRenewal
     (withSignature "forged" (aliceRequestAt (renewalAt / 1000)))
   = (registryAfterSweep, dbAfterRenewal, Status 400 "Неверная подпись сообщения")).
Proof. repeat split; vm_compute; reflexivity. Qed.

(** C3, amended: when the by-address map points to an unexpired session of
    the address, a call whose request passes the handler's preliminary
    checks is answered with that session and changes nothing, whatever the
    external packages would say about the signature: the answer is the same
    for every non-empty signature and every behaviour of the verification. *)
Theorem live_session_returned_unverified
    (Address_parse : string -> result SignData.Address)
    (Address_toString : SignData.Address -> string)
    (jwt_sign : string -> string -> Z -> Z -> result string)
    (crypto : SignData.Crypto) (resolver : string -> result (option SignData.Buffer))
    (faulty : Faults) (now : Z) (reg : Sessions.Registry) (db : Database)
    (req : SignDataRequest) (addr sid : string) (s : Sessions.SessionData) :
  passesChecks now req ->
  Address_normalize Address_parse Address_toString (address req) = Return addr ->
  Sessions.getUserSession addr reg = Some sid ->
  sid <> ""%string ->
  Sessions.getSession sid reg = Some s ->
  now < Sessions.expiresAt s ->
  createSession Address_parse Address_toString crypto resolver jwt_sign faulty now reg db req
  = (reg, db, SessionJson sid (Sessions.expiresAt s)) /\
  forall crypto' resolver' sig',
    sig' <> ""%string ->
    createSession Address_parse Address_toString crypto' resolver' jwt_sign faulty now reg db
      (withSignature sig' req)
    = (reg, db, SessionJson sid (Sessions.expiresAt s)).
Proof.
  intros Hreq Hnorm Huser Hne Hget Hlive.
  assert (Hfound : liveSessionOf now reg addr = Some (sid, s))
    by (by apply liveSessionOf_Some).
  split.
  - by eapply createSession_existing.
  - intros crypto' resolver' sig' Hsig.
    eapply createSession_existing; [|exact Hnorm|exact Hfound].
    destruct Hreq as (_ & Hrest). split; [exact Hsig|exact Hrest].
Qed.

Lemma live_session_returned_unverified_witness :
  demoCreate rejectAll (firstCallAt + 1000) registryAfterFirst dbAfterFirst
    (withSignature "forged" aliceRequest)
  = (registryAfterFirst, dbAfterFirst,
     SessionJson aliceSessionId (firstCallAt + sessionLifetimeMs)).
Proof.
  refine (proj2 (live_session_returned_unverified demoParse demoToString demoJwt
            acceptAll anyKey noFaults (firstCallAt + 1000)
            registryAfterFirst dbAfterFirst aliceRequest "EQalice" aliceSessionId aliceRecord
            _ _ _ _ _ _) rejectAll anyKey "forged"%string _).
  - apply aliceRequest_passes. vm_compute. discriminate.
  - vm_compute. reflexivity.
  - vm_compute. reflexivity.
  - discriminate.
  - vm_compute. reflexivity.
  - reflexivity.
  - discriminate.
Defined.

(** C4, as stated, fails, in two ways.  By the order of the handler's
    checks: the very request that created the session, sent again six
    minutes later and well before the expiry, is answered 400.  And where
    the by-address map has lost its entry: Alice's renewal answered with her
    second session; the sweep of her first session deleted her by-address
    entry; her next call, 200 seconds after the renewal, is answered with a
    third session id, and a third record is inserted. *)
Lemma second_call_not_idempotent :
  (demoCreate acceptAll firstCallAt Sessions.empty emptyDb aliceRequest
   = (registryAfterFirst, dbAfterFirst,
      SessionJson aliceSessionId (firstCallAt + sessionLifetimeMs)) /\
   firstCallAt + 360000 < firstCallAt + sessionLifetimeMs /\
   demoCreate acceptAll (firstCallAt + 360000) registryAfterFirst dbAfterFirst
     aliceRequest
   = (registryAfterFirst, dbAfterFirst, Status 400 "Подпись устарела")) /\
  (afterRenewal.2 = SessionJson renewedSessionId (renewalAt + sessionLifetimeMs) /\
   thirdCallAt < renewalAt + sessionLifetimeMs /\
   (demoCreate acceptAll thirdCallAt registryAfterSweep dbAfterRenewal
      (aliceRequestAt (renewalAt / 1000))).2
   = SessionJson "jwt:EQalice:1700003900" (thirdCallAt + sessionLifetimeMs) /\
   map ls_session_id
     (listening_sessions
        (demoCreate acceptAll thirdCallAt registryAfterSweep dbAfterRenewal
           (aliceRequestAt (renewalAt / 1000))).1.2)
   = [aliceSessionId; renewedSessionId; "jwt:EQalice:1700003900"%string]).
Proof. repeat split; vm_compute; reflexivity. Qed.

(** C4, amended: when a call has answered with a session, the by-address map
    points to that session; and every later call for the same address, made
    before that session expires and while the by-address map still points
    to it, with a request that passes the handler's preliminary checks, is
    answered with the same session id and expiry and leaves the registry and
    the database as it found them: no second record is inserted.  The
    second call directly after the first is such a call. *)
Theorem session_creation_idempotent
    (Address_parse : string -> result SignData.Address)
    (Address_toString : SignData.Address -> string)
    (jwt_sign : string -> string -> Z -> Z -> result string)
    (crypto1 : SignData.Crypto)
    (resolver1 : string -> result (option SignData.Buffer))
    (faulty1 : Faults) (now1 : Z)
    (reg reg1 : Sessions.Registry) (db db1 : Database)
    (req1 : SignDataRequest) (sid : string) (exp : Z) :
  (forall a d t i s, jwt_sign a d t i = Return s -> s <> ""%string) ->
  createSession Address_parse Address_toString crypto1 resolver1 jwt_sign
    faulty1 now1 reg db req1 = (reg1, db1, SessionJson sid exp) ->
  exists addr s,
    Address_normalize Address_parse Address_toString (address req1) = Return addr /\
    Sessions.getUserSession addr reg1 = Some sid /\
    Sessions.getSession sid reg1 = Some s /\
    Sessions.expiresAt s = exp /\
    (forall crypto2 resolver2 faulty2 now2 reg2 db2 req2,
       Address_normalize Address_parse Address_toString (address req2) = Return addr ->
       passesChecks now2 req2 ->
       now2 < exp ->
       Sessions.getUserSession addr reg2 = Some sid ->
       Sessions.getSession sid reg2 = Some s ->
       createSession Address_parse Address_toString crypto2 resolver2 jwt_sign
         faulty2 now2 reg2 db2 req2 = (reg2, db2, SessionJson sid exp)) /\
    (forall crypto2 resolver2 faulty2 now2 req2,
       Address_normalize Address_parse Address_toString (address req2) = Return addr ->
       passesChecks now2 req2 ->
       now2 < exp ->
       createSession Address_parse Address_toString crypto2 resolver2 jwt_sign
         faulty2 now2 reg1 db1 req2 = (reg1, db1, SessionJson sid exp)).
Proof.
  intros Hjwt Hfirst.
  destruct (createSession_json_live _ _ _ Hjwt _ _ _ _ _ _ _ _ _ _ _ Hfirst)
    as (addr & s & Hnorm & Hexp & Hlive).
  assert (Hidx : Sessions.getUserSession addr reg1 = Some sid /\ sid <> ""%string /\
                 Sessions.getSession sid reg1 = Some s).
  { destruct (proj1 (liveSessionOf_Some (exp - 1) reg1 addr sid s) (Hlive (exp - 1) ltac:(lia)))
      as (Hu & Hne & Hs & _). done. }
  destruct Hidx as (Hu & Hne & Hs).
  exists addr, s. split; [exact Hnorm|]. split; [exact Hu|]. split; [exact Hs|].
  split; [exact Hexp|]. subst exp.
  assert (Hlater : forall crypto2 resolver2 faulty2 now2 reg2 db2 req2,
            Address_normalize Address_parse Address_toString (address req2) = Return addr ->
            passesChecks now2 req2 ->
            now2 < Sessions.expiresAt s ->
            Sessions.getUserSession addr reg2 = Some sid ->
            Sessions.getSession sid reg2 = Some s ->
            createSession Address_parse Address_toString crypto2 resolver2 jwt_sign
              faulty2 now2 reg2 db2 req2
            = (reg2, db2, SessionJson sid (Sessions.expiresAt s))).
  { intros crypto2 resolver2 faulty2 now2 reg2 db2 req2 Hnorm2 Hreq Hbefore Hu2 Hs2.
    eapply createSession_existing; [exact Hreq|exact Hnorm2|].
    by apply liveSessionOf_Some. }
  split; [exact Hlater|].
  intros crypto2 resolver2 faulty2 now2 req2 Hnorm2 Hreq Hbefore.
  by apply Hlater.
Qed.

Lemma session_creation_idempotent_witness :
  demoCreate rejectAll (firstCallAt + 120000) registryAfterFirst dbAfterFirst aliceRequest
  = (registryAfterFirst, dbAfterFirst,
     SessionJson aliceSessionId (firstCallAt + sessionLifetimeMs)).
Proof.
  destruct (session_creation_idempotent demoParse demoToString demoJwt
              acceptAll anyKey noFaults firstCallAt
              Sessions.empty registryAfterFirst emptyDb dbAfterFirst
              aliceRequest aliceSessionId (firstCallAt + sessionLifetimeMs)
              demoJwt_nonempty ltac:(vm_compute; reflexivity))
    as (addr & s & Hnorm & _ & _ & _ & _ & Hsecond).
  apply (Hsecond rejectAll anyKey noFaults (firstCallAt + 120000) aliceRequest).
  - exact Hnorm.
  - apply aliceRequest_passes. vm_compute. discriminate.
  - reflexivity.
Defined.

(** The whole /api/session-listens handler under the flood floor: whichever
    check answers, the listen is not recorded and both counters' tables are
    as before. *)
Lemma sessionListens_flood_refused
    (Address_parse : string -> result SignData.Address)
    (Address_toString : SignData.Address -> string)
    (getNftCollection : string -> result (option string)) (whitelist : list string)
    (faulty : Faults) (now : Z) (db : Database) (session : Sessions.SessionData)
    (nftAddress nft : string) (ts : Z) (row : SessionListenRow) :
  Address_normalize Address_parse Address_toString nftAddress = Return nft ->
  Ledger.lastListenOf (session_listens db) (Sessions.userAddress session) nft = Some row ->
  ts - sl_last_recorded row < Ledger.floodFloorMs ->
  let out := sessionListens Address_parse Address_toString getNftCollection whitelist
               faulty now db session nftAddress ts in
  (forall k, out.2 <> ListenJson k) /\
  session_listens out.1 = session_listens db /\ listens out.1 = listens db.
Proof.
  intros Hnorm Hrow Hsoon. unfold sessionListens.
  destruct (_ || _); [done|].
  destruct (_ >? _); [done|].
  rewrite Hnorm.
  destruct (getNftCollection nft) as [[c|]|e]; cbn [bind]; [|done|done].
  destruct (Address_normalize Address_parse Address_toString c) as [coll|e];
    cbn [bind]; [|done].
  destruct (negb (SignData.includes whitelist coll)); [done|].
  destruct (Detector.detectSuspiciousActivity faulty now db
              (Sessions.userAddress session) nft ts) as [db1 verdict] eqn:Hdetect.
  pose proof (DetectorProps.detect_keeps_ledger faulty now db
                (Sessions.userAddress session) nft ts) as Hkeep.
  rewrite Hdetect in Hkeep. simpl in Hkeep. destruct Hkeep as [Hsl Hl].
  destruct (Detector.isSuspicious verdict); [done|].
  rewrite <- Hsl in Hrow.
  destruct (LedgerProps.recordSessionListen_too_soon faulty now db1
              (Sessions.userAddress session) (Sessions.sessionId session) nft coll ts
              row Hrow Hsoon) as (Hdb & Hout & _).
  destruct (Ledger.recordSessionListen _ _ _ _ _ _ _ _) as [db2 [[k|]|e]];
    simpl in *; subst db2; [by destruct (Hout k)|done|done].
Qed.

(** After the eleven listens of the fixture a twelfth one, 30 seconds later,
    passes every check of the handler and is recorded. *)
Example twelfth_listen_accepted :
  (sessionListens demoParse demoToString demoCollection demoWhitelist noFaults
     (t0 + 330000) afterElevenListens aliceSession "EQnft" (t0 + 330000)).2
  = ListenJson 12.
Proof. vm_compute. reflexivity. Qed.

End SessionRoutesProps.

(** ** Expired sessions: the sweep, the lookups and their callers *)

Module ExpiryProps.
Import Js Sessions SessionRoutes Fixtures.

(** C2, amended: for a record whose [expiresAt] lies in the past.  The
    lookups do not check expiry: right after [addSession] registered it,
    [getSession] returns the record under its id and [getUserSession] its id
    under its address; once a later session is registered for the same
    address, [getUserSession] returns the later id while [getSession] still
    returns the expired record.  Wherever the record is registered, the
    sweep removes it from the by-id map and removes its owner's entry from
    the by-address map; and expiry is checked by the callers: [checkSession]
    answers 401 to its bearer token and removes it in the same way, and the
    lookup of the session-create handler never takes it for a live
    session. *)
Theorem expired_session_swept_or_refused
    (now : Z) (r : Registry) (sid : string) (s : SessionData) :
  expiresAt s < now ->
  (getSession sid (addSession sid s r) = Some s /\
   getUserSession (userAddress s) (addSession sid s r) = Some sid) /\
  (forall sid2 s2, sid2 <> sid -> userAddress s2 = userAddress s ->
     getSession sid (addSession sid2 s2 (addSession sid s r)) = Some s /\
     getUserSession (userAddress s) (addSession sid2 s2 (addSession sid s r)) = Some sid2) /\
  (forall reg, getSession sid reg = Some s ->
     (getSession sid (sessionCleanup now reg) = None /\
      getUserSession (userAddress s) (sessionCleanup now reg) = None) /\
     (forall authHeader,
        String.prefix "Bearer " authHeader = true ->
        split " "%char authHeader !! 1%nat = Some sid ->
        checkSession (Some authHeader) now reg
        = (dropSession sid s reg, Status401 "Сессия истекла") /\
        getSession sid (dropSession sid s reg) = None /\
        getUserSession (userAddress s) (dropSession sid s reg) = None) /\
     (forall addr live, liveSessionOf now reg addr = Some live -> live.1 <> sid)).
Proof.
  intros Hexp. split; [|split].
  - unfold getSession, getUserSession, addSession. simpl.
    by rewrite !lookup_insert_eq.
  - intros sid2 s2 Hne Hsame. unfold getSession, getUserSession, addSession. simpl.
    rewrite lookup_insert_ne by done. rewrite lookup_insert_eq.
    by rewrite Hsame, lookup_insert_eq.
  - intros reg Hs. split; [|split].
    + unfold getSession, getUserSession, sessionCleanup.
      apply SessionsProps.cleanup_fold_expired; [|done]. by apply elem_of_map_to_list.
    + intros authHeader Hpre Htok. split; [|split].
      * unfold checkSession. unfold getSession in Hs. rewrite Hpre, Htok, Hs. simpl.
        assert (Hgt : (now >? expiresAt s) = true) by (apply Z.gtb_lt; lia).
        by rewrite Hgt.
      * unfold getSession, dropSession. simpl. apply lookup_delete_eq.
      * unfold getUserSession, dropSession. simpl. apply lookup_delete_eq.
    + intros addr [sid' s'] Hlive Heq. simpl in Heq. subst sid'.
      apply SessionRoutesProps.liveSessionOf_Some in Hlive as (_ & _ & Hs' & Hlt).
      rewrite Hs in Hs'. injection Hs' as <-. lia.
Qed.

Lemma expired_session_swept_or_refused_witness :
  (getSession "s1" (sessionCleanup 3601000 aliceRegistry) = None /\
   getUserSession "EQalice" (sessionCleanup 3601000 aliceRegistry) = None) /\
  checkSession (Some "Bearer s1"%string) 3601000 aliceRegistry
  = (dropSession "s1" aliceSession aliceRegistry, Status401 "Сессия истекла").
Proof.
  destruct (expired_session_swept_or_refused 3601000 Sessions.empty "s1" aliceSession)
    as (_ & _ & Hreg); [reflexivity|].
  destruct (Hreg aliceRegistry eq_refl) as (Hswept & Hcheck & _).
  split; [exact Hswept|].
  exact (proj1 (Hcheck "Bearer s1"%string eq_refl eq_refl)).
Defined.

End ExpiryProps.

(** * Further properties of the modelled code *)

(** ** The registry: insertion, removal, sweep and the middleware *)

Module RegistryProps.
Import Js Sessions Constraints Fixtures.

Lemma registry_eq (r1 r2 : Registry) :
  activeSessions r1 = activeSessions r2 -> userSessions r1 = userSessions r2 -> r1 = r2.
Proof. destruct r1, r2. simpl. by intros -> ->. Qed.

(** After [addSession] both lookups find the session and every other id and
    address is as before.  A second session of the same address repoints the
    by-address entry only: the earlier session stays registered under its
    id. *)
Theorem addSession_lookups (r : Registry) (sid : string) (s : SessionData) :
  getSession sid (addSession sid s r) = Some s /\
  getUserSession (userAddress s) (addSession sid s r) = Some sid /\
  (forall sid', sid' <> sid -> getSession sid' (addSession sid s r) = getSession sid' r) /\
  (forall a, a <> userAddress s ->
     getUserSession a (addSession sid s r) = getUserSession a r) /\
  (forall sid2 s2, sid2 <> sid -> userAddress s2 = userAddress s ->
     getUserSession (userAddress s) (addSession sid2 s2 (addSession sid s r)) = Some sid2 /\
     getSession sid (addSession sid2 s2 (addSession sid s r)) = Some s).
Proof.
  unfold getSession, getUserSession, addSession. simpl.
  split; [apply lookup_insert_eq|]. split; [apply lookup_insert_eq|].
  split; [intros sid' Hne; by apply lookup_insert_ne|].
  split; [intros a Hne; by apply lookup_insert_ne|].
  intros sid2 s2 Hne Haddr. rewrite Haddr. split; [apply lookup_insert_eq|].
  rewrite lookup_insert_ne; [apply lookup_insert_eq|done].
Qed.

(** [removeSession] undoes [addSession] when neither the id nor the address
    was registered before, and does nothing for an id that is not
    registered. *)
Theorem removeSession_undoes_addSession (r : Registry) (sid : string) (s : SessionData) :
  (getSession sid r = None -> getUserSession (userAddress s) r = None ->
   removeSession sid (addSession sid s r) = r) /\
  (getSession sid r = None -> removeSession sid r = r).
Proof.
  unfold getSession, getUserSession, removeSession. split.
  - intros Hid Haddr. unfold addSession at 1. simpl. rewrite lookup_insert_eq.
    apply registry_eq; simpl.
    + by apply delete_insert_id.
    + by apply delete_insert_id.
  - by intros ->.
Qed.

Lemma removeSession_undoes_addSession_witness :
  removeSession "s1" aliceRegistry = Sessions.empty.
Proof.
  apply (proj1 (removeSession_undoes_addSession Sessions.empty "s1" aliceSession));
    reflexivity.
Defined.

Lemma cleanup_fold_noop (now : Z) (l : list (string * SessionData)) (r : Registry) :
  (forall e, e ∈ l -> expiresAt e.2 >= now) ->
  fold_left (cleanupStep now) l r = r.
Proof.
  revert r. induction l as [|e l IH]; intros r Hlive; simpl; [done|].
  assert (Hstep : cleanupStep now r e = r).
  { unfold cleanupStep. destruct (now >? expiresAt e.2) eqn:Hgt; [|done].
    apply Z.gtb_lt in Hgt. specialize (Hlive e ltac:(by left)). lia. }
  rewrite Hstep. apply IH. intros e' He'. apply Hlive. by right.
Qed.

(** X1: The outcome of the sweep, entry by entry: the by-id map keeps exactly
    the records that have not expired, the by-address map keeps the entry of
    every address none of whose records was swept.  The order in which the
    loop visits the map plays no part. *)
Theorem sessionCleanup_outcome (now : Z) (r : Registry) :
  (forall sid,
     getSession sid (sessionCleanup now r)
     = match getSession sid r with
       | Some s => if now >? expiresAt s then None else Some s
       | None => None
       end) /\
  (forall a,
     (forall sid s, getSession sid r = Some s -> expiresAt s < now -> userAddress s <> a) ->
     getUserSession a (sessionCleanup now r) = getUserSession a r) /\
  (forall sid s, getSession sid r = Some s -> expiresAt s < now ->
     getUserSession (userAddress s) (sessionCleanup now r) = None).
Proof.
  destruct (SessionsProps.sessionCleanup_lookup now r) as [Hid Haddr].
  split; [exact Hid|]. split; [exact Haddr|].
  intros sid s Hs Hexp. unfold getUserSession, sessionCleanup.
  apply (SessionsProps.cleanup_fold_expired now _ _ sid s); [|done].
  by apply elem_of_map_to_list.
Qed.

(** X2: A second sweep at the same time changes nothing. *)
Theorem sessionCleanup_idempotent (now : Z) (r : Registry) :
  sessionCleanup now (sessionCleanup now r) = sessionCleanup now r.
Proof.
  unfold sessionCleanup at 1. apply cleanup_fold_noop.
  intros [sid s] Hin. apply elem_of_map_to_list in Hin. simpl.
  destruct (SessionsProps.sessionCleanup_lookup now r) as [Hid _].
  specialize (Hid sid). unfold getSession in Hid. rewrite Hin in Hid.
  destruct (activeSessions r !! sid) as [s0|]; [|done].
  destruct (now >? expiresAt s0) eqn:Hgt; [done|].
  injection Hid as ->. rewrite Z.gtb_ltb in Hgt. apply Z.ltb_ge in Hgt. lia.
Qed.

(** X3: The sweep deletes the by-address entry of a swept record's owner without
    looking at what the entry points to: when the owner holds another,
    unexpired, session, that session stays registered under its id and the
    address is left with no entry. *)
Theorem sessionCleanup_forgets_renewed_owner
    (now : Z) (r : Registry) (sid1 sid2 : string) (s1 s2 : SessionData) :
  getSession sid1 r = Some s1 -> expiresAt s1 < now ->
  getSession sid2 r = Some s2 -> expiresAt s2 >= now ->
  userAddress s2 = userAddress s1 ->
  getSession sid2 (sessionCleanup now r) = Some s2 /\
  getUserSession (userAddress s2) (sessionCleanup now r) = None.
Proof.
  intros H1 Hexp H2 Hlive Haddr. split.
  - by apply SessionsProps.sessionCleanup_keeps_live.
  - rewrite Haddr. unfold getUserSession, sessionCleanup.
    apply (SessionsProps.cleanup_fold_expired now _ _ sid1 s1); [|done].
    by apply elem_of_map_to_list.
Qed.

Lemma sessionCleanup_forgets_renewed_owner_witness :
  getUserSession "EQalice" aliceRenewedRegistry = Some "s2"%string /\
  getSession "s2" (sessionCleanup 3601000 aliceRenewedRegistry) = Some aliceRenewed /\
  getUserSession "EQalice" (sessionCleanup 3601000 aliceRenewedRegistry) = None.
Proof.
  split; [reflexivity|].
  apply (sessionCleanup_forgets_renewed_owner 3601000 aliceRenewedRegistry
           "s1" "s2" aliceSession aliceRenewed); try reflexivity.
  vm_compute. discriminate.
Defined.

Lemma rev_app_append (cur x s : string) :
  String.rev_app cur x +:+ s = String.rev_app cur (x +:+ s).
Proof. revert x. induction cur as [|c cur IH]; intros x; simpl; [done|]. by rewrite IH. Qed.

Lemma split_acc_no_separator (sep : ascii) (cur s : string) :
  contains sep s = false -> split_acc sep cur s = [String.rev_app cur s].
Proof.
  revert cur. induction s as [|c s IH]; intros cur Hno; simpl in *; [done|].
  apply orb_false_iff in Hno as [Hc Hs]. rewrite Hc. by rewrite IH.
Qed.

Lemma bearer_token (sid : string) :
  contains " " sid = false ->
  split " " ("Bearer " +:+ sid) !! 1%nat = Some sid.
Proof.
  intros Hno. unfold split. simpl. by rewrite split_acc_no_separator.
Qed.

(** X4: What the middleware answers to [Authorization: Bearer <id>] for an id
    without a space: 401 for an id that is not registered; 401, and removal
    from both maps, for a session past its expiry; the session, with the
    registry untouched, otherwise (the instant of expiry included).  Without
    the header the answer is 401 and the registry is untouched. *)
Theorem checkSession_bearer (now : Z) (r : Registry) (sid : string) :
  contains " " sid = false ->
  checkSession (Some ("Bearer " +:+ sid)) now r
  = match getSession sid r with
    | None => (r, Status401 "Недействительная сессия")
    | Some s =>
        if now >? expiresAt s
        then (dropSession sid s r, Status401 "Сессия истекла")
        else (r, Next s)
    end /\
  (forall s, getSession sid r = Some s -> now <= expiresAt s ->
     checkSession (Some ("Bearer " +:+ sid)) now r = (r, Next s)) /\
  checkSession None now r = (r, Status401 "Отсутствует токен сессии").
Proof.
  intros Hno.
  assert (Hmain : checkSession (Some ("Bearer " +:+ sid)) now r
    = match getSession sid r with
      | None => (r, Status401 "Недействительная сессия")
      | Some s =>
          if now >? expiresAt s
          then (dropSession sid s r, Status401 "Сессия истекла")
          else (r, Next s)
      end).
  { unfold checkSession, getSession.
    change (String.prefix "Bearer " ("Bearer " +:+ sid)) with (String.prefix "" sid).
    assert (Hpre : String.prefix "" sid = true) by (by destruct sid).
    rewrite Hpre. simpl negb. cbv iota. by rewrite bearer_token. }
  split; [exact Hmain|]. split; [|done].
  intros s Hs Hle. rewrite Hmain, Hs.
  assert (Hgt : (now >? expiresAt s) = false) by (rewrite Z.gtb_ltb; apply Z.ltb_ge; lia).
  by rewrite Hgt.
Qed.

Lemma checkSession_bearer_witness :
  checkSession (Some "Bearer s1"%string) 3600000 aliceRegistry
  = (aliceRegistry, Next aliceSession).
Proof.
  apply (proj1 (proj2 (checkSession_bearer 3600000 aliceRegistry "s1" eq_refl)));
    [reflexivity|]. vm_compute. discriminate.
Defined.

Lemma dropSession_indexed (r : Registry) (sid : string) (s : SessionData) :
  indexed r ->
  (forall s0, activeSessions r !! sid = Some s0 -> s0 = s) ->
  indexed (dropSession sid s r).
Proof.
  intros Hidx Hsame a sid' Hlook. unfold dropSession in *. simpl in *.
  apply lookup_delete_Some in Hlook as [Hne Hlook].
  destruct (Hidx a sid' Hlook) as (s' & Hs' & Haddr).
  exists s'. split; [|done]. rewrite lookup_delete_ne; [done|].
  intros ->. apply Hsame in Hs'. subst s'. done.
Qed.

Lemma cleanup_fold_indexed (now : Z) (l : list (string * SessionData)) (r : Registry) :
  indexed r ->
  (forall k v v', (k, v) ∈ l -> activeSessions r !! k = Some v' -> v' = v) ->
  indexed (fold_left (cleanupStep now) l r).
Proof.
  revert r. induction l as [|[k v] l IH]; intros r Hidx Hsame; simpl; [done|].
  apply IH.
  - unfold cleanupStep. simpl. destruct (now >? expiresAt v); [|done].
    apply dropSession_indexed; [done|]. intros s0 Hs0. apply (Hsame k v s0); [by left|done].
  - intros k' v' v'' Hin Hlook. apply (Hsame k' v' v''); [by right|].
    unfold cleanupStep in Hlook. simpl in Hlook.
    destruct (now >? expiresAt v); [|done]. simpl in Hlook.
    by apply lookup_delete_Some in Hlook as [_ Hlook].
Qed.

(** X5: The registry's by-address map never dangles: if every entry of it points
    to a registered session of that address, this is still so after
    [addSession] (under an id that is new or already belongs to the same
    address), [removeSession], [checkSession] and the sweep. *)
Theorem registry_index_never_dangles (r : Registry) :
  indexed r ->
  (forall sid s,
     (forall s0, getSession sid r = Some s0 -> userAddress s0 = userAddress s) ->
     indexed (addSession sid s r)) /\
  (forall sid, indexed (removeSession sid r)) /\
  (forall authorization now, indexed (checkSession authorization now r).1) /\
  (forall now, indexed (sessionCleanup now r)).
Proof.
  intros Hidx. split; [|split; [|split]].
  - intros sid s Hsame a sid' Hlook. unfold addSession in *. simpl in *.
    destruct (decide (userAddress s = a)) as [<-|Hne].
    + rewrite lookup_insert_eq in Hlook. injection Hlook as <-.
      exists s. by rewrite lookup_insert_eq.
    + rewrite lookup_insert_ne in Hlook by done.
      destruct (Hidx a sid' Hlook) as (s' & Hs' & Haddr).
      destruct (decide (sid = sid')) as [<-|Hsid].
      * apply Hsame in Hs'. congruence.
      * exists s'. by rewrite lookup_insert_ne.
  - intros sid. unfold removeSession.
    destruct (activeSessions r !! sid) as [s|] eqn:Hs; [|done].
    apply dropSession_indexed; [done|]. intros s0 Hs0. congruence.
  - intros authorization now. unfold checkSession.
    destruct authorization as [h|]; [|done].
    destruct (negb _); [done|].
    destruct (split " " h !! 1%nat) as [sid|]; [|done].
    destruct (activeSessions r !! sid) as [s|] eqn:Hs; [|done].
    destruct (now >? expiresAt s); [|done]. simpl.
    apply dropSession_indexed; [done|]. intros s0 Hs0. congruence.
  - intros now. unfold sessionCleanup. apply cleanup_fold_indexed; [done|].
    intros k v v' Hin Hlook. apply elem_of_map_to_list in Hin. congruence.
Qed.

Lemma aliceRenewedRegistry_indexed : indexed aliceRenewedRegistry.
Proof.
  intros a sid Hlook. unfold aliceRenewedRegistry, aliceRegistry, addSession in *.
  simpl in *. rewrite insert_insert_eq in Hlook.
  destruct (decide (a = "EQalice")) as [->|Hne].
  - rewrite lookup_insert_eq in Hlook. injection Hlook as <-.
    exists aliceRenewed. by rewrite lookup_insert_eq.
  - rewrite lookup_insert_ne in Hlook by done. by rewrite lookup_empty in Hlook.
Qed.

Lemma registry_index_never_dangles_witness :
  indexed (sessionCleanup 3601000 aliceRenewedRegistry).
Proof.
  exact (proj2 (proj2 (proj2 (registry_index_never_dangles aliceRenewedRegistry
                                aliceRenewedRegistry_indexed))) 3601000).
Defined.

End RegistryProps.

(** ** Sign-data: the byte layout of the signed message *)

Module EncodingProps.
Import Js SignData Constraints Fixtures.

Lemma be_bytes_length (w : nat) (v : Z) : length (be_bytes w v) = w.
Proof.
  revert v. induction w as [|w IH]; intros v; simpl; [done|].
  rewrite length_app, IH. simpl. lia.
Qed.

Lemma be_value_snoc (l : list Z) (b : Z) : be_value (l ++ [b]) = be_value l * 256 + b.
Proof. unfold be_value. by rewrite fold_left_app. Qed.

Lemma be_value_be_bytes (w : nat) (v : Z) :
  be_value (be_bytes w v) = v mod 256 ^ Z.of_nat w.
Proof.
  revert v. induction w as [|w IH]; intros v.
  - simpl. by rewrite Z.mod_1_r.
  - cbn [be_bytes]. rewrite be_value_snoc, IH.
    rewrite Nat2Z.inj_succ, Z.pow_succ_r by lia.
    rewrite Z.rem_mul_r by lia. lia.
Qed.

Lemma be_bytes_range (w : nat) (v b : Z) : b ∈ be_bytes w v -> 0 <= b < 256.
Proof.
  revert v. induction w as [|w IH]; intros v Hin; simpl in Hin.
  - by apply elem_of_nil in Hin.
  - apply elem_of_app in Hin as [Hin|Hin]; [by eapply IH|].
    apply list_elem_of_singleton in Hin. subst b. apply Z.mod_pos_bound. lia.
Qed.

Lemma writeUInt32BE_spec (v : Z) (b : Buffer) :
  writeUInt32BE v = Return b ->
  0 <= v < 2 ^ 32 /\ length b = 4%nat /\ be_value b = v /\ forall x, x ∈ b -> 0 <= x < 256.
Proof.
  unfold writeUInt32BE. intros Hb. destruct (_ && _) eqn:Hr; [|done].
  assert (b = be_bytes 4 v) as -> by congruence. clear Hb.
  apply andb_true_iff in Hr as [H0 H1]. apply Z.leb_le in H0, H1.
  split; [lia|]. split; [apply be_bytes_length|]. split; [|apply be_bytes_range].
  rewrite be_value_be_bytes. apply Z.mod_small. lia.
Qed.

Lemma writeBigUInt64BE_spec (v : Z) (b : Buffer) :
  writeBigUInt64BE v = Return b ->
  0 <= v < 2 ^ 64 /\ length b = 8%nat /\ be_value b = v /\ forall x, x ∈ b -> 0 <= x < 256.
Proof.
  unfold writeBigUInt64BE. intros Hb. destruct (_ && _) eqn:Hr; [|done].
  assert (b = be_bytes 8 v) as -> by congruence. clear Hb.
  apply andb_true_iff in Hr as [H0 H1]. apply Z.leb_le in H0. apply Z.ltb_lt in H1.
  split; [lia|]. split; [apply be_bytes_length|]. split; [|apply be_bytes_range].
  rewrite be_value_be_bytes. apply Z.mod_small. lia.
Qed.

Lemma writeInt32BE_spec (v : Z) (b : Buffer) :
  writeInt32BE v = Return b ->
  - 2 ^ 31 <= v < 2 ^ 31 /\ length b = 4%nat /\
  be_value b = (if v <? 0 then v + 2 ^ 32 else v).
Proof.
  unfold writeInt32BE. intros Hb. destruct (_ && _) eqn:Hr; [|done].
  assert (b = be_bytes 4 v) as -> by congruence. clear Hb.
  apply andb_true_iff in Hr as [H0 H1]. apply Z.leb_le in H0, H1.
  split; [lia|]. split; [apply be_bytes_length|]. rewrite be_value_be_bytes.
  change (256 ^ Z.of_nat 4) with (2 ^ 32).
  destruct (v <? 0) eqn:Hneg.
  - apply Z.ltb_lt in Hneg. symmetry. apply (Z.mod_unique_pos _ _ (-1)); lia.
  - apply Z.ltb_ge in Hneg. apply Z.mod_small. lia.
Qed.

(** X6: The buffer writers: a value in range is written on 4 (or 8) bytes, each
    between 0 and 255, from which the value is read back (a negative 32-bit
    value as its two's complement); a value out of range throws. *)
Theorem buffer_writers_roundtrip (v : Z) :
  (forall b, writeUInt32BE v = Return b ->
     length b = 4%nat /\ be_value b = v /\ forall x, x ∈ b -> 0 <= x < 256) /\
  (forall b, writeBigUInt64BE v = Return b ->
     length b = 8%nat /\ be_value b = v /\ forall x, x ∈ b -> 0 <= x < 256) /\
  (forall b, writeInt32BE v = Return b ->
     length b = 4%nat /\ be_value b = (if v <? 0 then v + 2 ^ 32 else v)) /\
  (0 <= v < 2 ^ 32 <-> exists b, writeUInt32BE v = Return b) /\
  (0 <= v < 2 ^ 64 <-> exists b, writeBigUInt64BE v = Return b) /\
  (- 2 ^ 31 <= v < 2 ^ 31 <-> exists b, writeInt32BE v = Return b).
Proof.
  split; [|split; [|split; [|split; [|split]]]].
  - intros b Hb. by apply writeUInt32BE_spec in Hb as (_ & ? & ? & ?).
  - intros b Hb. by apply writeBigUInt64BE_spec in Hb as (_ & ? & ? & ?).
  - intros b Hb. by apply writeInt32BE_spec in Hb as (_ & ? & ?).
  - split; [|intros [b Hb]; by apply writeUInt32BE_spec in Hb as (? & _)].
    intros Hr. unfold writeUInt32BE. destruct (_ && _) eqn:Hb; [eauto|].
    apply andb_false_iff in Hb as [Hb|Hb]; apply Z.leb_gt in Hb; lia.
  - split; [|intros [b Hb]; by apply writeBigUInt64BE_spec in Hb as (? & _)].
    intros Hr. unfold writeBigUInt64BE. destruct (_ && _) eqn:Hb; [eauto|].
    apply andb_false_iff in Hb as [Hb|Hb];
      [apply Z.leb_gt in Hb|apply Z.ltb_ge in Hb]; lia.
  - split; [|intros [b Hb]; by apply writeInt32BE_spec in Hb as (? & _)].
    intros Hr. unfold writeInt32BE. destruct (_ && _) eqn:Hb; [eauto|].
    apply andb_false_iff in Hb as [Hb|Hb]; apply Z.leb_gt in Hb; lia.
Qed.







Lemma dns_fold (label : string -> list Z) (parts : list string) (acc : list Z) :
  fold_left (fun encoded part => encoded ++ label part ++ [0]) parts acc
  = acc ++ concat (map (fun part => label part ++ [0]) parts).
Proof.
  revert acc. induction parts as [|p parts IH]; intros acc; simpl.
  - by rewrite app_nil_r.
  - rewrite IH. by rewrite <- !app_assoc.
Qed.

Lemma split_acc_at_separator (sep : ascii) (cur a b : string) :
  split_acc sep cur (a +:+ String sep b) = split_acc sep cur a ++ split_acc sep "" b.
Proof.
  revert cur. induction a as [|c a IH]; intros cur; simpl.
  - by rewrite Ascii.eqb_refl.
  - destruct (Ascii.eqb c sep); [by rewrite IH|apply IH].
Qed.

Lemma rev_app_length (cur x : string) :
  String.length (String.rev_app cur x) = (String.length cur + String.length x)%nat.
Proof.
  revert x. induction cur as [|c cur IH]; intros x; simpl; [done|].
  rewrite IH. simpl. lia.
Qed.

Lemma char_codes_length (s : string) : length (char_codes s) = String.length s.
Proof. induction s as [|c s IH]; simpl; [done|]. by rewrite IH. Qed.

Lemma split_acc_total_length (sep : ascii) (cur s : string) :
  length (concat (map (fun part => char_codes part ++ [0]) (split_acc sep cur s)))
  = S (String.length cur + String.length s).
Proof.
  revert cur. induction s as [|c s IH]; intros cur; simpl.
  - rewrite app_nil_r, length_app, char_codes_length. unfold String.rev.
    rewrite rev_app_length. simpl. lia.
  - destruct (Ascii.eqb c sep); simpl.
    + rewrite !length_app, char_codes_length, IH. unfold String.rev.
      rewrite rev_app_length. simpl. lia.
    + rewrite IH. simpl. lia.
Qed.

Lemma concat_rev_length {A} (l : list (list A)) :
  length (concat (rev l)) = length (concat l).
Proof.
  induction l as [|x l IH]; simpl; [done|].
  rewrite concat_app, !length_app, IH. simpl. rewrite app_nil_r. lia.
Qed.

Lemma byte_of_range (c : ascii) : 0 <= byte_of c < 256.
Proof.
  unfold byte_of. pose proof (N_ascii_bounded c) as Hb. lia.
Qed.

(** An ASCII character is one code unit, its byte. *)
Lemma code_units_ascii_cons (c : ascii) (rest : string) :
  byte_of c < 128 -> code_units (String c rest) = byte_of c :: code_units rest.
Proof.
  intros Hc.
  assert (H2 : (192 <=? byte_of c) = false) by (apply Z.leb_gt; lia).
  assert (H3 : (224 <=? byte_of c) = false) by (apply Z.leb_gt; lia).
  assert (H4 : (240 <=? byte_of c) = false) by (apply Z.leb_gt; lia).
  remember (code_units rest) as tail eqn:Htail.
  destruct rest as [|c2 [|c3 [|c4 rest]]]; cbn [code_units];
    rewrite ?H2, ?H3, ?H4; cbn [andb]; subst tail; reflexivity.
Qed.

Lemma code_units_ascii (s : string) : isAscii s = true -> code_units s = char_codes s.
Proof.
  induction s as [|c s IH]; [done|]. cbn [isAscii char_codes].
  intros Hs. apply andb_true_iff in Hs as [Hc Hs]. apply Z.ltb_lt in Hc.
  rewrite code_units_ascii_cons by done. by rewrite IH.
Qed.

Lemma Buffer_from_bytes (s : string) : Buffer_from (char_codes s) = char_codes s.
Proof.
  unfold Buffer_from. induction s as [|c s IH]; simpl; [done|].
  rewrite IH. f_equal. change 255 with (Z.ones 8).
  rewrite Z.land_ones by lia. apply Z.mod_small. apply (byte_of_range c).
Qed.

Lemma Buffer_from_app (l1 l2 : list Z) :
  Buffer_from (l1 ++ l2) = Buffer_from l1 ++ Buffer_from l2.
Proof. apply map_app. Qed.

Lemma isAscii_rev_app (cur x : string) :
  isAscii (String.rev_app cur x) = isAscii cur && isAscii x.
Proof.
  revert x. induction cur as [|c cur IH]; intros x; simpl; [done|].
  rewrite IH. simpl. destruct (byte_of c <? 128), (isAscii cur); simpl; try done.
Qed.

Lemma split_acc_ascii (sep : ascii) (cur s : string) :
  isAscii cur = true -> isAscii s = true ->
  Forall (fun part => isAscii part = true) (split_acc sep cur s).
Proof.
  revert cur. induction s as [|c s IH]; intros cur Hcur Hs; simpl in *.
  - constructor; [|constructor]. unfold String.rev. by rewrite isAscii_rev_app, Hcur.
  - apply andb_true_iff in Hs as [Hc Hs].
    destruct (Ascii.eqb c sep).
    + constructor; [|by apply IH]. unfold String.rev. by rewrite isAscii_rev_app, Hcur.
    + apply IH; [|done]. simpl. by rewrite Hc, Hcur.
Qed.

(** On ASCII labels the encoding is made of the bytes of the labels. *)
Lemma encode_ascii_parts (parts : list string) :
  Forall (fun part => isAscii part = true) parts ->
  Buffer_from (concat (map (fun part => code_units part ++ [0]) parts))
  = concat (map (fun part => char_codes part ++ [0]) parts).
Proof.
  induction 1 as [|p parts Hp _ IH]; simpl; [done|].
  rewrite !Buffer_from_app, IH, (code_units_ascii p Hp), Buffer_from_bytes. done.
Qed.

(** X8: [encodeDomainDnsLike] reverses the labels of a domain: the encoding of
    [a.b] is the encoding of [b] followed by the encoding of [a]; a domain
    without a dot is encoded as its UTF-16 code units, each cut to its low
    byte, and a zero byte.  On an ASCII domain these are the bytes of the
    domain, and the encoding is one byte longer than the domain. *)
Theorem encodeDomainDnsLike_labels (a b : string) :
  encodeDomainDnsLike (a +:+ String "." b)
  = encodeDomainDnsLike b ++ encodeDomainDnsLike a /\
  (contains "." a = false ->
   encodeDomainDnsLike a = Buffer_from (code_units a) ++ [0]) /\
  (isAscii a = true ->
   length (encodeDomainDnsLike a) = S (String.length a) /\
   (contains "." a = false -> encodeDomainDnsLike a = char_codes a ++ [0])).
Proof.
  unfold encodeDomainDnsLike, split. split; [|split].
  - rewrite split_acc_at_separator, rev_app_distr, fold_left_app, !dns_fold.
    by rewrite !app_nil_l, Buffer_from_app.
  - intros Hno. rewrite RegistryProps.split_acc_no_separator by done. simpl.
    by rewrite Buffer_from_app.
  - intros Hascii.
    assert (Hparts : Forall (fun part => isAscii part = true) (rev (split_acc "." "" a))).
    { apply Forall_rev. by apply split_acc_ascii. }
    rewrite dns_fold, app_nil_l, (encode_ascii_parts _ Hparts). split.
    + by rewrite map_rev, concat_rev_length, split_acc_total_length.
    + intros Hno. rewrite RegistryProps.split_acc_no_separator by done. simpl.
      by rewrite app_nil_r.
Qed.

Lemma encodeDomainDnsLike_labels_witness :
  encodeDomainDnsLike "localhost" = char_codes "localhost" ++ [0].
Proof.
  exact (proj2 (proj2 (proj2 (encodeDomainDnsLike_labels "localhost" "")) eq_refl)
               eq_refl).
Defined.

(** Outside ASCII the encoding is not the UTF-8 of the labels: the Cyrillic
    letter U+0434 is cut to the byte 0x34, the digit 4. *)
Lemma encodeDomainDnsLike_cuts_code_units :
  encodeDomainDnsLike "д.com" = encodeDomainDnsLike "4.com".
Proof. reflexivity. Qed.

(** X9: An envelope whose timestamp is more than 15 minutes behind the clock is
    rejected, whatever its domain, its signature and the behaviour of the
    external packages. *)
Theorem checkSignData_rejects_stale
    (now_ms : Z) (Address_parse : string -> result Address) (crypto : Crypto)
    (req : CheckSignDataRequestDto)
    (getWalletPublicKey : string -> result (option Buffer)) :
  timestamp req < now_ms / 1000 - 15 * 60 ->
  checkSignData now_ms Address_parse crypto req getWalletPublicKey = Return false.
Proof.
  intros Hstale. unfold checkSignData, checkSignData_try.
  destruct (negb _); [done|].
  assert (Hgt : (now_ms / 1000 - validAuthTime >? timestamp req) = true).
  { apply Z.gtb_lt. unfold validAuthTime. lia. }
  cbv zeta. by rewrite Hgt.
Qed.

Lemma checkSignData_rejects_stale_witness :
  checkSignData 1700000901000 anyAddress acceptAll (envelope "localhost:3000") anyKey
  = Return false /\
  checkSignData 1700000900000 anyAddress acceptAll (envelope "localhost:3000") anyKey
  = Return true.
Proof.
  split; [|vm_compute; reflexivity].
  apply checkSignData_rejects_stale. vm_compute. reflexivity.
Defined.

End EncodingProps.

(** ** The detector: blocks, thresholds and the audit log *)

Module VerdictProps.
Import Js Store Detector Constraints Fixtures.

Lemma blockApplies_true (now : Z) (user : string) (b : UserBlockRow) :
  blockApplies now user b = true <->
  ub_user_address b = user /\ ub_is_active b = true /\
  (ub_blocked_until b = None \/ exists t, ub_blocked_until b = Some t /\ now < t).
Proof.
  unfold blockApplies. rewrite !andb_true_iff, String.eqb_eq.
  destruct (ub_blocked_until b) as [t|].
  - rewrite Z.gtb_lt. split.
    + intros [[? ?] ?]. split; [done|]. split; [done|]. right. by exists t.
    + intros (? & ? & [?|(t' & [= <-] & ?)]); done.
  - split; [intros [[? ?] _]; eauto|intros (? & ? & _); done].
Qed.

(** X10: With a store that answers, [checkUserBlock] says "blocked" exactly when
    the user has a row that is active and whose [blocked_until] is NULL or
    lies ahead; a row whose time has passed does not count, swept or not.
    The reason it reports is the reason of such a row. *)
Theorem checkUserBlock_blocked_iff
    (faulty : Faults) (now : Z) (db : Database) (user : string) :
  faulty SelectUserBlock = false ->
  exists bc,
    checkUserBlock faulty now db user = Return bc /\
    (isBlocked bc = true <->
     exists b, b ∈ user_blocks db /\ ub_user_address b = user /\ ub_is_active b = true /\
               (ub_blocked_until b = None \/
                exists t, ub_blocked_until b = Some t /\ now < t)) /\
    (isBlocked bc = true ->
     exists b, b ∈ user_blocks db /\ blockApplies now user b = true /\
               blockReason bc = Some (ub_reason b)).
Proof.
  intros Hok. unfold checkUserBlock, query. rewrite Hok. simpl.
  destruct (List.filter (blockApplies now user) (user_blocks db)) as [|row rows] eqn:Hf;
    simpl; eexists; (split; [reflexivity|]); simpl.
  - split; [|done]. split; [done|].
    intros (b & Hin & Hb). exfalso.
    assert (Hb' : blockApplies now user b = true) by (by apply blockApplies_true).
    assert (b ∈ List.filter (blockApplies now user) (user_blocks db))
      by (apply list_elem_of_In, filter_In; split; [by apply list_elem_of_In|done]).
    rewrite Hf in H. by apply elem_of_nil in H.
  - assert (Hrow : row ∈ user_blocks db /\ blockApplies now user row = true).
    { assert (Hin : In row (List.filter (blockApplies now user) (user_blocks db)))
        by (rewrite Hf; by left).
      apply filter_In in Hin as [Hin Hp]. split; [by apply list_elem_of_In|done]. }
    destruct Hrow as [Hin Hp]. split.
    + split; [|done]. intros _. exists row. split; [done|]. by apply blockApplies_true.
    + intros _. by exists row.
Qed.

Lemma checkUserBlock_blocked_iff_witness :
  exists bc,
    checkUserBlock noFaults 1000 malloryBlocked "EQmallory" = Return bc /\
    isBlocked bc = true.
Proof.
  destruct (checkUserBlock_blocked_iff noFaults 1000 malloryBlocked "EQmallory" eq_refl)
    as (bc & Hbc & Hiff & _).
  exists bc. split; [exact Hbc|]. apply Hiff.
  eexists. split; [by left|]. split; [reflexivity|]. split; [reflexivity|]. by left.
Defined.

Lemma single_active_row (p : UserBlockRow -> bool) (user : string)
    (rows : list UserBlockRow) (b : UserBlockRow) :
  (forall r, p r = true -> ub_user_address r = user /\ ub_is_active r = true) ->
  NoDup (map ub_user_address (List.filter ub_is_active rows)) ->
  b ∈ rows -> p b = true ->
  List.filter p rows = [b].
Proof.
  intros Hp Hnd Hin Hb.
  assert (Hothers : forall l, NoDup (map ub_user_address (List.filter ub_is_active l)) ->
            user ∉ map ub_user_address (List.filter ub_is_active l) ->
            List.filter p l = []).
  { induction l as [|r l IH]; simpl; intros Hnd' Hnot; [done|].
    destruct (p r) eqn:Hr.
    - apply Hp in Hr as (Hu & Ha). rewrite Ha in Hnot. simpl in Hnot.
      contradict Hnot. rewrite Hu. by left.
    - apply IH.
      + destruct (ub_is_active r); [|done]. simpl in Hnd'.
        by apply NoDup_cons in Hnd' as [_ ?].
      + destruct (ub_is_active r); [|done]. simpl in Hnot.
        by apply not_elem_of_cons in Hnot as [_ ?]. }
  induction rows as [|r rows IH]; [by apply elem_of_nil in Hin|]. simpl.
  apply elem_of_cons in Hin as [<-|Hin].
  - rewrite Hb. f_equal. apply Hp in Hb as (Hu & Ha).
    simpl in Hnd. rewrite Ha in Hnd. simpl in Hnd. apply NoDup_cons in Hnd as [Hnot Hnd].
    apply Hothers; [done|]. by rewrite <- Hu.
  - destruct (p r) eqn:Hr.
    + exfalso. apply Hp in Hr as (Hu & Ha). apply Hp in Hb as (Hu' & Ha').
      simpl in Hnd. rewrite Ha in Hnd. simpl in Hnd. apply NoDup_cons in Hnd as [Hnot _].
      apply Hnot. rewrite Hu, <- Hu'. apply list_elem_of_In, in_map, filter_In.
      split; [by apply list_elem_of_In|done].
    + apply IH; [|done]. simpl in Hnd. destruct (ub_is_active r); [|done].
      simpl in Hnd. by apply NoDup_cons in Hnd as [_ ?].
Qed.

Lemma single_active_block (now : Z) (user : string) (rows : list UserBlockRow)
    (b : UserBlockRow) :
  NoDup (map ub_user_address (List.filter ub_is_active rows)) ->
  b ∈ rows -> blockApplies now user b = true ->
  List.filter (blockApplies now user) rows = [b].
Proof.
  apply (single_active_row _ user). intros r Hr.
  by apply blockApplies_true in Hr as (? & ? & _).
Qed.

(** X11: A blocked user is refused with the reason of the block, before any
    counting: the evaluation answers "suspicious", names the reason of the
    user's active block and writes nothing. *)
Theorem blocked_user_refused_with_reason
    (faulty : Faults) (now : Z) (db : Database) (user nft : string) (ts : Z)
    (b : UserBlockRow) :
  faulty SelectUserBlock = false ->
  oneActiveBlock db ->
  b ∈ user_blocks db ->
  blockApplies now user b = true ->
  detectSuspiciousActivity faulty now db user nft ts
  = (db, {| isSuspicious := true;
            reason := Some ("Пользователь заблокирован: " +:+ ub_reason b) |}).
Proof.
  intros Hok Hone Hin Hb. unfold detectSuspiciousActivity, detect_try, checkUserBlock, query.
  rewrite Hok. simpl. by rewrite (single_active_block now user _ b Hone Hin Hb).
Qed.

Lemma blocked_user_refused_with_reason_witness :
  detectSuspiciousActivity noFaults 1000 malloryBlocked "EQmallory" "EQnft" 1000
  = (malloryBlocked, {| isSuspicious := true;
                        reason := Some "Пользователь заблокирован: abuse"%string |}).
Proof.
  refine (blocked_user_refused_with_reason noFaults 1000 malloryBlocked "EQmallory"
            "EQnft" 1000
            {| ub_user_address := "EQmallory"; ub_reason := "abuse";
               ub_blocked_until := None; ub_is_active := true |} eq_refl _ _ eq_refl).
  - unfold oneActiveBlock. simpl. apply NoDup_singleton.
  - by left.
Defined.

(** X12: The evaluation fails open as a whole: for a user who is not blocked, a
    failure of the connection or of a counting query that is reached ends the
    evaluation with "not suspicious" and nothing written, whatever the
    counts. *)
Theorem evaluation_failure_is_not_suspicious
    (faulty : Faults) (now : Z) (db : Database) (user nft : string) (ts : Z) :
  checkUserBlock faulty now db user = Return {| isBlocked := false; blockReason := None |} ->
  faulty DetectConnect = true \/ faulty SelectHourly = true \/
  (countUserSince db user (now - 60 * 60 * 1000) <= 50 /\
   (faulty SelectDaily = true \/
    (countUserSince db user (now - 24 * 60 * 60 * 1000) <= 500 /\
     faulty SelectSameNft = true))) ->
  detectSuspiciousActivity faulty now db user nft ts
  = (db, {| isSuspicious := false; reason := None |}).
Proof.
  intros Hblock Hfail. unfold detectSuspiciousActivity, detect_try.
  rewrite Hblock. simpl. unfold query.
  destruct (faulty DetectConnect); simpl; [done|].
  destruct (faulty SelectHourly); simpl; [done|].
  destruct Hfail as [?|[?|[Hh Hfail]]]; [done|done|].
  assert (Hh' : (countUserSince db user (now - 60 * 60 * 1000) >? 50) = false)
    by (rewrite Z.gtb_ltb; apply Z.ltb_ge; lia).
  rewrite Hh'. simpl.
  destruct (faulty SelectDaily); simpl; [done|].
  destruct Hfail as [?|[Hd Hs]]; [done|].
  assert (Hd' : (countUserSince db user (now - 24 * 60 * 60 * 1000) >? 500) = false)
    by (rewrite Z.gtb_ltb; apply Z.ltb_ge; lia).
  rewrite Hd'. simpl. by rewrite Hs.
Qed.

Lemma evaluation_failure_is_not_suspicious_witness :
  countUserSince busyBob "EQbob" (4000000 - 60 * 60 * 1000) = 51 /\
  isSuspicious (detectSuspiciousActivity noFaults 4000000 busyBob "EQbob" "EQnft0" 4000000).2
  = true /\
  detectSuspiciousActivity connectFails 4000000 busyBob "EQbob" "EQnft0" 4000000
  = (busyBob, {| isSuspicious := false; reason := None |}).
Proof.
  split; [vm_compute; reflexivity|]. split; [vm_compute; reflexivity|].
  apply evaluation_failure_is_not_suspicious; [vm_compute; reflexivity|by left].
Defined.

Ltac quiet_evaluation Hnone :=
  exists []; split; [exact Hnone|]; split; [simpl; lia|]; split; [done|];
  let row := fresh "row" in let Hrow := fresh "Hrow" in
  intros row Hrow; by apply elem_of_nil in Hrow.

(** What an evaluation does to the database. *)
Lemma detect_only_logs
    (faulty : Faults) (now : Z) (db : Database) (user nft : string) (ts : Z) :
  exists added,
    (detectSuspiciousActivity faulty now db user nft ts).1
    = set_suspicious_activities (suspicious_activities db ++ added) db /\
    (length added <= 1)%nat /\
    (isSuspicious (detectSuspiciousActivity faulty now db user nft ts).2 = false ->
     added = []) /\
    (forall row, row ∈ added -> sa_user_address row = user /\ sa_detected_at row = now).
Proof.
  assert (Hnone : db = set_suspicious_activities (suspicious_activities db ++ []) db).
  { destruct db. unfold set_suspicious_activities. simpl. by rewrite app_nil_r. }
  assert (Hlog : forall ty descr sev meta,
            exists added,
              logSuspiciousActivity faulty now db user ty descr sev meta
              = set_suspicious_activities (suspicious_activities db ++ added) db /\
              (length added <= 1)%nat /\
              (forall row, row ∈ added ->
                 sa_user_address row = user /\ sa_detected_at row = now)).
  { intros. unfold logSuspiciousActivity, query.
    destruct (faulty InsertSuspicious); simpl.
    - exists []. split; [done|]. split; [simpl; lia|]. intros row Hrow.
      by apply elem_of_nil in Hrow.
    - eexists [_]. split; [reflexivity|]. split; [simpl; lia|].
      intros row Hrow. apply list_elem_of_singleton in Hrow. by subst row. }
  unfold detectSuspiciousActivity, detect_try.
  destruct (checkUserBlock faulty now db user) as [[blocked why]|e]; simpl;
    [|quiet_evaluation Hnone].
  destruct blocked; simpl.
  { quiet_evaluation Hnone. }
  unfold query.
  destruct (faulty DetectConnect); simpl.
  { quiet_evaluation Hnone. }
  destruct (faulty SelectHourly); simpl.
  { quiet_evaluation Hnone. }
  destruct (_ >? 50); simpl.
  { match goal with
    | |- context [logSuspiciousActivity faulty now db user ?ty ?d ?sv ?m] =>
        destruct (Hlog ty d sv m) as (added & Heq & Hlen & Hrows)
    end.
    exists added. by rewrite Heq. }
  destruct (faulty SelectDaily); simpl.
  { quiet_evaluation Hnone. }
  destruct (_ >? 500); simpl.
  { match goal with
    | |- context [logSuspiciousActivity faulty now db user ?ty ?d ?sv ?m] =>
        destruct (Hlog ty d sv m) as (added & Heq & Hlen & Hrows)
    end.
    exists added. by rewrite Heq. }
  destruct (faulty SelectSameNft); simpl.
  { quiet_evaluation Hnone. }
  destruct (_ >? 10); simpl.
  { match goal with
    | |- context [logSuspiciousActivity faulty now db user ?ty ?d ?sv ?m] =>
        destruct (Hlog ty d sv m) as (added & Heq & Hlen & Hrows)
    end.
    exists added. by rewrite Heq. }
  quiet_evaluation Hnone.
Qed.

(** X13: The evaluation touches the audit table only, and only by appending: it
    adds at most one record, none when the verdict is "not suspicious", and
    the record it adds carries the user and the time of the evaluation. *)
Theorem evaluation_appends_at_most_one_record
    (faulty : Faults) (now : Z) (db : Database) (user nft : string) (ts : Z) :
  exists added,
    (detectSuspiciousActivity faulty now db user nft ts).1
    = set_suspicious_activities (suspicious_activities db ++ added) db /\
    (length added <= 1)%nat /\
    (isSuspicious (detectSuspiciousActivity faulty now db user nft ts).2 = false ->
     added = []) /\
    (forall row, row ∈ added -> sa_user_address row = user /\ sa_detected_at row = now).
Proof. apply detect_only_logs. Qed.

(** X14: Under the UNIQUE constraint of session_listens and with a store that
    answers, the verdict is decided by the block and the two volume counts
    alone: the user is refused exactly when blocked, or with more than 50
    rows updated in the last hour, or with more than 500 in the last day. *)
Theorem verdict_decided_by_block_and_volume
    (faulty : Faults) (now : Z) (db : Database) (user nft : string) (ts : Z) :
  faulty SelectUserBlock = false -> faulty DetectConnect = false ->
  faulty SelectHourly = false -> faulty SelectDaily = false ->
  faulty SelectSameNft = false ->
  Ledger.uniqueListens db ->
  isSuspicious (detectSuspiciousActivity faulty now db user nft ts).2 = true <->
  (exists b, b ∈ user_blocks db /\ blockApplies now user b = true) \/
  countUserSince db user (now - 60 * 60 * 1000) > 50 \/
  countUserSince db user (now - 24 * 60 * 60 * 1000) > 500.
Proof.
  intros Hb Hc Hh Hd Hs Huniq.
  unfold detectSuspiciousActivity, detect_try, checkUserBlock, query.
  rewrite Hb, Hc, Hh, Hd, Hs. simpl.
  destruct (List.filter (blockApplies now user) (user_blocks db)) as [|row rows] eqn:Hf;
    simpl.
  - assert (Hnoblock : ~ exists b, b ∈ user_blocks db /\ blockApplies now user b = true).
    { intros (b & Hin & Hp).
      assert (Hin' : In b (List.filter (blockApplies now user) (user_blocks db)))
        by (apply filter_In; split; [by apply list_elem_of_In|done]).
      by rewrite Hf in Hin'. }
    destruct (countUserSince db user (now - 60 * 60 * 1000) >? 50) eqn:Hhour; simpl.
    + apply Z.gtb_lt in Hhour. split; [intros _; right; left; lia|done].
    + rewrite Z.gtb_ltb in Hhour. apply Z.ltb_ge in Hhour.
      destruct (countUserSince db user (now - 24 * 60 * 60 * 1000) >? 500) eqn:Hday; simpl.
      * apply Z.gtb_lt in Hday. split; [intros _; right; right; lia|done].
      * rewrite Z.gtb_ltb in Hday. apply Z.ltb_ge in Hday.
        pose proof (RepetitionProps.countSameNftSince_le_1 db user nft
                      (now - 60 * 60 * 1000) Huniq) as Hsame.
        destruct (countSameNftSince db user nft (now - 60 * 60 * 1000) >? 10) eqn:Hrep.
        { apply Z.gtb_lt in Hrep. lia. }
        simpl. split; [done|]. intros [?|[?|?]]; [done|lia|lia].
  - split; [|done]. intros _. left. exists row.
    assert (Hin : In row (List.filter (blockApplies now user) (user_blocks db)))
      by (rewrite Hf; by left).
    apply filter_In in Hin as [Hin Hp]. split; [by apply list_elem_of_In|done].
Qed.

Lemma verdict_decided_by_block_and_volume_witness :
  isSuspicious (detectSuspiciousActivity noFaults 4000000 busyBob "EQbob" "EQnft0" 4000000).2
  = true.
Proof.
  apply (verdict_decided_by_block_and_volume noFaults 4000000 busyBob "EQbob" "EQnft0"
           4000000 eq_refl eq_refl eq_refl eq_refl eq_refl).
  - unfold Ledger.uniqueListens. refine (bool_decide_unpack _ _). vm_compute. exact I.
  - right. left. vm_compute. reflexivity.
Defined.

End VerdictProps.

(** ** Blocking a user and sweeping lapsed blocks *)

Module AdminProps.
Import Js Store Detector Admin Constraints Fixtures.

Section Block.
Variable Address_normalize : string -> result string.
Variable envAdminKey : option string.

(** What a successful call did. *)
Lemma blockUser_inv (faulty : AdminStmt -> bool) (now : Z) (db db' : Database)
    (adminKey : option string) (userAddress reason : string) (hours : Z)
    (addr r : string) (until : option Z) :
  blockUser Address_normalize envAdminKey faulty now db adminKey userAddress reason hours
  = (db', BlockedJson addr r until) ->
  adminKey = envAdminKey /\ Address_normalize userAddress = Return addr /\ r = reason /\
  until = (if 0 <? hours then Some (now + hours * 60 * 60 * 1000) else None) /\
  List.filter (fun b => String.eqb (ub_user_address b) addr && ub_is_active b)
    (user_blocks db) = [] /\
  db' = set_listening_sessions
          (deactivateSessionsOf addr (listening_sessions db))
          (set_user_blocks
             (user_blocks db ++
              [{| ub_user_address := addr; ub_reason := reason;
                  ub_blocked_until := until; ub_is_active := true |}]) db).
Proof.
  unfold blockUser, wrongAdminKey.
  destruct (bool_decide (adminKey = envAdminKey)) eqn:Hkey; simpl; [|done].
  apply bool_decide_eq_true in Hkey.
  destruct (_ || _); [done|].
  destruct (Address_normalize userAddress) as [a|e]; [|done].
  unfold adminQuery. destruct (faulty BlockConnect); [done|].
  unfold blockTransaction, adminQuery.
  destruct (faulty BlockBegin); simpl; [done|].
  destruct (faulty SelectActiveBlock); simpl; [done|].
  destruct (List.filter _ (user_blocks db)) as [|x xs] eqn:Hf; simpl.
  - destruct (faulty InsertBlock); simpl; [done|].
    destruct (faulty DeactivateSessions); simpl; [done|].
    destruct (faulty BlockCommit); simpl; [done|].
    intros [= <- <- <- <-]. done.
  - by destruct (faulty BlockRollback).
Qed.

(** X15: Once the handler has answered that the user is blocked, every
    evaluation of that user is "suspicious" for as long as the block runs
    (for good when no duration was given), provided the block lookup
    answers. *)
Theorem blocked_by_admin_is_refused
    (faulty : AdminStmt -> bool) (now : Z) (db db' : Database)
    (adminKey : option string) (userAddress reason : string) (hours : Z)
    (addr r : string) (until : option Z) :
  blockUser Address_normalize envAdminKey faulty now db adminKey userAddress reason hours
  = (db', BlockedJson addr r until) ->
  until = (if 0 <? hours then Some (now + hours * 60 * 60 * 1000) else None) /\
  forall storeFaults now' nft ts,
    storeFaults SelectUserBlock = false ->
    (until = None \/ exists t, until = Some t /\ now' < t) ->
    isSuspicious (detectSuspiciousActivity storeFaults now' db' addr nft ts).2 = true.
Proof.
  intros Hblock. apply blockUser_inv in Hblock as (_ & _ & _ & Huntil & _ & ->).
  split; [exact Huntil|].
  intros storeFaults now' nft ts Hok Hruns.
  unfold detectSuspiciousActivity, detect_try, checkUserBlock, query. rewrite Hok. simpl.
  rewrite List.filter_app. simpl.
  assert (Hnew : blockApplies now' addr
            {| ub_user_address := addr; ub_reason := reason;
               ub_blocked_until := until; ub_is_active := true |} = true).
  { apply VerdictProps.blockApplies_true. simpl. done. }
  rewrite Hnew. by destruct (List.filter _ (user_blocks db)).
Qed.

(** X16: The handler keeps the rule "one active block per user", changes nothing
    unless it answers that the user is blocked, and answers 403 when the
    supplied key differs from the configured one. *)
Theorem blockUser_keeps_one_active_block
    (faulty : AdminStmt -> bool) (now : Z) (db : Database)
    (adminKey : option string) (userAddress reason : string) (hours : Z) :
  let out := blockUser Address_normalize envAdminKey faulty now db adminKey
               userAddress reason hours in
  (oneActiveBlock db -> oneActiveBlock out.1) /\
  ((forall a r u, out.2 <> BlockedJson a r u) -> out.1 = db) /\
  (adminKey <> envAdminKey -> out = (db, BlockStatus 403 "Неверный админ ключ")).
Proof.
  intros out. split; [|split].
  - intros Hone. destruct out as [db' resp] eqn:Hout. subst out. simpl.
    destruct resp as [a r u|code e].
    + apply blockUser_inv in Hout as (_ & _ & _ & _ & Hnone & ->).
      unfold oneActiveBlock in *. simpl. rewrite List.filter_app, map_app. simpl.
      apply NoDup_app. split; [done|]. split; [|apply NoDup_singleton].
      intros x Hx Hx'. apply list_elem_of_singleton in Hx'. subst x.
      apply list_elem_of_In, in_map_iff in Hx as (b & Hb & Hin).
      apply filter_In in Hin as [Hin Hact].
      assert (Hin' : In b (List.filter
                (fun b => String.eqb (ub_user_address b) a && ub_is_active b)
                (user_blocks db))).
      { apply filter_In. split; [done|]. by rewrite Hb, String.eqb_refl, Hact. }
      by rewrite Hnone in Hin'.
    + revert Hout. unfold blockUser, blockTransaction, adminQuery.
      repeat (match goal with
              | |- context [if ?b then _ else _] => destruct b
              | |- context [match Address_normalize ?x with _ => _ end] =>
                  destruct (Address_normalize x)
              | |- context [match List.filter ?f ?l with _ => _ end] =>
                  destruct (List.filter f l)
              end; simpl); try done; by intros [= <-].
  - subst out. unfold blockUser, blockTransaction, adminQuery.
    repeat (match goal with
            | |- context [if ?b then _ else _] => destruct b
            | |- context [match Address_normalize ?x with _ => _ end] =>
                destruct (Address_normalize x)
            | |- context [match List.filter ?f ?l with _ => _ end] =>
                destruct (List.filter f l)
            end; simpl); try done.
    all: intros Hnot; by destruct (Hnot _ _ _ eq_refl).
  - intros Hne. subst out. unfold blockUser, wrongAdminKey.
    by rewrite bool_decide_eq_false_2.
Qed.

End Block.

(** The sweep statement, row by row. *)
Lemma deactivate_row_applies (t now : Z) (user : string) (b : UserBlockRow) :
  t <= now ->
  blockApplies now user
    (if match ub_blocked_until b with
        | Some u => (u <? t) && ub_is_active b
        | None => false
        end
     then {| ub_user_address := ub_user_address b; ub_reason := ub_reason b;
             ub_blocked_until := ub_blocked_until b; ub_is_active := false |}
     else b) = blockApplies now user b.
Proof.
  intros Hle. destruct (ub_blocked_until b) as [u|] eqn:Hu; [|done].
  destruct ((u <? t) && ub_is_active b) eqn:Hc; [|done].
  apply andb_true_iff in Hc as [Hlt Hact]. apply Z.ltb_lt in Hlt.
  unfold blockApplies. simpl. rewrite Hu, Hact, andb_false_r. simpl.
  rewrite andb_true_r. symmetry. apply andb_false_iff. right. rewrite Z.gtb_ltb. apply Z.ltb_ge. lia.
Qed.

Lemma deactivate_filter_applies (t now : Z) (user : string) (db : Database) :
  t <= now ->
  List.filter (blockApplies now user) (user_blocks (deactivateExpiredBlocks t db))
  = List.filter (blockApplies now user) (user_blocks db).
Proof.
  intros Hle. unfold deactivateExpiredBlocks. simpl.
  induction (user_blocks db) as [|b l IH]; simpl; [done|].
  rewrite (deactivate_row_applies t now user b Hle), IH.
  destruct (blockApplies now user b) eqn:Hb; [|done].
  f_equal. destruct (ub_blocked_until b) as [u|] eqn:Hu; [|done].
  destruct ((u <? t) && ub_is_active b) eqn:Hc; [|done].
  apply andb_true_iff in Hc as [Hlt _]. apply Z.ltb_lt in Hlt.
  apply VerdictProps.blockApplies_true in Hb as (_ & _ & [Hn|(u' & Hu' & Hlt')]);
    rewrite Hu in *; [done|]. injection Hu' as <-. lia.
Qed.

Lemma deactivate_active_sublist (t : Z) (l : list UserBlockRow) :
  sublist
    (map ub_user_address
       (List.filter ub_is_active
          (map (fun b =>
                  if match ub_blocked_until b with
                     | Some u => (u <? t) && ub_is_active b
                     | None => false
                     end
                  then {| ub_user_address := ub_user_address b; ub_reason := ub_reason b;
                          ub_blocked_until := ub_blocked_until b; ub_is_active := false |}
                  else b) l)))
    (map ub_user_address (List.filter ub_is_active l)).
Proof.
  induction l as [|b l IH]; simpl; [constructor|].
  destruct (ub_blocked_until b) as [u|] eqn:Hu.
  - destruct ((u <? t) && ub_is_active b) eqn:Hc; simpl.
    + apply andb_true_iff in Hc as [_ ->]. simpl. by apply sublist_cons.
    + destruct (ub_is_active b); simpl; [by apply sublist_skip|done].
  - destruct (ub_is_active b); simpl; [by apply sublist_skip|done].
Qed.

(** X17: Sweeping the blocks that ran out before [t] changes no answer of the
    block lookup and no verdict of the detector at any later time, and keeps
    the rule "one active block per user". *)
Theorem block_sweep_changes_no_verdict
    (faulty : Faults) (t now : Z) (db : Database) (user nft : string) (ts : Z) :
  t <= now ->
  checkUserBlock faulty now (deactivateExpiredBlocks t db) user
  = checkUserBlock faulty now db user /\
  (detectSuspiciousActivity faulty now (deactivateExpiredBlocks t db) user nft ts).2
  = (detectSuspiciousActivity faulty now db user nft ts).2 /\
  (oneActiveBlock db -> oneActiveBlock (deactivateExpiredBlocks t db)).
Proof.
  intros Hle.
  assert (Hcheck : checkUserBlock faulty now (deactivateExpiredBlocks t db) user
                   = checkUserBlock faulty now db user).
  { unfold checkUserBlock. by rewrite deactivate_filter_applies. }
  split; [exact Hcheck|]. split.
  - unfold detectSuspiciousActivity, detect_try. rewrite Hcheck.
    destruct (checkUserBlock faulty now db user) as [bc|e]; simpl; [|done].
    destruct (isBlocked bc); [done|].
    unfold countUserSince, countSameNftSince, logSuspiciousActivity, query.
    simpl.
    repeat (match goal with
            | |- context [if ?b then _ else _] => destruct b
            end; simpl); done.
  - unfold oneActiveBlock, deactivateExpiredBlocks. simpl.
    intros Hone. exact (sublist_NoDup _ _ Hone (deactivate_active_sublist t _)).
Qed.

Lemma block_sweep_changes_no_verdict_witness :
  500 <= 1000 /\
  isBlocked
    (match checkUserBlock noFaults 1000 (deactivateExpiredBlocks 500 carolLapsed) "EQcarol" with
     | Return bc => bc
     | Throw _ => {| isBlocked := true; blockReason := None |}
     end) = false.
Proof.
  split; [lia|].
  destruct (block_sweep_changes_no_verdict noFaults 500 1000 carolLapsed
              "EQcarol" "EQnft" 0 ltac:(lia)) as (-> & _ & _).
  reflexivity.
Defined.

Lemma filter_nil_of_all_false {A} (p : A -> bool) (l : list A) :
  (forall x, In x l -> p x = false) -> List.filter p l = [].
Proof.
  induction l as [|x l IH]; simpl; intros H; [done|].
  rewrite (H x (or_introl eq_refl)). apply IH. intros y Hy. apply H. by right.
Qed.

(** X18: A block that has run out but has not been swept no longer stops the
    user, yet still stops the administrator: the detector's lookup answers
    "not blocked", the handler refuses a new block with 400 "already
    blocked", and only after the sweep does the same request succeed. *)
Theorem lapsed_block_refuses_new_block_until_swept
    (Address_normalize : string -> result string) (key : option string)
    (now : Z) (db : Database) (userAddress reason addr : string) (hours : Z)
    (b : UserBlockRow) (t : Z) :
  oneActiveBlock db ->
  b ∈ user_blocks db -> ub_user_address b = addr -> ub_is_active b = true ->
  ub_blocked_until b = Some t -> t < now ->
  userAddress <> "" -> reason <> "" -> Address_normalize userAddress = Return addr ->
  checkUserBlock noFaults now db addr
  = Return {| isBlocked := false; blockReason := None |} /\
  blockUser Address_normalize key noAdminFaults now db key userAddress reason hours
  = (db, BlockStatus 400 "Пользователь уже заблокирован") /\
  exists until,
    (blockUser Address_normalize key noAdminFaults now (deactivateExpiredBlocks now db)
       key userAddress reason hours).2 = BlockedJson addr reason until.
Proof.
  intros Hone Hin Haddr Hact Hu Hlt Hne Hre Hnorm.
  assert (Hsel : List.filter
            (fun r => String.eqb (ub_user_address r) addr && ub_is_active r)
            (user_blocks db) = [b]).
  { apply (VerdictProps.single_active_row _ addr); [|exact Hone|exact Hin|].
    - intros r Hr. apply andb_true_iff in Hr as [Hr ?]. by apply String.eqb_eq in Hr.
    - by rewrite Haddr, String.eqb_refl, Hact. }
  assert (Hkey : wrongAdminKey key key = false).
  { unfold wrongAdminKey. by rewrite bool_decide_eq_true_2. }
  assert (Hfields : String.eqb userAddress "" || String.eqb reason "" = false).
  { apply orb_false_iff. by rewrite !String.eqb_neq. }
  split; [|split].
  - unfold checkUserBlock, query. simpl.
    rewrite filter_nil_of_all_false; [done|].
    intros r Hr. destruct (blockApplies now addr r) eqn:Happ; [|done].
    assert (Hr' : In r (List.filter
              (fun r => String.eqb (ub_user_address r) addr && ub_is_active r)
              (user_blocks db))).
    { apply filter_In. split; [done|].
      apply VerdictProps.blockApplies_true in Happ as (-> & -> & _).
      by rewrite String.eqb_refl. }
    rewrite Hsel in Hr'. destruct Hr' as [<-|[]].
    apply VerdictProps.blockApplies_true in Happ as (_ & _ & [Hn|(t' & Ht' & Hlt')]);
      rewrite Hu in *; [done|]. injection Ht' as <-. lia.
  - unfold blockUser. rewrite Hkey, Hfields, Hnorm. simpl.
    unfold blockTransaction, adminQuery. simpl. by rewrite Hsel.
  - unfold blockUser. rewrite Hkey, Hfields, Hnorm. simpl.
    unfold blockTransaction, adminQuery. simpl.
    rewrite filter_nil_of_all_false; [simpl; eauto|].
    intros r' Hr'. apply in_map_iff in Hr' as (r & <- & Hr).
    match goal with |- ?p ?x = false => destruct (p x) eqn:Hp end; [|done].
    exfalso. apply andb_true_iff in Hp as [Hp1 Hp2].
    destruct (ub_blocked_until r) as [u|] eqn:Hur.
    + destruct ((u <? now) && ub_is_active r) eqn:Hc; [done|].
      assert (Hrb : In r [b]).
      { rewrite <- Hsel. apply filter_In. split; [done|]. by rewrite Hp1, Hp2. }
      destruct Hrb as [<-|[]]. rewrite Hu in Hur. injection Hur as <-.
      rewrite Hact, andb_true_r in Hc. apply Z.ltb_ge in Hc. lia.
    + assert (Hrb : In r [b]).
      { rewrite <- Hsel. apply filter_In. split; [done|]. by rewrite Hp1, Hp2. }
      destruct Hrb as [<-|[]]. by rewrite Hu in Hur.
Qed.

Lemma lapsed_block_refuses_new_block_until_swept_witness :
  blockUser Return (Some "secret") noAdminFaults 1000 carolLapsed (Some "secret")
    "EQcarol" "again" 1
  = (carolLapsed, BlockStatus 400 "Пользователь уже заблокирован").
Proof.
  refine (proj1 (proj2 (lapsed_block_refuses_new_block_until_swept
            Return (Some "secret") 1000 carolLapsed "EQcarol" "again" "EQcarol" 1
            {| ub_user_address := "EQcarol"; ub_reason := "spam";
               ub_blocked_until := Some 500; ub_is_active := true |} 500
            _ _ eq_refl eq_refl eq_refl _ _ _ eq_refl))).
  - unfold oneActiveBlock. simpl. apply NoDup_singleton.
  - simpl. apply list_elem_of_singleton. reflexivity.
  - lia.
  - discriminate.
  - discriminate.
Defined.

Lemma blocked_by_admin_is_refused_witness :
  isSuspicious
    (detectSuspiciousActivity noFaults 2000
       (blockUser Return (Some "secret") noAdminFaults 1000 emptyDb (Some "secret")
          "EQcarol" "spam" 0).1 "EQcarol" "EQnft" 2000).2 = true.
Proof.
  refine (proj2 (blocked_by_admin_is_refused Return (Some "secret") noAdminFaults 1000
            emptyDb _ (Some "secret") "EQcarol" "spam" 0 "EQcarol" "spam" None eq_refl)
            noFaults 2000 "EQnft" 2000 eq_refl (or_introl eq_refl)).
Defined.

Lemma blockUser_keeps_one_active_block_witness :
  oneActiveBlock
    (blockUser Return (Some "secret") noAdminFaults 1000 carolLapsed (Some "secret")
       "EQdave" "spam" 24).1.
Proof.
  refine (proj1 (blockUser_keeps_one_active_block Return (Some "secret") noAdminFaults 1000
            carolLapsed (Some "secret") "EQdave" "spam" 24) _).
  unfold oneActiveBlock. simpl. apply NoDup_singleton.
Defined.

End AdminProps.

(** ** The listen transaction: atomicity, acceptance, schema constraints *)

Module TransactionProps.
Import Js Store Ledger Constraints Fixtures.

Ltac run_transaction :=
  unfold recordSessionListen, listenTransaction, query;
  repeat (match goal with
          | |- context [if ?b then _ else _] => destruct b
          | |- context [upsertSessionListen ?a ?b ?c ?d ?e ?f ?g] =>
              destruct (upsertSessionListen a b c d e f g) as [[? ?]|?]
          | |- context [sessionsAfterUpsert ?a ?b ?c ?d ?e] =>
              destruct (sessionsAfterUpsert a b c d e)
          | |- context [upsertListens ?a ?b ?c ?d] =>
              destruct (upsertListens a b c d)
          end; simpl).

Lemma not_recorded_unchanged (faulty : Faults) (now : Z) (db : Database)
    (u sid n coll : string) (ts : Z) :
  (forall k, (recordSessionListen faulty now db u sid n coll ts).2 <> Return (Recorded k)) ->
  (recordSessionListen faulty now db u sid n coll ts).1 = db.
Proof.
  run_transaction; try done.
  all: intros Hnot; by destruct (Hnot _ eq_refl).
Qed.

Lemma sessionsAfterUpsert_known (now : Z) (db : Database) (u n sid : string) :
  referencesSession (listening_sessions db) sid = true ->
  sessionsAfterUpsert now db u n sid
  = Return (match listenRow db u n with
            | Some _ => listening_sessions db
            | None => update_session_activity now sid (listening_sessions db)
            end).
Proof.
  intros Href. unfold sessionsAfterUpsert, listenRow.
  destruct (find (sameListen u n) (session_listens db)); rewrite Href; [|done].
  by rewrite orb_true_r.
Qed.

Lemma sessionsAfterUpsert_inv (now : Z) (db : Database) (u n sid : string)
    (sessions : list ListeningSessionRow) :
  sessionsAfterUpsert now db u n sid = Return sessions ->
  match listenRow db u n with
  | Some old =>
      sessions = listening_sessions db /\
      (sl_session_id old = sid \/ referencesSession (listening_sessions db) sid = true)
  | None =>
      sessions = update_session_activity now sid (listening_sessions db) /\
      referencesSession (listening_sessions db) sid = true
  end.
Proof.
  unfold sessionsAfterUpsert, listenRow.
  destruct (find (sameListen u n) (session_listens db)) as [old|].
  - destruct (String.eqb (sl_session_id old) sid) eqn:Hsame; simpl.
    + intros [= <-]. split; [done|]. left. by apply String.eqb_eq.
    + destruct (referencesSession _ sid); [|done]. intros [= <-]. split; [done|]. by right.
  - destruct (referencesSession _ sid); [|done]. by intros [= <-].
Qed.

(** X20: The listen transaction is all or nothing: whatever statements fail, a
    call that does not answer "recorded" leaves the database as it was, and
    no call ever touches the tables of blocks, suspicious activities or API
    keys.  Of listening_sessions a recorded call changes one thing only,
    through the trigger on session_listens: when the pair had no row, the
    last_activity of the session's row becomes the time of the call; when
    the pair had a row, nothing.  A call is recorded only if the foreign key
    holds: the session has its row in listening_sessions, or the pair's row
    already carried this session id. *)
Theorem listen_all_or_nothing (faulty : Faults) (now : Z) (db : Database)
    (u sid n coll : string) (ts : Z) :
  let out := recordSessionListen faulty now db u sid n coll ts in
  ((forall k, out.2 <> Return (Recorded k)) -> out.1 = db) /\
  user_blocks out.1 = user_blocks db /\
  suspicious_activities out.1 = suspicious_activities db /\
  api_keys out.1 = api_keys db /\
  (forall k, out.2 = Return (Recorded k) ->
     match listenRow db u n with
     | Some old =>
         listening_sessions out.1 = listening_sessions db /\
         (sl_session_id old = sid \/ referencesSession (listening_sessions db) sid = true)
     | None =>
         listening_sessions out.1
         = update_session_activity now sid (listening_sessions db) /\
         referencesSession (listening_sessions db) sid = true
     end).
Proof.
  intros out. split; [apply not_recorded_unchanged|].
  split; [subst out; run_transaction; done|].
  split; [subst out; run_transaction; done|].
  split; [subst out; run_transaction; done|].
  intros k Hk. subst out.
  destruct (recordSessionListen faulty now db u sid n coll ts) as [db' res] eqn:Hrun.
  simpl in Hk. subst res.
  apply LedgerProps.recorded_inv in Hrun as (sl & cnt & l & sessions & _ & _ & _ & Hs & ->).
  simpl. apply sessionsAfterUpsert_inv in Hs.
  destruct (listenRow db u n); exact Hs.
Qed.

Lemma int4_in_range (v : Z) :
  -2147483648 <= v <= 2147483647 -> int4 v = Return v.
Proof.
  intros [Hlo Hhi]. unfold int4.
  apply Z.leb_le in Hlo, Hhi. by rewrite Hlo, Hhi.
Qed.

(** X21: A listen that keeps the 30-second distance from the pair's last one is
    recorded when the store answers, the session has its row in
    listening_sessions and the counters have room: the call answers the
    pair's count plus one, both counters grow by one and the pair's
    last-recorded time becomes the request's timestamp; the trigger stamps
    the session's row when the pair is new. *)
Theorem spaced_listen_is_recorded (now : Z) (db : Database)
    (u sid n coll : string) (ts : Z) :
  (forall row, lastListenOf (session_listens db) u n = Some row ->
               sl_last_recorded row + floodFloorMs <= ts) ->
  referencesSession (listening_sessions db) sid = true ->
  0 <= userCount db u n < 2147483647 ->
  0 <= aggregateCount db n < 2147483647 ->
  let out := recordSessionListen noFaults now db u sid n coll ts in
  out.2 = Return (Recorded (userCount db u n + 1)) /\
  userCount out.1 u n = userCount db u n + 1 /\
  aggregateCount out.1 n = aggregateCount db n + 1 /\
  lastRecorded out.1 u n = Some ts /\
  listening_sessions out.1
  = match listenRow db u n with
    | Some _ => listening_sessions db
    | None => update_session_activity now sid (listening_sessions db)
    end.
Proof.
  intros Hspaced Href Hu Ha out.
  assert (Hsl : exists sl, upsertSessionListen now (session_listens db) u n coll sid ts
                           = Return (sl, userCount db u n + 1)).
  { unfold upsertSessionListen, userCount, listenRow in *.
    destruct (find (sameListen u n) (session_listens db)) as [old|]; simpl in *.
    - rewrite int4_in_range by lia. simpl. eauto.
    - eauto. }
  destruct Hsl as (sl & Hsl).
  assert (Hl : exists l, upsertListens now (listens db) n coll = Return l).
  { unfold upsertListens, aggregateCount in *.
    destruct (find (sameNft n) (listens db)) as [old|]; simpl in *.
    - rewrite int4_in_range by lia. simpl. eauto.
    - eauto. }
  destruct Hl as (l & Hl).
  pose proof (sessionsAfterUpsert_known now db u n sid Href) as Hsess.
  assert (Hrun : recordSessionListen noFaults now db u sid n coll ts
                 = (set_listening_sessions
                      (match listenRow db u n with
                       | Some _ => listening_sessions db
                       | None => update_session_activity now sid (listening_sessions db)
                       end)
                      (set_ledger sl (upsertNft now (nfts db) n coll) l db),
                    Return (Recorded (userCount db u n + 1)))).
  { unfold recordSessionListen, listenTransaction, query. simpl.
    destruct (lastListenOf (session_listens db) u n) as [row|] eqn:Hlast.
    - specialize (Hspaced row eq_refl).
      assert (Hno : (ts - sl_last_recorded row <? floodFloorMs) = false)
        by (apply Z.ltb_ge; lia).
      rewrite Hno, Hsl. simpl. rewrite Hsess. simpl. rewrite Hl. simpl.
      destruct (userCount db u n + 1 =? 0) eqn:Hz; [apply Z.eqb_eq in Hz; lia|done].
    - rewrite Hsl. simpl. rewrite Hsess. simpl. rewrite Hl. simpl.
      destruct (userCount db u n + 1 =? 0) eqn:Hz; [apply Z.eqb_eq in Hz; lia|done]. }
  subst out. rewrite Hrun. simpl. split; [done|].
  apply LedgerProps.upsertSessionListen_same in Hsl as (row & Hrow & Hcount & Hts).
  apply LedgerProps.upsertListens_same in Hl.
  unfold userCount, lastRecorded, listenRow, aggregateCount in *. simpl.
  rewrite Hrow. simpl. rewrite Hcount, Hts, Hl. done.
Qed.

Lemma spaced_listen_is_recorded_witness :
  (recordSessionListen noFaults t0 ledgerStart "EQalice" "s1" "EQnft" "EQcoll" t0).2
  = Return (Recorded (userCount ledgerStart "EQalice" "EQnft" + 1)).
Proof.
  refine (proj1 (spaced_listen_is_recorded t0 ledgerStart "EQalice" "s1" "EQnft" "EQcoll" t0
                   _ eq_refl _ _)).
  - intros row Hrow. discriminate Hrow.
  - vm_compute. split; [discriminate|reflexivity].
  - vm_compute. split; [discriminate|reflexivity].
Defined.

Lemma upsertListens_keys (now : Z) (rows l : list ListenRow) (n coll : string) :
  upsertListens now rows n coll = Return l ->
  NoDup (map l_nft_address rows) -> NoDup (map l_nft_address l).
Proof.
  unfold upsertListens. destruct (find (sameNft n) rows) as [old|] eqn:Hfind; simpl.
  - destruct (int4 _) as [c|e]; simpl; [|done]. intros [= <-] Hnd.
    rewrite map_map.
    erewrite map_ext; [exact Hnd|]. intros r. simpl. by destruct (sameNft n r).
  - intros [= <-] Hnd. rewrite map_app. simpl.
    apply NoDup_app. split; [done|]. split; [|apply NoDup_singleton].
    intros x Hx Hx'. apply list_elem_of_singleton in Hx'. subst x.
    apply list_elem_of_In, in_map_iff in Hx as (r & Hr & Hin).
    apply (find_none _ _ Hfind) in Hin. unfold sameNft in Hin.
    by rewrite Hr, String.eqb_refl in Hin.
Qed.

Lemma upsertNft_keys (now : Z) (rows : list NftRow) (n coll : string) :
  NoDup (map n_address rows) -> NoDup (map n_address (upsertNft now rows n coll)).
Proof.
  intros Hnd. unfold upsertNft.
  destruct (existsb _ rows) eqn:Hex.
  - rewrite map_map. erewrite map_ext; [exact Hnd|].
    intros r. simpl. by destruct (String.eqb (n_address r) n).
  - rewrite map_app. simpl.
    apply NoDup_app. split; [done|]. split; [|apply NoDup_singleton].
    intros x Hx Hx'. apply list_elem_of_singleton in Hx'. subst x.
    apply list_elem_of_In, in_map_iff in Hx as (r & Hr & Hin).
    assert (Hex' : existsb (fun r => String.eqb (n_address r) n) rows = true).
    { apply existsb_exists. exists r. split; [done|]. by rewrite Hr, String.eqb_refl. }
    by rewrite Hex in Hex'.
Qed.

(** X22: The listen transaction keeps the three uniqueness constraints of the
    tables it writes, under every pattern of failing statements: one
    session_listens row per (user, NFT), one listens row per NFT, one nfts
    row per address. *)
Theorem listen_keeps_unique_rows (faulty : Faults) (now : Z) (db : Database)
    (u sid n coll : string) (ts : Z) :
  uniqueListens db -> uniqueAggregates db -> uniqueNfts db ->
  let db' := (recordSessionListen faulty now db u sid n coll ts).1 in
  uniqueListens db' /\ uniqueAggregates db' /\ uniqueNfts db'.
Proof.
  intros Hsl Hl Hn db'. split; [by apply LedgerProps.recordSessionListen_unique|].
  subst db'.
  destruct (recordSessionListen faulty now db u sid n coll ts) as [db' out] eqn:Hrun.
  destruct out as [[k|]|e].
  - apply LedgerProps.recorded_inv in Hrun as (sl & cnt & l & sessions & _ & _ & Hul & _ & ->).
    unfold uniqueAggregates, uniqueNfts. simpl.
    split; [by eapply upsertListens_keys|by apply upsertNft_keys].
  - assert (Hsame : (recordSessionListen faulty now db u sid n coll ts).1 = db).
    { apply not_recorded_unchanged. intros k. by rewrite Hrun. }
    rewrite Hrun in Hsame. simpl in *. by subst db'.
  - assert (Hsame : (recordSessionListen faulty now db u sid n coll ts).1 = db).
    { apply not_recorded_unchanged. intros k. by rewrite Hrun. }
    rewrite Hrun in Hsame. simpl in *. by subst db'.
Qed.

Lemma listen_keeps_unique_rows_witness :
  uniqueListens (recordSessionListen noFaults t0 ledgerStart "EQalice" "s1" "EQnft" "EQcoll" t0).1.
Proof.
  refine (proj1 (listen_keeps_unique_rows noFaults t0 ledgerStart "EQalice" "s1" "EQnft"
                   "EQcoll" t0 _ _ _)); apply NoDup_nil_2.
Defined.

End TransactionProps.

(** ** The statistics of /api/session/user-stats against the ledger *)

Module StatsProps.
Import Js Store Ledger Constraints SessionApi Fixtures.

Section Bump.
Variables (u n sid : string) (c ts : Z).

Lemma bump_user (r : SessionListenRow) :
  sl_user_address (bumpMatching u n sid c ts r) = sl_user_address r.
Proof. unfold bumpMatching. by destruct (sameListen u n r). Qed.

Lemma bump_nft (r : SessionListenRow) :
  sl_nft_address (bumpMatching u n sid c ts r) = sl_nft_address r.
Proof. unfold bumpMatching. by destruct (sameListen u n r). Qed.

Lemma map_bump_id (rows : list SessionListenRow) :
  (forall r, In r rows -> sameListen u n r = false) ->
  map (bumpMatching u n sid c ts) rows = rows.
Proof.
  induction rows as [|r rows IH]; simpl; intros H; [done|].
  rewrite IH by (intros; apply H; by right).
  unfold bumpMatching. by rewrite (H r (or_introl eq_refl)).
Qed.

Lemma rows_bump_other (v : string) (rows : list SessionListenRow) :
  v <> u ->
  List.filter (fun r => String.eqb (sl_user_address r) v)
    (map (bumpMatching u n sid c ts) rows)
  = List.filter (fun r => String.eqb (sl_user_address r) v) rows.
Proof.
  intros Hne. induction rows as [|r rows IH]; simpl; [done|].
  rewrite bump_user, IH.
  destruct (String.eqb (sl_user_address r) v) eqn:Hv; [|done].
  f_equal. unfold bumpMatching.
  destruct (sameListen u n r) eqn:Hs; [|done].
  apply LedgerProps.sameListen_true in Hs as [Hu _]. apply String.eqb_eq in Hv. congruence.
Qed.

Lemma nfts_bump (v : string) (rows : list SessionListenRow) :
  map sl_nft_address
    (List.filter (fun r => String.eqb (sl_user_address r) v)
       (map (bumpMatching u n sid c ts) rows))
  = map sl_nft_address
      (List.filter (fun r => String.eqb (sl_user_address r) v) rows).
Proof.
  induction rows as [|r rows IH]; simpl; [done|].
  rewrite bump_user. destruct (String.eqb (sl_user_address r) v); simpl;
    [rewrite bump_nft|]; by rewrite IH.
Qed.

Lemma sum_bump (rows : list SessionListenRow) (old : SessionListenRow) :
  NoDup (map (fun r => (sl_user_address r, sl_nft_address r)) rows) ->
  find (sameListen u n) rows = Some old ->
  foldr Z.add 0 (map sl_count
    (List.filter (fun r => String.eqb (sl_user_address r) u)
       (map (bumpMatching u n sid c ts) rows)))
  = foldr Z.add 0 (map sl_count
      (List.filter (fun r => String.eqb (sl_user_address r) u) rows))
    + (c - sl_count old).
Proof.
  induction rows as [|r rows IH]; simpl; [done|].
  intros Hnd Hfind. apply NoDup_cons in Hnd as [Hnotin Hnd].
  rewrite bump_user.
  destruct (sameListen u n r) eqn:Hs.
  - injection Hfind as <-.
    pose proof Hs as Hs'. apply LedgerProps.sameListen_true in Hs' as [Hu Hn].
    rewrite map_bump_id.
    + rewrite Hu, String.eqb_refl. simpl. unfold bumpMatching. rewrite Hs. simpl. lia.
    + intros r' Hr'. destruct (sameListen u n r') eqn:Hs''; [|done].
      apply LedgerProps.sameListen_true in Hs'' as [Hu' Hn'].
      exfalso. apply Hnotin. apply list_elem_of_In, in_map_iff.
      exists r'. split; [by rewrite Hu, Hn, Hu', Hn'|done].
  - specialize (IH Hnd Hfind).
    destruct (String.eqb (sl_user_address r) u); simpl.
    + rewrite IH. unfold bumpMatching. rewrite Hs. lia.
    + exact IH.
Qed.

End Bump.

Lemma remove_dups_snoc_length (l : list string) (x : string) :
  x ∉ l -> length (remove_dups (l ++ [x])) = S (length (remove_dups l)).
Proof.
  induction l as [|y l IH]; simpl; intros Hx; [done|].
  apply not_elem_of_cons in Hx as [Hne Hx].
  destruct (decide_rel elem_of y (l ++ [x])) as [Hin|Hnin];
    destruct (decide_rel elem_of y l) as [Hin'|Hnin']; simpl; rewrite ?IH by done; try done.
  - apply elem_of_app in Hin as [?|Hin]; [done|].
    apply list_elem_of_singleton in Hin. congruence.
  - exfalso. apply Hnin, elem_of_app. by left.
Qed.

Lemma max_from (rows : list SessionListenRow) (b : Z) :
  exists t,
    fold_left (fun best r =>
                 match best with
                 | None => Some (sl_last_recorded r)
                 | Some b => Some (Z.max b (sl_last_recorded r))
                 end) rows (Some b) = Some t /\ b <= t.
Proof.
  revert b. induction rows as [|r rows IH]; simpl; intros b.
  - exists b. split; [done|lia].
  - destruct (IH (Z.max b (sl_last_recorded r))) as (t & -> & Hle).
    exists t. split; [done|lia].
Qed.

Lemma maxLastRecorded_ge (rows : list SessionListenRow) (r : SessionListenRow) :
  In r rows -> exists t, maxLastRecorded rows = Some t /\ sl_last_recorded r <= t.
Proof.
  unfold maxLastRecorded.
  generalize (@None Z) as acc.
  induction rows as [|x rows IH]; simpl; intros acc Hin; [done|].
  destruct Hin as [->|Hin]; [|by apply IH].
  destruct acc as [b|].
  - destruct (max_from rows (Z.max b (sl_last_recorded r))) as (t & -> & Hle).
    exists t. split; [done|lia].
  - destruct (max_from rows (sl_last_recorded r)) as (t & -> & Hle). eauto.
Qed.

Lemma int4_value (v c : Z) : int4 v = Return c -> c = v.
Proof. unfold int4. destruct (_ && _); [by intros [= <-]|done]. Qed.

(** X23: What the statistics query answers after a recorded listen: the user's
    total grows by exactly one, the number of distinct NFTs grows by one
    when the pair is new and stays otherwise, the last activity is not before
    the listen's timestamp, and the statistics of every other user are what
    they were. *)
Theorem user_stats_follow_recorded_listen
    (faulty : Faults) (now : Z) (db db' : Database)
    (u sid n coll : string) (ts k : Z) :
  uniqueListens db ->
  recordSessionListen faulty now db u sid n coll ts = (db', Return (Recorded k)) ->
  totalListens (userStatsOf db' u) = totalListens (userStatsOf db u) + 1 /\
  uniqueNftsListened (userStatsOf db' u)
  = uniqueNftsListened (userStatsOf db u)
    + match listenRow db u n with Some _ => 0 | None => 1 end /\
  (exists t, lastActivity (userStatsOf db' u) = Some t /\ ts <= t) /\
  (forall v, v <> u -> userStatsOf db' v = userStatsOf db v).
Proof.
  intros Huniq Hrun.
  apply LedgerProps.recorded_inv in Hrun as (sl & cnt & l & sessions & _ & Hsl & _ & _ & ->).
  pose proof (LedgerProps.upsertSessionListen_same _ _ _ _ _ _ _ _ _ Hsl)
    as (row & Hrow & _ & Hts).
  assert (Hlast : exists t,
            maxLastRecorded (List.filter (fun r => String.eqb (sl_user_address r) u) sl)
            = Some t /\ ts <= t).
  { destruct (maxLastRecorded_ge
                (List.filter (fun r => String.eqb (sl_user_address r) u) sl) row)
      as (t & Ht & Hle).
    - apply find_some in Hrow as [Hin Hs].
      apply LedgerProps.sameListen_true in Hs as [Hu _].
      apply filter_In. split; [done|]. by rewrite Hu, String.eqb_refl.
    - exists t. split; [done|lia]. }
  unfold userStatsOf, rowsOfUser, listenRow. simpl.
  revert Hsl. unfold upsertSessionListen.
  destruct (find (sameListen u n) (session_listens db)) as [old|] eqn:Hfind; simpl.
  - destruct (int4 (sl_count old + 1)) as [c|e] eqn:Hc; simpl; [|done].
    apply int4_value in Hc. intros [= <- <-].
    split; [rewrite (sum_bump _ _ _ _ _ _ old Huniq Hfind); lia|].
    split; [rewrite nfts_bump; lia|].
    split; [exact Hlast|].
    intros v Hv. by rewrite (rows_bump_other _ _ _ _ _ v _ Hv).
  - intros [= <- <-]. rewrite !List.filter_app. simpl. rewrite String.eqb_refl.
    rewrite !map_app, foldr_app. simpl.
    split.
    { generalize (map sl_count
        (List.filter (fun r => String.eqb (sl_user_address r) u) (session_listens db))).
      intros xs. induction xs as [|x xs IH]; simpl; lia. }
    split.
    { rewrite remove_dups_snoc_length; [lia|].
      intros Hin. apply list_elem_of_In, in_map_iff in Hin as (r & Hr & Hin).
      apply filter_In in Hin as [Hin Hu]. apply String.eqb_eq in Hu.
      apply (find_none _ _ Hfind) in Hin. unfold sameListen in Hin.
      by rewrite Hu, Hr, !String.eqb_refl in Hin. }
    split.
    { rewrite List.filter_app in Hlast. simpl in Hlast.
      by rewrite String.eqb_refl in Hlast. }
    intros v Hv. apply String.eqb_neq in Hv. rewrite String.eqb_sym in Hv.
    rewrite !List.filter_app. simpl. rewrite Hv. by rewrite !app_nil_r.
Qed.

Lemma user_stats_follow_recorded_listen_witness :
  totalListens
    (userStatsOf
       (recordSessionListen noFaults t0 ledgerStart "EQalice" "s1" "EQnft" "EQcoll" t0).1
       "EQalice")
  = totalListens (userStatsOf ledgerStart "EQalice") + 1.
Proof.
  refine (proj1 (user_stats_follow_recorded_listen noFaults t0 ledgerStart _
                   "EQalice" "s1" "EQnft" "EQcoll" t0 1 _ eq_refl)).
  apply NoDup_nil_2.
Defined.

End StatsProps.

(** ** POST /api/session-listens, middleware and handler together *)

Module ListenRouteProps.
Import Js Store Sessions SessionRoutes SessionApi Fixtures.

Section Route.
Variable Address_parse : string -> result SignData.Address.
Variable Address_toString : SignData.Address -> string.
Variable getNftCollection : string -> result (option string).
Variable whitelist : list string.

(** What the middleware established when it lets a request through. *)
Lemma checkSession_Next (authorization : option string) (now : Z) (reg reg' : Registry)
    (session : SessionData) :
  checkSession authorization now reg = (reg', Next session) ->
  reg' = reg /\ now <= expiresAt session /\
  exists header sid,
    authorization = Some header /\ String.prefix "Bearer " header = true /\
    split " " header !! 1%nat = Some sid /\ getSession sid reg = Some session.
Proof.
  unfold checkSession, getSession. destruct authorization as [header|]; [|done].
  destruct (String.prefix "Bearer " header) eqn:Hp; simpl; [|done].
  destruct (split " " header !! 1%nat) as [sid|] eqn:Hsid; [|done].
  destruct (activeSessions reg !! sid) as [s|] eqn:Hs; [|done].
  destruct (now >? expiresAt s) eqn:Hexp; [done|].
  intros [= <- <-]. rewrite Z.gtb_ltb in Hexp. apply Z.ltb_ge in Hexp.
  split; [done|]. split; [done|]. by exists header, sid.
Qed.



(** X25: A request that the route does not answer with a count leaves the three
    tables of the ledger exactly as they were, whichever check refused it
    and whichever statement failed: a refused listen is never counted. *)
Theorem refused_listen_is_never_counted
    (authorization : option string) (faulty : Faults) (now : Z)
    (reg : Registry) (db : Database) (nftAddress : string) (ts : Z) :
  let out := sessionListensRoute Address_parse Address_toString getNftCollection whitelist
               authorization faulty now reg db nftAddress ts in
  (forall k, out.2 <> ListenJson k) ->
  session_listens out.1.2 = session_listens db /\
  listens out.1.2 = listens db /\
  nfts out.1.2 = nfts db.
Proof.
  intros out. subst out. unfold sessionListensRoute.
  destruct (checkSession authorization now reg) as [reg1 [session|e]]; [|done].
  destruct (sessionListens _ _ _ _ _ _ _ _ _ _) as [db1 resp] eqn:Hroute. simpl.
  revert Hroute. unfold sessionListens.
  destruct (_ || _); [by intros [= <- <-]|].
  destruct (Z.abs (now - ts) >? 10 * 60 * 1000); [by intros [= <- <-]|].
  destruct (Address_normalize Address_parse Address_toString nftAddress) as [nft|e];
    [|by intros [= <- <-]].
  destruct (getNftCollection nft) as [[c|]|e]; simpl;
    [|by intros [= <- <-]|by intros [= <- <-]].
  destruct (Address_normalize Address_parse Address_toString c) as [collection|e];
    simpl; [|by intros [= <- <-]].
  destruct (SignData.includes whitelist collection); simpl; [|by intros [= <- <-]].
  destruct (VerdictProps.detect_only_logs faulty now db (userAddress session) nft ts)
    as (added & Hdb & _).
  destruct (Detector.detectSuspiciousActivity faulty now db (userAddress session) nft ts)
    as [db2 verdict]. simpl in Hdb. subst db2.
  destruct (Detector.isSuspicious verdict); [by intros [= <- <-]|].
  pose proof (TransactionProps.not_recorded_unchanged faulty now
                (set_suspicious_activities (suspicious_activities db ++ added) db)
                (userAddress session) (sessionId session) nft collection ts) as Hsame.
  destruct (Ledger.recordSessionListen _ _ _ _ _ _ _ _) as [db3 [[k|]|e]]; simpl in Hsame.
  - intros [= <- <-] Hnot. by destruct (Hnot k).
  - intros [= <- <-] _. by rewrite Hsame.
  - intros [= <- <-] _. by rewrite Hsame.
Qed.

End Route.


Lemma refused_listen_is_never_counted_witness :
  session_listens
    (sessionListensRoute demoParse demoToString demoCollection demoWhitelist
       None noFaults 1000 aliceRegistry afterTwoListens "EQnft" 1000).1.2
  = session_listens afterTwoListens.
Proof.
  refine (proj1 (refused_listen_is_never_counted demoParse demoToString demoCollection
                   demoWhitelist None noFaults 1000 aliceRegistry afterTwoListens
                   "EQnft" 1000 _)).
  intros k. discriminate.
Defined.

End ListenRouteProps.

(** ** API keys: issue, validate, expire, reissue *)

Module KeyProps.
Import Js Store ApiKeys KeyRoutes Constraints Fixtures.

Lemma saveTransaction_inv (faulty : Faults) (now : Z) (db db' : Database)
    (apiKey addr : string) (created expires : Z) :
  saveTransaction faulty now db apiKey addr created expires = Return db' ->
  existsb (fun r => String.eqb (ak_key r) apiKey)
    (List.filter (keyStays now addr) (api_keys db)) = false /\
  db' = set_api_keys
          (List.filter (keyStays now addr) (api_keys db) ++
           [{| ak_key := apiKey; ak_address := addr;
               ak_created_at := created; ak_expires_at := expires |}]) db.
Proof.
  unfold saveTransaction, query.
  destruct (faulty KeysBegin); simpl; [done|].
  destruct (faulty DeleteKeys); simpl; [done|].
  destruct (faulty InsertKey); simpl; [done|].
  destruct (existsb _ _); [done|].
  destruct (faulty KeysCommit); simpl; [done|].
  by intros [= <-].
Qed.

Lemma generateMusicApiKey_inv (Address_normalize : string -> result string)
    (faulty : Faults) (now : Z) (db db' : Database)
    (randomHex userAddress apiKey : string) (expiresAt : Z) :
  generateMusicApiKey Address_normalize faulty now db randomHex userAddress
  = (db', KeyJson apiKey expiresAt) ->
  apiKey = randomHex /\ expiresAt = now + keyLifetimeMs /\
  exists addr,
    Address_normalize userAddress = Return addr /\
    saveTransaction faulty now db apiKey addr now expiresAt = Return db'.
Proof.
  unfold generateMusicApiKey, saveApiKey, query.
  destruct (faulty KeysConnect); simpl; [done|].
  destruct (Address_normalize userAddress) as [addr|e]; [|done].
  destruct (saveTransaction faulty now db randomHex addr now (now + keyLifetimeMs))
    as [db1|e] eqn:Hsave.
  - intros [= <- <- <-]. eauto.
  - by destruct (faulty KeysRollback).
Qed.

Lemma find_none_of_existsb {A} (p : A -> bool) (l : list A) :
  existsb p l = false -> find p l = None.
Proof.
  induction l as [|x l IH]; simpl; [done|].
  destruct (p x); simpl; [done|exact IH].
Qed.

Lemma find_filter_out {A} (p : A -> bool) (l : list A) :
  find p (List.filter (fun r => negb (p r)) l) = None.
Proof.
  induction l as [|x l IH]; simpl; [done|].
  destruct (p x) eqn:Hp; simpl; [done|]. by rewrite Hp.
Qed.

(** X26: A key that the issuing route handed out expires one hour after it was
    issued and validates, for the normalized address it was issued to and
    with the announced expiry, at every moment up to that expiry; the first
    validation after the expiry answers 401 and deletes the key, and from
    then on every validation answers 401. *)
Theorem issued_key_validates_until_expiry
    (Address_normalize : string -> result string)
    (faulty : Faults) (now : Z) (db db' : Database)
    (randomHex userAddress apiKey : string) (expiresAt : Z) :
  generateMusicApiKey Address_normalize faulty now db randomHex userAddress
  = (db', KeyJson apiKey expiresAt) ->
  apiKey <> "" ->
  exists addr,
    Address_normalize userAddress = Return addr /\
    expiresAt = now + keyLifetimeMs /\
    forall faulty' now', faulty' SelectKey = false ->
      (now' <= expiresAt ->
       validateMusicApiKey faulty' now' db' apiKey = (db', KeyValid addr expiresAt)) /\
      (expiresAt < now' -> faulty' DeleteKey = false ->
       (validateMusicApiKey faulty' now' db' apiKey).2
       = KeyInvalid 401 "Недействительный или истекший API ключ" /\
       forall faulty'' now'', faulty'' SelectKey = false ->
         validateMusicApiKey faulty'' now''
           (validateMusicApiKey faulty' now' db' apiKey).1 apiKey
         = ((validateMusicApiKey faulty' now' db' apiKey).1,
            KeyInvalid 401 "Недействительный или истекший API ключ")).
Proof.
  intros Hgen Hkey.
  apply generateMusicApiKey_inv in Hgen as (_ & Hexp & addr & Hnorm & Hsave).
  exists addr. split; [exact Hnorm|]. split; [exact Hexp|].
  apply saveTransaction_inv in Hsave as [Hfresh ->].
  apply String.eqb_neq in Hkey.
  assert (Hfind : find (fun r => String.eqb (ak_key r) apiKey)
            (List.filter (keyStays now addr) (api_keys db) ++
             [{| ak_key := apiKey; ak_address := addr;
                 ak_created_at := now; ak_expires_at := expiresAt |}])
          = Some {| ak_key := apiKey; ak_address := addr;
                    ak_created_at := now; ak_expires_at := expiresAt |}).
  { rewrite LedgerProps.find_snoc, (find_none_of_existsb _ _ Hfresh). simpl.
    by rewrite String.eqb_refl. }
  intros faulty' now' Hsel. split.
  - intros Hlive. unfold validateMusicApiKey, validateApiKey, query.
    rewrite Hkey, Hsel. simpl. rewrite Hfind. simpl.
    assert (Hno : (now' >? expiresAt) = false)
      by (rewrite Z.gtb_ltb; apply Z.ltb_ge; lia).
    by rewrite Hno.
  - intros Hdead Hdel. unfold validateMusicApiKey at 1 3 4, validateApiKey, query.
    rewrite Hkey, Hsel, Hdel. simpl. rewrite Hfind. simpl.
    assert (Hyes : (now' >? expiresAt) = true) by (apply Z.gtb_lt; lia).
    rewrite Hyes. simpl. split; [done|].
    intros faulty'' now'' Hsel'. unfold validateMusicApiKey, validateApiKey, query.
    rewrite Hkey, Hsel'. simpl.
    by rewrite (find_filter_out (fun r => String.eqb (ak_key r) apiKey)).
Qed.

Lemma issued_key_validates_until_expiry_witness :
  validateMusicApiKey noFaults 2000
    (generateMusicApiKey identity noFaults 1000 threeKeys "k-alice-new" "EQalice").1
    "k-alice-new"
  = ((generateMusicApiKey identity noFaults 1000 threeKeys "k-alice-new" "EQalice").1,
     KeyValid "EQalice" (1000 + keyLifetimeMs)).
Proof.
  destruct (issued_key_validates_until_expiry identity noFaults 1000 threeKeys
              (generateMusicApiKey identity noFaults 1000 threeKeys "k-alice-new" "EQalice").1
              "k-alice-new" "EQalice" "k-alice-new" (1000 + keyLifetimeMs)
              eq_refl ltac:(discriminate)) as (addr & Haddr & _ & Hval).
  injection Haddr as <-.
  apply (Hval noFaults 2000 eq_refl). unfold keyLifetimeMs. lia.
Defined.

Lemma NoDup_map_filter {A B} (f : A -> B) (p : A -> bool) (l : list A) :
  NoDup (map f l) -> NoDup (map f (List.filter p l)).
Proof.
  induction l as [|x l IH]; simpl; [done|].
  intros Hnd. apply NoDup_cons in Hnd as [Hx Hnd].
  destruct (p x); simpl; [|by apply IH].
  apply NoDup_cons. split; [|by apply IH].
  intros Hin. apply Hx. apply list_elem_of_In, in_map_iff in Hin as (y & Hy & Hin).
  apply filter_In in Hin as [Hin _].
  apply list_elem_of_In, in_map_iff. by exists y.
Qed.

Lemma NoDup_map_eq {A B} (f : A -> B) (l : list A) (x y : A) :
  NoDup (map f l) -> In x l -> In y l -> f x = f y -> x = y.
Proof.
  induction l as [|z l IH]; simpl; [done|].
  intros Hnd Hx Hy Hf. apply NoDup_cons in Hnd as [Hz Hnd].
  destruct Hx as [->|Hx], Hy as [->|Hy]; [done| | |by apply IH].
  - exfalso. apply Hz. rewrite Hf. apply list_elem_of_In, in_map_iff. by exists y.
  - exfalso. apply Hz. rewrite <- Hf. apply list_elem_of_In, in_map_iff. by exists x.
Qed.

Lemma saved_keys_unique (faulty : Faults) (now : Z) (db db' : Database)
    (apiKey addr : string) (created expires : Z) :
  saveTransaction faulty now db apiKey addr created expires = Return db' ->
  uniqueKeys db -> uniqueKeys db'.
Proof.
  intros Hsave Huniq. apply saveTransaction_inv in Hsave as [Hfresh ->].
  unfold uniqueKeys in *. simpl. rewrite map_app. simpl.
  apply NoDup_app. split; [by apply NoDup_map_filter|]. split; [|apply NoDup_singleton].
  intros x Hx Hx'. apply list_elem_of_singleton in Hx'. subst x.
  apply list_elem_of_In, in_map_iff in Hx as (r & Hr & Hin).
  assert (Hex : existsb (fun r => String.eqb (ak_key r) apiKey)
                  (List.filter (keyStays now addr) (api_keys db)) = true).
  { apply existsb_exists. exists r. split; [done|]. by rewrite Hr, String.eqb_refl. }
  by rewrite Hfresh in Hex.
Qed.

(** The key table keeps its primary key through every operation on it:
    saving a key and validating a key, with any statement failing, leave at
    most one row per key. *)
Theorem key_table_keeps_primary_key
    (Address_normalize : string -> result string)
    (faulty : Faults) (now : Z) (db : Database) :
  uniqueKeys db ->
  (forall apiKey address created expires,
     uniqueKeys (saveApiKey Address_normalize faulty now db apiKey address created expires).1) /\
  (forall apiKey, uniqueKeys (validateApiKey faulty now db apiKey).1) /\
  (forall randomHex userAddress,
     uniqueKeys (generateMusicApiKey Address_normalize faulty now db randomHex userAddress).1) /\
  (forall apiKey, uniqueKeys (validateMusicApiKey faulty now db apiKey).1).
Proof.
  intros Huniq.
  assert (Hsave : forall apiKey address created expires,
            uniqueKeys (saveApiKey Address_normalize faulty now db apiKey address
                          created expires).1).
  { intros. unfold saveApiKey, query.
    destruct (faulty KeysConnect); simpl; [done|].
    destruct (Address_normalize address) as [addr|e]; [|done].
    destruct (saveTransaction faulty now db apiKey addr created expires) as [db'|e] eqn:Hs;
      simpl; [by eapply saved_keys_unique|done]. }
  assert (Hval : forall apiKey, uniqueKeys (validateApiKey faulty now db apiKey).1).
  { intros. unfold validateApiKey, query.
    destruct (faulty SelectKey); simpl; [done|].
    destruct (find _ (api_keys db)) as [keyData|]; [|done].
    destruct (now >? ak_expires_at keyData); [|done].
    destruct (faulty DeleteKey); simpl; [done|].
    unfold uniqueKeys. simpl. by apply NoDup_map_filter. }
  split; [exact Hsave|]. split; [exact Hval|]. split.
  - intros. unfold generateMusicApiKey.
    specialize (Hsave randomHex userAddress now (now + keyLifetimeMs)).
    by destruct (saveApiKey _ _ _ _ _ _ _ _) as [db' [?|?]].
  - intros. unfold validateMusicApiKey.
    destruct (String.eqb apiKey ""); [done|].
    specialize (Hval apiKey).
    by destruct (validateApiKey faulty now db apiKey) as [db' [[?|]|?]].
Qed.

Lemma key_table_keeps_primary_key_witness :
  uniqueKeys (validateApiKey noFaults 1000 threeKeys "k-bob-expired").1.
Proof.
  refine (proj1 (proj2 (key_table_keeps_primary_key identity noFaults 1000 threeKeys _)) _).
  unfold uniqueKeys. simpl.
  refine (bool_decide_unpack _ _). vm_compute. exact I.
Defined.

(** X27: Issuing a key revokes the address's previous keys: under the primary
    key of the table, every other key that was stored for the same
    normalized address answers 401 from then on. *)
Theorem reissue_revokes_previous_key
    (Address_normalize : string -> result string)
    (faulty : Faults) (now : Z) (db db' : Database)
    (randomHex userAddress apiKey : string) (expiresAt : Z) :
  uniqueKeys db ->
  generateMusicApiKey Address_normalize faulty now db randomHex userAddress
  = (db', KeyJson apiKey expiresAt) ->
  exists addr,
    Address_normalize userAddress = Return addr /\
    forall old faulty' now',
      old ∈ api_keys db -> ak_address old = addr ->
      ak_key old <> "" -> ak_key old <> apiKey ->
      faulty' SelectKey = false ->
      validateMusicApiKey faulty' now' db' (ak_key old)
      = (db', KeyInvalid 401 "Недействительный или истекший API ключ").
Proof.
  intros Huniq Hgen.
  apply generateMusicApiKey_inv in Hgen as (_ & _ & addr & Hnorm & Hsave).
  exists addr. split; [exact Hnorm|].
  apply saveTransaction_inv in Hsave as [_ ->].
  intros old faulty' now' Hin Haddr Hne Hother Hsel.
  unfold validateMusicApiKey, validateApiKey, query.
  apply String.eqb_neq in Hne. rewrite Hne, Hsel. simpl.
  rewrite LedgerProps.find_snoc. simpl.
  assert (Hnew : String.eqb apiKey (ak_key old) = false)
    by (apply String.eqb_neq; congruence).
  rewrite Hnew.
  destruct (find _ (List.filter (keyStays now addr) (api_keys db))) as [r|] eqn:Hfind;
    [|done].
  exfalso. apply find_some in Hfind as [Hr Hk].
  apply filter_In in Hr as [Hr Hstays]. apply String.eqb_eq in Hk.
  assert (r = old).
  { apply (NoDup_map_eq ak_key (api_keys db)); [exact Huniq|done| |done].
    by apply list_elem_of_In. }
  subst r. apply ApiKeysProps.keyStays_true in Hstays as [Hstays _]. done.
Qed.

Lemma reissue_revokes_previous_key_witness :
  validateMusicApiKey noFaults 2000
    (generateMusicApiKey identity noFaults 1000 threeKeys "k-alice-new" "EQalice").1
    "k-alice-old"
  = ((generateMusicApiKey identity noFaults 1000 threeKeys "k-alice-new" "EQalice").1,
     KeyInvalid 401 "Недействительный или истекший API ключ").
Proof.
  assert (Huniq : uniqueKeys threeKeys).
  { unfold uniqueKeys. simpl. refine (bool_decide_unpack _ _). vm_compute. exact I. }
  destruct (reissue_revokes_previous_key identity noFaults 1000 threeKeys
              (generateMusicApiKey identity noFaults 1000 threeKeys "k-alice-new" "EQalice").1
              "k-alice-new" "EQalice" "k-alice-new" (1000 + keyLifetimeMs)
              Huniq eq_refl) as (addr & Haddr & Hrev).
  injection Haddr as <-.
  apply (Hrev {| ak_key := "k-alice-old"; ak_address := "EQalice"; ak_created_at := 0;
                 ak_expires_at := 9000 |} noFaults 2000).
  - apply list_elem_of_In. left. reflexivity.
  - reflexivity.
  - discriminate.
  - discriminate.
  - reflexivity.
Defined.

End KeyProps.

(** ** POST /api/session/create: when a session comes into being *)

Module CreateRouteProps.
Import Js Store Sessions SessionRoutes Fixtures.

Section Create.
Variable Address_parse : string -> result SignData.Address.
Variable Address_toString : SignData.Address -> string.
Variable crypto : SignData.Crypto.
Variable getWalletPublicKey : string -> result (option SignData.Buffer).
Variable jwt_sign : string -> string -> Z -> Z -> result string.

(** X28: The handler answers with a session in two ways only: it returns the
    unexpired session the registry already holds for the normalized address,
    changing nothing; or the signature check over the expected message
    answered true, and the session it registers is new, owned by the
    normalized address and runs for one hour from now, whether or not the
    monitoring insert succeeded.  Every other answer leaves the registry and
    the database as they were. *)
Theorem session_created_only_after_verification
    (faulty : Faults) (now : Z) (reg : Registry) (db : Database) (req : SignDataRequest) :
  match createSession Address_parse Address_toString crypto getWalletPublicKey jwt_sign
          faulty now reg db req with
  | (reg1, db1, SessionJson sid exp) =>
      exists addr,
        Address_normalize Address_parse Address_toString (address req) = Return addr /\
        ((exists s, liveSessionOf now reg addr = Some (sid, s) /\ exp = expiresAt s /\
                    reg1 = reg /\ db1 = db) \/
         (liveSessionOf now reg addr = None /\
          SignData.checkSignData now Address_parse crypto
            {| SignData.signature := signature req;
               SignData.address := addr;
               SignData.timestamp := timestamp req;
               SignData.domain := domain req;
               SignData.payload := SignData.PayloadText expectedText;
               SignData.public_key := public_key req;
               SignData.walletStateInit := walletStateInit req |}
            getWalletPublicKey = Return true /\
          exp = now + sessionLifetimeMs /\
          reg1 = addSession sid
                   {| sessionId := sid; userAddress := addr; createdAt := now;
                      expiresAt := exp; signatureVerified := true |} reg /\
          (db1 = db \/
           db1 = set_listening_sessions
                   (listening_sessions db ++
                    [{| ls_session_id := sid; ls_user_address := addr;
                        ls_created_at := now; ls_expires_at := exp;
                        ls_last_activity := now; ls_is_active := true |}]) db)))
  | (reg1, db1, _) => reg1 = reg /\ db1 = db
  end.
Proof.
  unfold createSession, createSession_try.
  destruct (_ || _); [done|].
  destruct (payload req) as [[text| |]|]; try done.
  destruct (String.eqb text ""); [done|].
  destruct (_ >? 5 * 60); [done|].
  destruct (String.eqb text expectedText) eqn:Htext; simpl; [|done].
  apply String.eqb_eq in Htext. subst text.
  destruct (Address_normalize Address_parse Address_toString (address req))
    as [addr|e] eqn:Haddr; [|done].
  destruct (liveSessionOf now reg addr) as [[sid s]|] eqn:Hlive.
  { exists addr. split; [done|]. left. by exists s. }
  unfold createNewSession.
  destruct (SignData.checkSignData _ _ _ _ _) as [[|]|e] eqn:Hsig; simpl; [|done|done].
  destruct (jwt_sign addr (domain req) (timestamp req) (now / 1000)) as [sid|e]; simpl;
    [|done].
  exists addr. split; [done|]. right.
  split; [done|]. split; [exact Hsig|]. split; [done|]. split; [done|].
  unfold query. destruct (faulty InsertListeningSession); simpl; [by left|].
  destruct (existsb _ _); [by left|by right].
Qed.

End Create.

End CreateRouteProps.

(** ** The routes behind [checkSession] *)

Module ProtectedRouteProps.
Import Js Store Sessions SessionApi Fixtures.

(** The routes mounted behind the middleware answer only for the bearer
    token of a registered session that has not run out, and only about that
    session's owner: the validation route names the owner and the expiry of
    the session, the statistics route returns the owner's rows of the ledger
    and nobody else's; neither changes the registry when it answers. *)
Theorem protected_routes_answer_for_the_session_owner
    (authorization : option string) (now : Z) (reg : Registry) (db : Database) :
  (forall reg' a e,
     sessionValidate authorization now reg = (reg', ValidJson a e) ->
     reg' = reg /\ now <= e /\
     exists header sid session,
       authorization = Some header /\ String.prefix "Bearer " header = true /\
       Js.split " " header !! 1%nat = Some sid /\ getSession sid reg = Some session /\
       a = userAddress session /\ e = expiresAt session) /\
  (forall queryFails reg' a stats e,
     userStatsRoute authorization queryFails now reg db = (reg', StatsJson a stats e) ->
     reg' = reg /\ now <= e /\ queryFails = false /\ stats = userStatsOf db a /\
     exists header sid session,
       authorization = Some header /\ String.prefix "Bearer " header = true /\
       Js.split " " header !! 1%nat = Some sid /\ getSession sid reg = Some session /\
       a = userAddress session /\ e = expiresAt session).
Proof.
  split.
  - intros reg' a e. unfold sessionValidate.
    destruct (checkSession authorization now reg) as [reg1 [session|err]] eqn:Hcheck;
      [|done].
    apply ListenRouteProps.checkSession_Next in Hcheck
      as (-> & Hlive & header & sid & -> & Hp & Hsid & Hs).
    intros [= <- <- <-]. split; [done|]. split; [done|].
    by exists header, sid, session.
  - intros queryFails reg' a stats e. unfold userStatsRoute.
    destruct (checkSession authorization now reg) as [reg1 [session|err]] eqn:Hcheck;
      [|done].
    apply ListenRouteProps.checkSession_Next in Hcheck
      as (-> & Hlive & header & sid & -> & Hp & Hsid & Hs).
    destruct queryFails; [done|].
    intros [= <- <- <- <-]. split; [done|]. split; [done|]. split; [done|].
    split; [done|]. by exists header, sid, session.
Qed.

End ProtectedRouteProps.

(** ** POST /admin/unblock-user against the table it updates *)

Module UnblockProps.
Import Js Store Detector Admin Constraints Fixtures.

(** X19: On the user_blocks table that the initialization creates, the unblock
    handler never unblocks: its UPDATE assigns [resolved_at], which is not a
    column of that table, so every request that reaches the statement is
    answered 500 and the table of blocks is left as it was. *)
Theorem unblock_fails_on_created_table
    (Address_normalize : string -> result string) (envAdminKey : option string)
    (queryFails : bool) (db : Database) (adminKey : option string) (userAddress : string) :
  let out := unblockUser Address_normalize envAdminKey userBlocksColumns queryFails db
               adminKey userAddress in
  out.1 = db /\
  (forall a, out.2 <> UnblockedJson a) /\
  (forall addr, adminKey = envAdminKey -> userAddress <> "" ->
     Address_normalize userAddress = Return addr ->
     out.2 = UnblockStatus 500 "Ошибка сервера").
Proof.
  intros out. subst out. unfold unblockUser, unblockUpdate, wrongAdminKey.
  assert (Hcols : forallb (SignData.includes userBlocksColumns)
                    ["is_active"; "resolved_at"]%string = false) by reflexivity.
  rewrite Hcols. simpl.
  split; [|split].
  - destruct (bool_decide _); simpl; [|done].
    destruct (String.eqb userAddress ""); [done|].
    destruct (Address_normalize userAddress); [|done].
    by destruct queryFails.
  - intros a.
    destruct (bool_decide _); simpl; [|done].
    destruct (String.eqb userAddress ""); [done|].
    destruct (Address_normalize userAddress); [|done].
    by destruct queryFails.
  - intros addr Hkey Hne Hnorm.
    rewrite bool_decide_eq_true_2 by done. simpl.
    apply String.eqb_neq in Hne. rewrite Hne, Hnorm.
    by destruct queryFails.
Qed.

Lemma unblocked_rows_inactive (addr user : string) (now : Z) (rows : list UserBlockRow) :
  List.filter (blockApplies now user)
    (map (fun b =>
            if String.eqb (ub_user_address b) addr && ub_is_active b
            then {| ub_user_address := ub_user_address b; ub_reason := ub_reason b;
                    ub_blocked_until := ub_blocked_until b; ub_is_active := false |}
            else b) rows)
  = if String.eqb user addr then [] else List.filter (blockApplies now user) rows.
Proof.
  induction rows as [|b rows IH]; simpl; [by destruct (String.eqb user addr)|].
  rewrite IH. clear IH.
  destruct (String.eqb (ub_user_address b) addr) eqn:Hb; simpl.
  - apply String.eqb_eq in Hb.
    destruct (ub_is_active b) eqn:Hact; simpl.
    + unfold blockApplies at 1. simpl. rewrite andb_false_r. simpl.
      destruct (String.eqb user addr) eqn:Hu; [done|].
      assert (Hno : blockApplies now user b = false).
      { unfold blockApplies. rewrite Hb, String.eqb_sym, Hu. done. }
      by rewrite Hno.
    + assert (Hno : blockApplies now user b = false).
      { unfold blockApplies. by rewrite Hact, andb_false_r. }
      rewrite Hno. done.
  - destruct (String.eqb user addr) eqn:Hu; [|done].
    apply String.eqb_eq in Hu. subst user.
    assert (Hno : blockApplies now addr b = false).
    { unfold blockApplies. by rewrite Hb. }
    by rewrite Hno.
Qed.

(** On a table that does have the columns the statement assigns, the
    handler does what its name says: a user with an active block is
    answered success and is no longer blocked at any time, the blocks of
    every other user answer as before, and a user without an active block is
    answered 404. *)
Theorem unblock_lifts_block_when_column_exists
    (Address_normalize : string -> result string) (key : option string)
    (columns : list string) (db : Database) (userAddress addr : string) :
  SignData.includes columns "is_active" = true ->
  SignData.includes columns "resolved_at" = true ->
  userAddress <> "" -> Address_normalize userAddress = Return addr ->
  let out := unblockUser Address_normalize key columns false db key userAddress in
  let active := List.filter (fun b => String.eqb (ub_user_address b) addr && ub_is_active b)
                  (user_blocks db) in
  out.2 = (if Nat.eqb (length active) 0
           then UnblockStatus 404 "Активная блокировка не найдена"
           else UnblockedJson addr) /\
  (forall now, checkUserBlock noFaults now out.1 addr
               = Return {| isBlocked := false; blockReason := None |}) /\
  (forall now user, user <> addr ->
     checkUserBlock noFaults now out.1 user = checkUserBlock noFaults now db user).
Proof.
  intros Hactive Hresolved Hne Hnorm out active. subst out active.
  unfold unblockUser, unblockUpdate, wrongAdminKey.
  rewrite bool_decide_eq_true_2 by done. simpl.
  apply String.eqb_neq in Hne. rewrite Hne, Hnorm, Hactive, Hresolved. simpl.
  assert (Hblocks : forall now user,
            checkUserBlock noFaults now
              (set_user_blocks
                 (map (fun b =>
                         if String.eqb (ub_user_address b) addr && ub_is_active b
                         then {| ub_user_address := ub_user_address b;
                                 ub_reason := ub_reason b;
                                 ub_blocked_until := ub_blocked_until b;
                                 ub_is_active := false |}
                         else b) (user_blocks db)) db) user
            = if String.eqb user addr
              then Return {| isBlocked := false; blockReason := None |}
              else checkUserBlock noFaults now db user).
  { intros now user. unfold checkUserBlock, query. simpl.
    rewrite unblocked_rows_inactive. by destruct (String.eqb user addr). }
  destruct (Nat.eqb _ 0); simpl.
  - split; [done|]. split.
    + intros now. by rewrite Hblocks, String.eqb_refl.
    + intros now user Hu. apply String.eqb_neq in Hu. by rewrite Hblocks, Hu.
  - split; [done|]. split.
    + intros now. by rewrite Hblocks, String.eqb_refl.
    + intros now user Hu. apply String.eqb_neq in Hu. by rewrite Hblocks, Hu.
Qed.

Lemma unblock_lifts_block_when_column_exists_witness :
  (unblockUser Return (Some "secret") (userBlocksColumns ++ ["resolved_at"]%string) false
     malloryBlocked (Some "secret") "EQmallory").2
  = UnblockedJson "EQmallory".
Proof.
  refine (proj1 (unblock_lifts_block_when_column_exists Return (Some "secret")
                   (userBlocksColumns ++ ["resolved_at"]%string) malloryBlocked
                   "EQmallory" "EQmallory" eq_refl eq_refl _ eq_refl)).
  discriminate.
Defined.

End UnblockProps.

(** ** POST /api/listens: the writer of the aggregate counts that needs no session *)

Module LegacyProps.
Import Js Store Ledger Legacy Constraints Fixtures.

Section Route.
Variable Address_normalize : string -> result string.
Variable whitelist : list string.

(** X29: The legacy endpoint counts a listen for anyone: no session, no block
    lookup, no detector and no 30-second distance stand before it.  For a
    whitelisted collection and a store that answers, every call raises the
    NFT's aggregate count by one and answers the new count, at any time,
    while the per-user ledger, which the detector and the flood floor read,
    stays as it was. *)
Theorem legacy_listen_counts_without_session
    (now : Z) (db : Database) (nftAddress collectionAddress nft collection : string) :
  nftAddress <> "" -> collectionAddress <> "" ->
  Address_normalize nftAddress = Return nft ->
  Address_normalize collectionAddress = Return collection ->
  SignData.includes whitelist collection = true ->
  0 <= aggregateCount db nft < 2147483647 ->
  let out := legacyListen Address_normalize whitelist noLegacyFaults now db
               nftAddress collectionAddress in
  out.2 = LegacyJson (aggregateCount db nft + 1) /\
  aggregateCount out.1 nft = aggregateCount db nft + 1 /\
  session_listens out.1 = session_listens db /\
  user_blocks out.1 = user_blocks db /\
  suspicious_activities out.1 = suspicious_activities db.
Proof.
  intros Hn Hc Hnft Hcoll Hw Hrange out. subst out.
  unfold legacyListen. apply String.eqb_neq in Hn, Hc.
  rewrite Hn, Hc, Hnft. simpl. rewrite Hcoll. simpl. rewrite Hw. simpl.
  unfold legacyTransaction, legacyQuery. simpl.
  assert (Hl : exists l, upsertListens now (listens db) nft collection = Return l).
  { unfold upsertListens, aggregateCount in *.
    destruct (find (sameNft nft) (listens db)) as [old|]; simpl in *.
    - rewrite TransactionProps.int4_in_range by lia. simpl. eauto.
    - eauto. }
  destruct Hl as (l & Hl).
  pose proof (LedgerProps.upsertListens_same _ _ _ _ _ Hl) as Hcount.
  fold (aggregateCount db nft) in Hcount.
  assert (Hnz : (from_option l_count 0 (find (sameNft nft) l) =? 0) = false)
    by (apply Z.eqb_neq; lia).
  destruct (List.filter _ (nfts db)); simpl; rewrite Hl; simpl; rewrite Hnz;
    unfold aggregateCount; simpl; rewrite Hcount; done.
Qed.

(** Whatever fails, the legacy endpoint never writes the per-user ledger,
    the blocks or the audit table, and a call that does not answer with a
    count leaves the database as it was. *)
Theorem legacy_listen_all_or_nothing
    (faulty : LegacyStmt -> bool) (now : Z) (db : Database)
    (nftAddress collectionAddress : string) :
  let out := legacyListen Address_normalize whitelist faulty now db
               nftAddress collectionAddress in
  session_listens out.1 = session_listens db /\
  user_blocks out.1 = user_blocks db /\
  suspicious_activities out.1 = suspicious_activities db /\
  ((forall k, out.2 <> LegacyJson k) -> out.1 = db).
Proof.
  intros out. subst out. unfold legacyListen, legacyTransaction, legacyQuery.
  destruct (_ || _); [done|].
  destruct (Address_normalize nftAddress) as [nft|e]; simpl; [|done].
  destruct (Address_normalize collectionAddress) as [collection|e]; simpl; [|done].
  destruct (SignData.includes whitelist collection); simpl; [|done].
  destruct (faulty LegacyConnect); simpl; [done|].
  destruct (faulty LegacyBegin); simpl; [done|].
  destruct (faulty SelectNft); simpl; [done|].
  destruct (List.filter _ (nfts db)); simpl.
  - destruct (faulty InsertNft); simpl; [done|].
    destruct (faulty LegacyUpsertListens); simpl; [done|].
    destruct (upsertListens now (listens db) nft collection); simpl; [|done].
    destruct (faulty LegacyCommit); simpl; [done|].
    repeat (split; [done|]). intros Hnot. by destruct (Hnot _ eq_refl).
  - destruct (faulty UpdateNft); simpl; [done|].
    destruct (faulty LegacyUpsertListens); simpl; [done|].
    destruct (upsertListens now (listens db) nft collection); simpl; [|done].
    destruct (faulty LegacyCommit); simpl; [done|].
    repeat (split; [done|]). intros Hnot. by destruct (Hnot _ eq_refl).
Qed.

End Route.

Lemma legacy_listen_counts_without_session_witness :
  (legacyListen identity demoWhitelist noLegacyFaults (t0 + 30001) afterTwoListens
     "EQnft" "EQcoll").2
  = LegacyJson (aggregateCount afterTwoListens "EQnft" + 1).
Proof.
  refine (proj1 (legacy_listen_counts_without_session identity demoWhitelist (t0 + 30001)
                   afterTwoListens "EQnft" "EQcoll" "EQnft" "EQcoll"
                   _ _ eq_refl eq_refl eq_refl _)).
  - discriminate.
  - discriminate.
  - vm_compute. split; [discriminate|reflexivity].
Defined.

End LegacyProps.

(** ** The key bytes made of the number that get_public_key returns *)

Module WalletKeyProps.
Import Js SignData WalletKey Constraints.

Lemma hex_digits_length (w : nat) (v : Z) : length (hex_digits w v) = w.
Proof.
  revert v. induction w as [|w IH]; intros v; simpl; [done|].
  rewrite length_app, IH. simpl. lia.
Qed.

Lemma hex_digits_range (w : nat) (v x : Z) : In x (hex_digits w v) -> 0 <= x < 16.
Proof.
  revert v. induction w as [|w IH]; intros v; simpl; [done|].
  intros Hin. apply in_app_or in Hin as [Hin|[<-|[]]]; [by eapply IH|].
  apply Z.mod_pos_bound. lia.
Qed.

Lemma hex_digits_0 (j : nat) : hex_digits j 0 = repeat 0 j.
Proof.
  induction j as [|j IH]; simpl; [done|].
  rewrite Z.div_0_l, Z.mod_0_l, IH by lia. symmetry. apply repeat_cons.
Qed.

Lemma hex_digits_zero_pad (k j : nat) (v : Z) :
  0 <= v < 16 ^ Z.of_nat k ->
  hex_digits (j + k) v = repeat 0 j ++ hex_digits k v.
Proof.
  revert v. induction k as [|k IH]; intros v Hv.
  - simpl in Hv. assert (v = 0) as -> by lia.
    rewrite Nat.add_0_r, hex_digits_0. simpl. by rewrite app_nil_r.
  - rewrite Nat.add_succ_r. simpl. rewrite IH.
    + by rewrite app_assoc.
    + rewrite Nat2Z.inj_succ, Z.pow_succ_r in Hv by lia.
      split; [apply Z.div_pos; lia|]. apply Z.div_lt_upper_bound; lia.
Qed.

Lemma append_cons (c : ascii) (s1 s2 : string) :
  String c s1 +:+ s2 = String c (s1 +:+ s2).
Proof. reflexivity. Qed.

Lemma hex_string_snoc (l : list ascii) (c : ascii) (acc : string) :
  String.string_of_list_ascii (l ++ [c]) +:+ acc
  = String.string_of_list_ascii l +:+ String c acc.
Proof.
  induction l as [|x l IH]; simpl; [done|]. by rewrite !append_cons, IH.
Qed.

Lemma hex_string_app (l1 l2 : list ascii) :
  String.string_of_list_ascii l1 +:+ String.string_of_list_ascii l2
  = String.string_of_list_ascii (l1 ++ l2).
Proof.
  induction l1 as [|x l IH]; simpl; [done|]. by rewrite append_cons, IH.
Qed.

Lemma hex_string_length (l : list ascii) :
  String.length (String.string_of_list_ascii l) = length l.
Proof. induction l as [|x l IH]; simpl; [done|]. by rewrite IH. Qed.

Lemma append_empty (s : string) : s +:+ "" = s.
Proof. induction s as [|c s IH]; [done|]. by rewrite append_cons, IH. Qed.

(** What the digit loop produces: the [k] digits of [v], for the least
    [k >= 1] with [v < 16 ^ k]. *)
Lemma toHex_digits (fuel : nat) (v : Z) (acc : string) :
  (1 <= fuel)%nat -> 0 <= v < 16 ^ Z.of_nat fuel ->
  exists k,
    (1 <= k <= fuel)%nat /\
    toHex fuel v acc = String.string_of_list_ascii (map hexDigit (hex_digits k v)) +:+ acc /\
    v < 16 ^ Z.of_nat k /\
    (k = 1%nat \/ 16 ^ (Z.of_nat k - 1) <= v).
Proof.
  revert v acc. induction fuel as [|f IH]; intros v acc Hf Hv; [lia|].
  cbn [toHex]. destruct (v <? 16) eqn:Hsmall.
  - apply Z.ltb_lt in Hsmall. exists 1%nat.
    split; [lia|]. split; [|split; [simpl; lia|by left]].
    simpl. done.
  - apply Z.ltb_ge in Hsmall.
    rewrite Nat2Z.inj_succ, Z.pow_succ_r in Hv by lia.
    assert (Hf' : (1 <= f)%nat).
    { destruct f; [simpl in Hv; lia|lia]. }
    assert (Hdiv : 0 <= v / 16 < 16 ^ Z.of_nat f).
    { split; [apply Z.div_pos; lia|]. apply Z.div_lt_upper_bound; lia. }
    destruct (IH (v / 16) (String (hexDigit (v mod 16)) acc) Hf' Hdiv)
      as (k & Hk & Heq & Hlt & Hmin).
    exists (S k). split; [lia|]. split; [|split].
    + rewrite Heq. cbn [hex_digits]. rewrite map_app. simpl.
      by rewrite hex_string_snoc.
    + rewrite Nat2Z.inj_succ, Z.pow_succ_r by lia.
      pose proof (Z.div_mod v 16 ltac:(lia)). pose proof (Z.mod_pos_bound v 16 ltac:(lia)).
      lia.
    + right. replace (Z.of_nat (S k) - 1) with (Z.of_nat k) by lia.
      pose proof (Z.div_mod v 16 ltac:(lia)). pose proof (Z.mod_pos_bound v 16 ltac:(lia)).
      destruct Hmin as [->|Hmin]; [simpl; lia|].
      replace (Z.of_nat k) with (Z.succ (Z.of_nat k - 1)) by lia.
      rewrite Z.pow_succ_r by lia. lia.
Qed.

Lemma pow16_64 : 16 ^ Z.of_nat 64 = 2 ^ 256.
Proof. reflexivity. Qed.

(** The padded hexadecimal string of a value below 2^256 is its 64 digits. *)
Lemma padded_hex (v : Z) :
  0 <= v < 2 ^ 256 ->
  padStart 64 "0" (toString16 v)
  = String.string_of_list_ascii (map hexDigit (hex_digits 64 v)).
Proof.
  intros Hv. unfold toString16.
  assert (Hneg : (v <? 0) = false) by (apply Z.ltb_ge; lia). rewrite Hneg.
  assert (Hfuel : 0 <= v < 16 ^ Z.of_nat (S (Z.to_nat (Z.log2 v)))).
  { split; [lia|]. rewrite Nat2Z.inj_succ, Z2Nat.id by apply Z.log2_nonneg.
    destruct (Z.eq_dec v 0) as [->|Hnz]; [simpl; lia|].
    pose proof (Z.log2_spec v ltac:(lia)) as [_ Hlt].
    eapply Z.lt_le_trans; [exact Hlt|].
    apply Z.pow_le_mono_l. pose proof (Z.log2_nonneg v). lia. }
  destruct (toHex_digits (S (Z.to_nat (Z.log2 v))) v "" ltac:(lia) Hfuel)
    as (k & Hk & -> & Hlt & Hmin).
  rewrite append_empty.
  assert (Hk64 : (k <= 64)%nat).
  { destruct Hmin as [->|Hmin]; [lia|].
    destruct (le_lt_dec k 64) as [?|Hbig]; [done|]. exfalso.
    assert (16 ^ 64 <= 16 ^ (Z.of_nat k - 1)) by (apply Z.pow_le_mono_r; lia).
    change (16 ^ 64) with (2 ^ 256) in *. lia. }
  unfold padStart. rewrite hex_string_length, length_map, hex_digits_length.
  rewrite hex_string_app. f_equal.
  replace 64%nat with ((64 - k) + k)%nat at 2 by lia.
  rewrite (hex_digits_zero_pad k (64 - k) v) by lia.
  by rewrite map_app, map_repeat.
Qed.

Lemma hexValue_hexDigit (x : Z) : 0 <= x < 16 -> hexValue (hexDigit x) = Some x.
Proof.
  intros Hx.
  assert (x = 0 \/ x = 1 \/ x = 2 \/ x = 3 \/ x = 4 \/ x = 5 \/ x = 6 \/ x = 7 \/
          x = 8 \/ x = 9 \/ x = 10 \/ x = 11 \/ x = 12 \/ x = 13 \/ x = 14 \/ x = 15)
    as Hcases by lia.
  repeat (destruct Hcases as [->|Hcases]; [reflexivity|]). by subst x.
Qed.

Lemma fromHex_digits (n : nat) (l : list Z) :
  (length l <= n)%nat -> (forall x, In x l -> 0 <= x < 16) ->
  fromHex (String.string_of_list_ascii (map hexDigit l)) = pairs l.
Proof.
  revert l. induction n as [|n IH]; intros l Hlen Hl.
  - destruct l; [done|simpl in Hlen; lia].
  - destruct l as [|a [|b rest]]; [done|done|].
    simpl. rewrite !hexValue_hexDigit by (apply Hl; simpl; auto).
    f_equal. apply IH; [simpl in Hlen; lia|].
    intros x Hx. apply Hl. simpl. auto.
Qed.

Lemma pairs_snoc (n : nat) (l : list Z) (a b : Z) :
  length l = (2 * n)%nat -> pairs (l ++ [a; b]) = pairs l ++ [16 * a + b].
Proof.
  revert l. induction n as [|n IH]; intros l Hlen.
  - destruct l; [done|simpl in Hlen; lia].
  - destruct l as [|x [|y rest]]; [simpl in Hlen; lia|simpl in Hlen; lia|].
    simpl. f_equal. apply IH. simpl in Hlen. lia.
Qed.

Lemma pairs_hex_digits (k : nat) (v : Z) :
  pairs (hex_digits (2 * k) v) = be_bytes k v.
Proof.
  revert v. induction k as [|k IH]; intros v; [done|].
  replace (2 * S k)%nat with (S (S (2 * k))) by lia.
  cbn [hex_digits be_bytes].
  rewrite <- app_assoc. simpl.
  rewrite (pairs_snoc k) by apply hex_digits_length.
  rewrite Z.div_div by lia. change (16 * 16) with 256.
  rewrite IH. f_equal. f_equal.
  change 256 with (16 * 16). rewrite Z.rem_mul_r by lia. lia.
Qed.

(** X30: The key that [getWalletPublicKey] makes of the number returned by the
    wallet's get_public_key method is, for every value below 2^256, the
    32-byte big-endian form of that number: exactly 32 bytes, each below
    256, whose value is the number, so the length that the signature check
    demands of a public key is met. *)
Theorem numeric_key_is_32_bytes_big_endian (v : Z) :
  0 <= v < 2 ^ 256 ->
  publicKeyOfNum v = be_bytes 32 v /\
  length (publicKeyOfNum v) = 32%nat /\
  be_value (publicKeyOfNum v) = v /\
  (forall b, In b (publicKeyOfNum v) -> 0 <= b < 256).
Proof.
  intros Hv.
  assert (Hkey : publicKeyOfNum v = be_bytes 32 v).
  { unfold publicKeyOfNum. rewrite padded_hex by done.
    rewrite (fromHex_digits 64).
    - exact (pairs_hex_digits 32 v).
    - by rewrite hex_digits_length.
    - intros x. apply hex_digits_range. }
  rewrite Hkey. split; [done|]. split; [apply EncodingProps.be_bytes_length|].
  split.
  - rewrite EncodingProps.be_value_be_bytes. apply Z.mod_small.
    change (256 ^ Z.of_nat 32) with (2 ^ 256). lia.
  - intros b Hb. apply (EncodingProps.be_bytes_range 32 v). by apply list_elem_of_In.
Qed.

Lemma numeric_key_is_32_bytes_big_endian_witness :
  publicKeyOfNum 4660 = be_bytes 32 4660.
Proof.
  refine (proj1 (numeric_key_is_32_bytes_big_endian 4660 _)).
  split; [discriminate|reflexivity].
Defined.

End WalletKeyProps.
